(** * JJUTV video extraction server: resolution cache, format selection
      and catalog store

    A shallow embedding of the request handlers of [server.py],
    [backend/server.py] and [simple-server.py].  Python dictionaries are
    finite maps, the module-level [video_cache] is threaded through the
    handlers, the SQLite tables are lists of rows in rowid order, a query
    yields its rows in the order SQLite scans them, and every call into
    yt-dlp is a call to an oracle that either returns an info dictionary or
    raises. *)

From Stdlib Require Import ZArith Lia Ascii.
From stdpp Require Import gmap strings list fin_maps pretty sorting.

Local Open Scope Z_scope.

(** ** Python values *)

(** The scalar values that travel through the handlers: [None], [str] and
    [int]. *)
Inductive pyval : Type :=
| PNone
| PStr (s : string)
| PInt (n : Z).

#[global] Instance pyval_eq_dec : EqDecision pyval.
Proof. solve_decision. Defined.

(** [bool(v)]. *)
Definition truthy (v : pyval) : bool :=
  match v with
  | PNone => false
  | PStr s => bool_decide (s ≠ "")
  | PInt n => bool_decide (n ≠ 0)
  end.

(** [str(v)], as an f-string renders it. *)
Definition py_str (v : pyval) : string :=
  match v with
  | PNone => "None"
  | PStr s => s
  | PInt n => pretty n
  end.

Abbreviation pydict := (gmap string pyval).

(** [d.get(k)] and [d.get(k, dflt)]: the default is used only when the key
    is absent, a key bound to [None] yields [None]. *)
Definition dict_get (d : pydict) (k : string) : pyval := default PNone (d !! k).
Definition dict_get_or (d : pydict) (k : string) (dflt : pyval) : pyval :=
  default dflt (d !! k).

(** [bool(d)] for a dictionary: only the empty one is falsy. *)
Definition dict_truthy (d : pydict) : bool := bool_decide (d ≠ ∅).

(** [l[i]] with Python's negative indices; [None] stands for IndexError. *)
Definition py_index {A} (l : list A) (i : Z) : option A :=
  if decide (0 ≤ i) then l !! Z.to_nat i
  else if decide (- Z.of_nat (length l) ≤ i) then l !! Z.to_nat (Z.of_nat (length l) + i)
  else None.

(** [l[:n]]: a negative bound counts from the end. *)
Definition py_take {A} (n : Z) (l : list A) : list A :=
  if decide (0 ≤ n) then take (Z.to_nat n) l
  else take (Z.to_nat (Z.of_nat (length l) + n)) l.

(** The result of a call that may raise: the exception keeps its message. *)
Inductive outcome (A : Type) : Type :=
| Returned (a : A)
| Raised (msg : string).
Arguments Returned {A} a.
Arguments Raised {A} msg.

(** ** The resolver (yt-dlp) *)

(** What [extract_info] returns: scalar fields, and the two list-valued
    keys the handlers look at, each of which may be absent. *)
Record Info : Type := {
  fields : pydict;
  formats : option (list pydict);
  entries : option (list pydict)
}.

(** The options the handlers vary between calls. *)
Record Opts : Type := {
  extract_flat : bool;
  playlistend : option pyval
}.

Definition YDL_OPTS : Opts := {| extract_flat := false; playlistend := None |}.

(** [yt_dlp.YoutubeDL(opts).extract_info(url, download=False)]. *)
Definition Resolver : Type := Opts → string → outcome Info.

Definition watch_url (video_id : string) : string :=
  "https://www.youtube.com/watch?v=" +:+ video_id.

Definition channel_url (channel_id : string) : string :=
  "https://www.youtube.com/channel/" +:+ channel_id +:+ "/videos".

Definition default_thumbnail (video_id : string) : string :=
  "https://i.ytimg.com/vi/" +:+ video_id +:+ "/hqdefault.jpg".

(** ** Format selection *)

(** [f.get('acodec') != 'none' and f.get('vcodec') != 'none'] *)
Definition has_audio_and_video (f : pydict) : bool :=
  bool_decide (dict_get f "acodec" ≠ PStr "none")
  && bool_decide (dict_get f "vcodec" ≠ PStr "none").

(** [next((f for f in formats if ...), None)] *)
Definition format_with_audio (fs : list pydict) : option pydict :=
  List.find has_audio_and_video fs.

(** The value of [video_url] when [extract_video] reaches its
    [if not video_url] test. *)
Definition select_video_url (info : Info) : pyval :=
  let video_url := dict_get (fields info) "url" in
  if truthy video_url then video_url
  else
    match formats info with
    | None => video_url
    | Some fs =>
        match format_with_audio fs with
        | Some f =>
            if dict_truthy f then dict_get f "url"
            else match last fs with
                 | Some l => dict_get l "url"
                 | None => video_url
                 end
        | None =>
            match last fs with
            | Some l => dict_get l "url"
            | None => video_url
            end
        end
    end.

(** ** Responses and the resolution cache *)

Record VideoData : Type := {
  vd_video_id : pyval;
  vd_url : pyval;
  vd_title : pyval;
  vd_duration : pyval;
  vd_thumbnail : pyval;
  vd_description : pyval;
  vd_uploader : pyval;
  vd_view_count : pyval;
  vd_extracted_at : Z
}.

(** One element of the ['videos'] list of a channel listing. *)
Record ChannelVideo : Type := {
  cv_video_id : pyval;
  cv_title : pyval;
  cv_thumbnail : pyval;
  cv_url : string;
  cv_duration : pyval;
  cv_uploader : pyval
}.

Record ChannelData : Type := {
  cd_videos : list ChannelVideo;
  cd_count : nat;
  cd_fetched_at : Z
}.

(** [video_cache] holds the response dictionaries of both handlers. *)
Inductive Payload : Type :=
| VideoPayload (d : VideoData)
| ChannelPayload (d : ChannelData).

Inductive Response : Type :=
| Json200 (p : Payload)                  (* jsonify(data) *)
| ErrorJson (status : Z) (msg : string)  (* {'error': msg}, status *)
| FailureJson (status : Z) (msg : string) (* {'success': False, 'error': msg, ...}, status *)
| Uncaught (exception : string)          (* the handler itself raises *).

(** The response of [extract_video] when the selector found nothing to
    play. *)
Definition NoPlayableStream : Response :=
  ErrorJson 500 "Could not extract video URL".

(** Times are [datetime] values counted in microseconds. *)
Definition cache_timeout : Z := 3600 * 1000000.

Abbreviation Cache := (gmap string (Payload * Z)).

(** The lookup both handlers start with:
<<
    if cache_key in video_cache:
        cached_data, cache_time = video_cache[cache_key]
        if datetime.now() - cache_time < cache_timeout:
            return jsonify(cached_data)
>> *)
Definition cache_hit (video_cache : Cache) (cache_key : string) (now : Z)
  : option Payload :=
  match video_cache !! cache_key with
  | Some (cached_data, cache_time) =>
      if decide (now - cache_time < cache_timeout) then Some cached_data else None
  | None => None
  end.

(** What a handler leaves behind: its response, the cache, and the URLs it
    handed to the resolver, in call order. *)
Record Reply : Type := {
  response : Response;
  cache_after : Cache;
  resolver_calls : list string
}.

(** The three readings of [datetime.now()] in [extract_video]. *)
Record Clock : Type := {
  at_check : Z;
  at_response : Z;
  at_store : Z
}.

Definition video_cache_key (video_id : string) : string := "video_" +:+ video_id.

Definition video_response (video_id : pyval) (video_url : pyval) (info : Info)
    (now : Z) : VideoData :=
  {| vd_video_id := video_id;
     vd_url := video_url;
     vd_title := dict_get_or (fields info) "title" (PStr "Unknown");
     vd_duration := dict_get_or (fields info) "duration" (PInt 0);
     vd_thumbnail := dict_get_or (fields info) "thumbnail" (PStr "");
     vd_description := dict_get_or (fields info) "description" (PStr "");
     vd_uploader := dict_get_or (fields info) "uploader" (PStr "");
     vd_view_count := dict_get_or (fields info) "view_count" (PInt 0);
     vd_extracted_at := now |}.

(** [extract_video].  [video_id] is what
    [request.args.get('video_id') or request.json.get('video_id')]
    evaluates to; it is [Raised] when the query carries no video id and
    [request.json] raises or is not a dictionary (a GET without a JSON
    body): the name [video_id] is then unbound, the f-string of the
    [except] clause raises UnboundLocalError, and the handler gives no
    answer of its own. *)
Definition extract_video (ydl : Resolver) (clk : Clock) (video_id : outcome pyval)
    (video_cache : Cache) : Reply :=
  match video_id with
  | Raised _ =>
      {| response := Uncaught "UnboundLocalError";
         cache_after := video_cache; resolver_calls := [] |}
  | Returned video_id =>
      if negb (truthy video_id) then
        {| response := ErrorJson 400 "video_id is required";
           cache_after := video_cache; resolver_calls := [] |}
      else
        let cache_key := video_cache_key (py_str video_id) in
        match cache_hit video_cache cache_key (at_check clk) with
        | Some cached_data =>
            {| response := Json200 cached_data;
               cache_after := video_cache; resolver_calls := [] |}
        | None =>
            let url := watch_url (py_str video_id) in
            match ydl YDL_OPTS url with
            | Raised msg =>
                {| response := FailureJson 500 msg;
                   cache_after := video_cache; resolver_calls := [url] |}
            | Returned info =>
                let video_url := select_video_url info in
                if truthy video_url then
                  let response_data :=
                    VideoPayload
                      (video_response video_id video_url info (at_response clk)) in
                  {| response := Json200 response_data;
                     cache_after :=
                       <[cache_key := (response_data, at_store clk)]> video_cache;
                     resolver_calls := [url] |}
                else
                  {| response := NoPlayableStream;
                     cache_after := video_cache; resolver_calls := [url] |}
            end
        end
  end.

(** ** Channel listing *)

Definition channel_video (entry : pydict) (video_id : pyval) : ChannelVideo :=
  {| cv_video_id := video_id;
     cv_title := dict_get_or entry "title" (PStr "Blippi Video");
     cv_thumbnail :=
       dict_get_or entry "thumbnail" (PStr (default_thumbnail (py_str video_id)));
     cv_url := watch_url (py_str video_id);
     cv_duration := dict_get_or entry "duration" (PInt 0);
     cv_uploader := dict_get_or entry "uploader" (PStr "Blippi") |}.

(** The body of the [try] block for one channel: what it appends to
    [all_videos]. *)
Definition channel_videos (max_results : Z) (info : Info) : list ChannelVideo :=
  match entries info with
  | None => []
  | Some es =>
      omap (λ entry,
              let video_id := dict_get entry "id" in
              if truthy video_id then Some (channel_video entry video_id) else None)
           (py_take max_results es)
  end.

Definition flat_opts (max_results : Z) : Opts :=
  {| extract_flat := true; playlistend := Some (PInt max_results) |}.

(** The [for channel_id in channels_to_fetch] loop, on the pair of
    [all_videos] and the resolver calls made so far.  A channel whose
    lookup raises is logged and skipped ([continue]). *)
Fixpoint fetch_channels (ydl : Resolver) (max_results : Z)
    (channels_to_fetch : list string)
    (all_videos : list ChannelVideo) (calls : list string)
  : list ChannelVideo * list string :=
  match channels_to_fetch with
  | [] => (all_videos, calls)
  | channel_id :: rest =>
      let url := channel_url channel_id in
      match ydl (flat_opts max_results) url with
      | Returned info =>
          fetch_channels ydl max_results rest
            (all_videos ++ channel_videos max_results info) (calls ++ [url])
      | Raised _ =>
          fetch_channels ydl max_results rest all_videos (calls ++ [url])
      end
  end.

(** Whether the lookup of one channel returns, and what it contributes to
    [all_videos]: nothing when it raises. *)
Definition lookup_succeeds (ydl : Resolver) (max_results : Z) (channel_id : string)
  : bool :=
  match ydl (flat_opts max_results) (channel_url channel_id) with
  | Returned _ => true
  | Raised _ => false
  end.

Definition fetched_videos (ydl : Resolver) (max_results : Z) (channel_id : string)
  : list ChannelVideo :=
  match ydl (flat_opts max_results) (channel_url channel_id) with
  | Returned info => channel_videos max_results info
  | Raised _ => []
  end.

Section GetBlippiVideos.
(** [int(s)] on a query-string value: the number, or the message of the
    ValueError. *)
Variable py_int : string → outcome Z.

Definition channel_cache_key (max_results : Z) (channel_index : option string)
  : string :=
  "blippi_channel_" +:+ pretty max_results +:+ "_" +:+ default "None" channel_index.

(** [db_channels if channel_index is None else
    [db_channels[int(channel_index)]]]; both [int] and the indexing may
    raise. *)
Definition channels_to_fetch (channel_index : option string)
    (db_channels : list string) : outcome (list string) :=
  match channel_index with
  | None => Returned db_channels
  | Some s =>
      match py_int s with
      | Raised msg => Raised msg
      | Returned i =>
          match py_index db_channels i with
          | Some c => Returned [c]
          | None => Raised "list index out of range"
          end
      end
  end.

(** [get_blippi_videos], for the query parameters [max_results] and
    [channel] ([None] when absent).  [db_channels] is the channel list the
    handler iterates over: the [channel_id] column of [channels] in
    [server.py], the constant [BLIPPI_CHANNELS] in [backend/server.py]. *)
Definition get_blippi_videos (ydl : Resolver) (clk : Clock)
    (max_results_arg channel_index : option string)
    (db_channels : list string) (video_cache : Cache) : Reply :=
  let failed msg :=
    {| response := FailureJson 500 msg;
       cache_after := video_cache; resolver_calls := [] |} in
  match from_option py_int (Returned 50) max_results_arg with
  | Raised msg => failed msg
  | Returned max_results =>
      let cache_key := channel_cache_key max_results channel_index in
      match cache_hit video_cache cache_key (at_check clk) with
      | Some cached_data =>
          {| response := Json200 cached_data;
             cache_after := video_cache; resolver_calls := [] |}
      | None =>
          match channels_to_fetch channel_index db_channels with
          | Raised msg => failed msg
          | Returned cs =>
              let '(all_videos, calls) := fetch_channels ydl max_results cs [] [] in
              let videos := py_take max_results all_videos in
              let response_data :=
                ChannelPayload {| cd_videos := videos;
                                  cd_count := length videos;
                                  cd_fetched_at := at_response clk |} in
              {| response := Json200 response_data;
                 cache_after := <[cache_key := (response_data, at_store clk)]> video_cache;
                 resolver_calls := calls |}
          end
      end
  end.
End GetBlippiVideos.

(** ** SQLite conventions shared by both catalogs *)

(** A value bound to a column of TEXT affinity: [None] is stored as NULL,
    numbers as their text, text as it is.  The content of a TEXT column is
    an [option string], NULL being [None]. *)
Definition sql_text (v : pyval) : option string :=
  match v with
  | PNone => None
  | PStr s => Some s
  | PInt n => Some (pretty n)
  end.

(** The rowid an [INTEGER PRIMARY KEY AUTOINCREMENT] column gives the next
    row: one more than the largest rowid the table ever held, which
    [sqlite_sequence] remembers as [seq]. *)
Definition next_rowid (seq : Z) (ids : list Z) : Z := foldr Z.max seq ids + 1.

(** The integers the sqlite3 binding accepts as a parameter are those of
    64 bits; any other raises OverflowError, before the statement runs. *)
Definition INT64_MAX : Z := 2 ^ 63 - 1.
Definition INT64_MIN : Z := - 2 ^ 63.

Definition fits_int64 (n : Z) : bool := bool_decide (INT64_MIN ≤ n ≤ INT64_MAX).

(** Whether a value can be bound to a parameter of a statement. *)
Definition bindable (v : pyval) : bool :=
  match v with
  | PInt n => fits_int64 n
  | _ => true
  end.

Definition too_large : string := "Python int too large to convert to SQLite INTEGER".

(** An AUTOINCREMENT table whose counter has reached the largest rowid
    takes no further row: the INSERT fails with SQLITE_FULL, before any
    constraint is looked at. *)
Definition rowid_full (seq : Z) (ids : list Z) : bool :=
  bool_decide (INT64_MAX < next_rowid seq ids).

Definition disk_full : string := "database or disk is full".

(** The order in which a scan of the automatic index of a UNIQUE
    constraint ending in a TEXT column yields its entries: by the text,
    compared byte by byte, and among entries of equal text by rowid. *)
Definition index_le (a b : string * Z) : Prop :=
  (a.1 ≠ b.1 ∧ String.le a.1 b.1) ∨ (a.1 = b.1 ∧ a.2 ≤ b.2).

#[global] Instance index_le_dec a b : Decision (index_le a b).
Proof. unfold index_le. apply _. Defined.

#[global] Instance index_le_trans : Transitive index_le.
Proof.
  intros [s1 n1] [s2 n2] [s3 n3]. unfold index_le. simpl.
  intros [[Hne12 H12]|[-> H12]] [[Hne23 H23]|[-> H23]].
  - left. split; [|by etrans]. intros ->. apply Hne12.
    by apply (anti_symm String.le).
  - left. by split.
  - left. by split.
  - right. split; [done|lia].
Qed.

#[global] Instance index_le_total : Total index_le.
Proof.
  intros [s1 n1] [s2 n2]. unfold index_le. simpl.
  destruct (decide (s1 = s2)) as [->|Hne].
  - destruct (decide (n1 ≤ n2)); [left|right]; right; split; [done|lia|done|lia].
  - destruct (total String.le s1 s2); [left|right]; left; split; done || congruence.
Qed.

(** [PRAGMA foreign_keys] on a connection fresh from [sqlite3.connect]:
    SQLite leaves foreign-key enforcement off until the pragma is issued,
    and no handler of either server issues it. *)
Definition connection_foreign_keys : bool := false.

(** * The catalog of [server.py] *)

Module Server.

Record Channel : Type := {
  ch_id : Z;
  ch_channel_id : string;
  ch_channel_name : string;
  ch_description : option string;
  ch_thumbnail : option string;
  ch_created_at : Z
}.

Record VideoGroup : Type := {
  vg_id : Z;
  vg_group_name : string;
  vg_description : option string;
  vg_thumbnail : option string;
  vg_created_at : Z
}.

Record GroupVideo : Type := {
  gv_id : Z;
  gv_group_id : Z;
  gv_video_id : string;
  gv_video_title : string;
  gv_video_thumbnail : option string;
  gv_position : Z;
  gv_added_at : Z
}.

(** The database file: three tables, rows in rowid order, and the
    [sqlite_sequence] counter of each. *)
Record Db : Type := {
  channels : list Channel;
  video_groups : list VideoGroup;
  group_videos : list GroupVideo;
  seq_channels : Z;
  seq_video_groups : Z;
  seq_group_videos : Z
}.

(** The rows a 201 response echoes. *)
Inductive Created : Type :=
| NewChannel (id : Z) (channel_id channel_name description thumbnail : pyval)
| NewGroup (id : Z) (group_name description : pyval)
| NewVideo (id : Z) (video_id video_title video_thumbnail : pyval) (position : Z).

Inductive HttpResponse : Type :=
| Succeeded (status : Z) (message : string) (created : option Created)
| Failed (status : Z) (error : string).

Definition default_channel (id : Z) (channel_id channel_name description : string)
    (now : Z) : Channel :=
  {| ch_id := id; ch_channel_id := channel_id;
     ch_channel_name := channel_name; ch_description := Some description;
     ch_thumbnail := Some ""; ch_created_at := now |}.

(** [init_db] on a database file that does not exist yet. *)
Definition init_db (now : Z) : Db :=
  {| channels :=
       [ default_channel 1 "UC5PYHgAzJ1jQzoyDQjOA1RA"
           "Blippi - Educational Videos for Kids" "Main Blippi channel" now;
         default_channel 2 "UCqwjm_R3H1F6i8KBYmPh82A"
           "Blippi Toys" "Blippi Toys channel" now ];
     video_groups := [];
     group_videos := [];
     seq_channels := 2;
     seq_video_groups := 0;
     seq_group_videos := 0 |}.

(** [if not data] on the parsed JSON body. *)
Definition no_data (data : option pydict) : bool :=
  match data with
  | None => true
  | Some d => negb (dict_truthy d)
  end.

Definition body (data : option pydict) : pydict := default ∅ data.

(** *** Channels *)

(** [add_channel].  The INSERT binds four values of the body.  A value the
    binding refuses and a table out of rowids raise exceptions other than
    IntegrityError, which the outer [except] answers with a 500 and their
    message; the transaction is never committed. *)
Definition add_channel (now : Z) (data : option pydict) (db : Db)
  : HttpResponse * Db :=
  if no_data data then (Failed 400 "No data provided", db)
  else
    let channel_id := dict_get (body data) "channel_id" in
    let channel_name := dict_get (body data) "channel_name" in
    if negb (truthy channel_id) || negb (truthy channel_name) then
      (Failed 400 "channel_id and channel_name are required", db)
    else
      let description := dict_get_or (body data) "description" (PStr "") in
      let thumbnail := dict_get_or (body data) "thumbnail" (PStr "") in
      if negb (bindable channel_id && bindable channel_name
               && bindable description && bindable thumbnail) then
        (Failed 500 too_large, db)
      else if rowid_full (seq_channels db) (ch_id <$> channels db) then
        (Failed 500 disk_full, db)
      else if bool_decide (py_str channel_id ∈ ch_channel_id <$> channels db) then
        (Failed 409 "Channel already exists", db)
      else
        let new_id := next_rowid (seq_channels db) (ch_id <$> channels db) in
        let row :=
          {| ch_id := new_id; ch_channel_id := py_str channel_id;
             ch_channel_name := py_str channel_name;
             ch_description := sql_text description;
             ch_thumbnail := sql_text thumbnail; ch_created_at := now |} in
        (Succeeded 201 "Channel added successfully"
           (Some (NewChannel new_id channel_id channel_name description thumbnail)),
         {| channels := channels db ++ [row];
            video_groups := video_groups db;
            group_videos := group_videos db;
            seq_channels := new_id;
            seq_video_groups := seq_video_groups db;
            seq_group_videos := seq_group_videos db |}).

Definition delete_channel (channel_id : string) (db : Db) : HttpResponse * Db :=
  let kept := filter (λ c, ch_channel_id c ≠ channel_id) (channels db) in
  let rows_affected := (length (channels db) - length kept)%nat in
  let db' :=
    {| channels := kept;
       video_groups := video_groups db;
       group_videos := group_videos db;
       seq_channels := seq_channels db;
       seq_video_groups := seq_video_groups db;
       seq_group_videos := seq_group_videos db |} in
  if decide (0 < rows_affected)%nat then
    (Succeeded 200 "Channel deleted successfully" None, db')
  else (Failed 404 "Channel not found", db').

(** *** Groups *)

(** [create_group]; its INSERT fails as the one of [add_channel] does. *)
Definition create_group (now : Z) (data : option pydict) (db : Db)
  : HttpResponse * Db :=
  if no_data data then (Failed 400 "No data provided", db)
  else
    let group_name := dict_get (body data) "group_name" in
    if negb (truthy group_name) then (Failed 400 "group_name is required", db)
    else
      let description := dict_get_or (body data) "description" (PStr "") in
      if negb (bindable group_name && bindable description) then
        (Failed 500 too_large, db)
      else if rowid_full (seq_video_groups db) (vg_id <$> video_groups db) then
        (Failed 500 disk_full, db)
      else
      let new_id := next_rowid (seq_video_groups db) (vg_id <$> video_groups db) in
      let row :=
        {| vg_id := new_id; vg_group_name := py_str group_name;
           vg_description := sql_text description;
           vg_thumbnail := Some ""; vg_created_at := now |} in
      (Succeeded 201 "Group created successfully"
         (Some (NewGroup new_id group_name description)),
       {| channels := channels db;
          video_groups := video_groups db ++ [row];
          group_videos := group_videos db;
          seq_channels := seq_channels db;
          seq_video_groups := new_id;
          seq_group_videos := seq_group_videos db |}).

(** [SELECT ... FROM group_videos WHERE group_id = ?] *)
Definition members (group_id : Z) (rows : list GroupVideo) : list GroupVideo :=
  filter (λ r, gv_group_id r = group_id) rows.

(** [SELECT MAX(position)]: NULL over no rows. *)
Fixpoint max_position (rows : list GroupVideo) : option Z :=
  match rows with
  | [] => None
  | r :: rest =>
      match max_position rest with
      | None => Some (gv_position r)
      | Some m => Some (Z.max (gv_position r) m)
      end
  end.

(** The order in which [WHERE group_id = ? ORDER BY position ASC] yields
    the rows of a group: SQLite finds them through the index of
    [UNIQUE(group_id, video_id)] and sorts them by position, so rows of
    equal position come in the order of that index. *)
Definition by_position (a b : GroupVideo) : Prop :=
  gv_position a < gv_position b
  ∨ (gv_position a = gv_position b
     ∧ index_le (gv_video_id a, gv_id a) (gv_video_id b, gv_id b)).

#[global] Instance by_position_dec a b : Decision (by_position a b).
Proof. unfold by_position. apply _. Defined.

#[global] Instance by_position_trans : Transitive by_position.
Proof.
  unfold by_position. intros a b c [Hab|[Hab Iab]] [Hbc|[Hbc Ibc]];
    [left; lia..|].
  right. split; [lia|]. by etrans.
Qed.

#[global] Instance by_position_total : Total by_position.
Proof.
  unfold by_position. intros a b.
  destruct (Z.lt_trichotomy (gv_position a) (gv_position b)) as [?|[Heq|?]];
    [by left; left| |by right; left].
  destruct (total index_le (gv_video_id a, gv_id a) (gv_video_id b, gv_id b));
    [left|right]; right; split; done || lia.
Qed.

(** [ORDER BY position ASC LIMIT 1]: the first row in that order. *)
Fixpoint first_by_position (rows : list GroupVideo) : option GroupVideo :=
  match rows with
  | [] => None
  | r :: rest =>
      match first_by_position rest with
      | None => Some r
      | Some m => if decide (by_position r m) then Some r else Some m
      end
  end.

(** [UPDATE video_groups SET thumbnail = ? WHERE id = ?] *)
Definition set_thumbnail (group_id : Z) (thumbnail : option string)
    (groups : list VideoGroup) : list VideoGroup :=
  (λ g, if decide (vg_id g = group_id)
        then {| vg_id := vg_id g; vg_group_name := vg_group_name g;
                vg_description := vg_description g;
                vg_thumbnail := thumbnail;
                vg_created_at := vg_created_at g |}
        else g) <$> groups.

Definition group_exists (group_id : Z) (db : Db) : bool :=
  bool_decide (group_id ∈ vg_id <$> video_groups db).

(** The thumbnail column of a group, when the group exists. *)
Definition group_thumbnail (group_id : Z) (db : Db) : option (option string) :=
  vg_thumbnail <$> List.find (λ g, bool_decide (vg_id g = group_id)) (video_groups db).

(** [(max_pos + 1) if max_pos is not None else 1] *)
Definition next_position (group_id : Z) (db : Db) : Z :=
  match max_position (members group_id (group_videos db)) with
  | Some max_pos => max_pos + 1
  | None => 1
  end.

(** [add_video_to_group]; [group_id] is the integer of the route, which
    Flask does not bound.  It is bound first, to the SELECT that looks the
    group up; the INSERT binds it again with the three values of the body
    and the new position. *)
Definition add_video_to_group (now : Z) (group_id : Z) (data : option pydict)
    (db : Db) : HttpResponse * Db :=
  if no_data data then (Failed 400 "No data provided", db)
  else
    let video_id := dict_get (body data) "video_id" in
    let video_title := dict_get (body data) "video_title" in
    if negb (truthy video_id) || negb (truthy video_title) then
      (Failed 400 "video_id and video_title are required", db)
    else
      let video_thumbnail :=
        dict_get_or (body data) "video_thumbnail"
                    (PStr (default_thumbnail (py_str video_id))) in
      if negb (fits_int64 group_id) then (Failed 500 too_large, db)
      else if negb (group_exists group_id db) then (Failed 404 "Group not found", db)
      else
        let next_position := next_position group_id db in
        if negb (bindable video_id && bindable video_title
                 && bindable video_thumbnail && fits_int64 next_position) then
          (Failed 500 too_large, db)
        else if rowid_full (seq_group_videos db) (gv_id <$> group_videos db) then
          (Failed 500 disk_full, db)
        else if bool_decide (py_str video_id
                   ∈ gv_video_id <$> members group_id (group_videos db)) then
          (Failed 409 "Video already exists in this group", db)
        else
          let new_id := next_rowid (seq_group_videos db) (gv_id <$> group_videos db) in
          let row :=
            {| gv_id := new_id; gv_group_id := group_id;
               gv_video_id := py_str video_id;
               gv_video_title := py_str video_title;
               gv_video_thumbnail := sql_text video_thumbnail;
               gv_position := next_position; gv_added_at := now |} in
          (Succeeded 201 "Video added to group successfully"
             (Some (NewVideo new_id video_id video_title video_thumbnail next_position)),
           {| channels := channels db;
              video_groups :=
                if decide (next_position = 1)
                then set_thumbnail group_id (sql_text video_thumbnail) (video_groups db)
                else video_groups db;
              group_videos := group_videos db ++ [row];
              seq_channels := seq_channels db;
              seq_video_groups := seq_video_groups db;
              seq_group_videos := new_id |}).

(** [DELETE FROM video_groups WHERE id = ?] on a connection whose
    [foreign_keys] pragma is as given: the [ON DELETE CASCADE] of
    [group_videos.group_id] acts only when it is on.  Returns [rowcount]. *)
Definition delete_from_video_groups (foreign_keys : bool) (group_id : Z) (db : Db)
  : nat * Db :=
  let kept := filter (λ g, vg_id g ≠ group_id) (video_groups db) in
  let rows_affected := (length (video_groups db) - length kept)%nat in
  (rows_affected,
   {| channels := channels db;
      video_groups := kept;
      group_videos :=
        if foreign_keys && bool_decide (0 < rows_affected)%nat
        then filter (λ r, gv_group_id r ≠ group_id) (group_videos db)
        else group_videos db;
      seq_channels := seq_channels db;
      seq_video_groups := seq_video_groups db;
      seq_group_videos := seq_group_videos db |}).

(** [delete_group] on such a connection; a [group_id] the binding refuses
    ends in the [except] clause before anything is deleted. *)
Definition delete_group_on (foreign_keys : bool) (group_id : Z) (db : Db)
  : HttpResponse * Db :=
  if negb (fits_int64 group_id) then (Failed 500 too_large, db)
  else
    let '(rows_affected, db') := delete_from_video_groups foreign_keys group_id db in
    if decide (0 < rows_affected)%nat then
      (Succeeded 200 "Group deleted successfully" None, db')
    else (Failed 404 "Group not found", db').

(** [delete_group], on the connection it opens. *)
Definition delete_group (group_id : Z) (db : Db) : HttpResponse * Db :=
  delete_group_on connection_foreign_keys group_id db.

(** [delete_video_from_group]; the route's [video_id] is the rowid of the
    membership row.  Both ids are bound to the DELETE, which raises on one
    beyond 64 bits.  Otherwise the thumbnail is recomputed and written
    whether or not a row was deleted, and only then is the answer chosen. *)
Definition delete_video_from_group (group_id video_id : Z) (db : Db)
  : HttpResponse * Db :=
  if negb (fits_int64 group_id && fits_int64 video_id) then
    (Failed 500 too_large, db)
  else
    let kept :=
      filter (λ r, ¬ (gv_group_id r = group_id ∧ gv_id r = video_id))
             (group_videos db) in
    let rows_affected := (length (group_videos db) - length kept)%nat in
    let result := first_by_position (members group_id kept) in
    let new_thumbnail :=
      match result with
      | Some r => gv_video_thumbnail r
      | None => Some ""
      end in
    let db' :=
      {| channels := channels db;
         video_groups := set_thumbnail group_id new_thumbnail (video_groups db);
         group_videos := kept;
         seq_channels := seq_channels db;
         seq_video_groups := seq_video_groups db;
         seq_group_videos := seq_group_videos db |} in
    if decide (0 < rows_affected)%nat then
      (Succeeded 200 "Video deleted successfully" None, db')
    else (Failed 404 "Video not found", db').

(** *** Request sequences *)

Inductive Request : Type :=
| AddChannel (now : Z) (data : option pydict)
| DeleteChannel (channel_id : string)
| CreateGroup (now : Z) (data : option pydict)
| AddVideoToGroup (now : Z) (group_id : Z) (data : option pydict)
| DeleteGroup (group_id : Z)
| DeleteVideoFromGroup (group_id video_id : Z).

(** One catalog-mutation request, on a connection whose foreign-key
    enforcement is [foreign_keys]. *)
Definition handle (foreign_keys : bool) (req : Request) (db : Db)
  : HttpResponse * Db :=
  match req with
  | AddChannel now data => add_channel now data db
  | DeleteChannel channel_id => delete_channel channel_id db
  | CreateGroup now data => create_group now data db
  | AddVideoToGroup now group_id data => add_video_to_group now group_id data db
  | DeleteGroup group_id => delete_group_on foreign_keys group_id db
  | DeleteVideoFromGroup group_id video_id => delete_video_from_group group_id video_id db
  end.

(** The database after a sequence of requests, served one at a time. *)
Definition serve (foreign_keys : bool) (reqs : list Request) (db : Db) : Db :=
  foldl (λ db req, (handle foreign_keys req db).2) db reqs.

(** *** Invariants of the membership table *)

(** Every stored position is at least 1. *)
Definition positions_valid (db : Db) : Prop :=
  Forall (λ r, 1 ≤ gv_position r) (group_videos db).

(** [UNIQUE(group_id, video_id)]. *)
Definition membership_unique (db : Db) : Prop :=
  NoDup ((λ r, (gv_group_id r, gv_video_id r)) <$> group_videos db).

(** No two rows of a group share a position. *)
Definition positions_distinct (db : Db) : Prop :=
  NoDup ((λ r, (gv_group_id r, gv_position r)) <$> group_videos db).

Definition catalog_invariant (db : Db) : Prop :=
  positions_valid db ∧ membership_unique db ∧ positions_distinct db.

End Server.

(** * The catalog of [backend/server.py] *)

Module Backend.

(** [c.isspace()] for an ASCII character. *)
Definition is_space (c : ascii) : bool :=
  let n := nat_of_ascii c in
  ((9 <=? n)%nat && (n <=? 13)%nat) || ((28 <=? n)%nat && (n <=? 32)%nat).

Fixpoint lstrip (s : string) : string :=
  match s with
  | EmptyString => EmptyString
  | String c rest => if is_space c then lstrip rest else s
  end.

Fixpoint rstrip (s : string) : string :=
  match s with
  | EmptyString => EmptyString
  | String c rest =>
      match rstrip rest with
      | EmptyString => if is_space c then EmptyString else String c EmptyString
      | kept => String c kept
      end
  end.

(** [s.strip()] on ASCII text. *)
Definition py_strip (s : string) : string := rstrip (lstrip s).

(** [s.startswith(prefix)] *)
Fixpoint startswith (pre s : string) : bool :=
  match pre, s with
  | EmptyString, _ => true
  | String a pre', String b s' => bool_decide (a = b) && startswith pre' s'
  | String _ _, EmptyString => false
  end.

(** [l[:n]] for a bound taken from the JSON body: [None] keeps the whole
    list, a string raises TypeError. *)
Definition py_slice {A} (n : pyval) (l : list A) : outcome (list A) :=
  match n with
  | PNone => Returned l
  | PInt k => Returned (py_take k l)
  | PStr _ => Raised "slice indices must be integers or None or have an __index__ method"
  end.

Record Group : Type := {
  g_id : string;
  g_name : string;
  g_description : option string;
  g_created_at : Z
}.

Record Video : Type := {
  v_id : Z;
  v_group_id : string;
  v_video_id : string;
  v_title : string;
  v_thumbnail : option string;
  v_duration : pyval;
  v_uploader : option string
}.

(** The [groups] and [videos] tables of [jjutv.db] and the
    [sqlite_sequence] counter of [videos]. *)
Record Db : Type := {
  groups : list Group;
  videos : list Video;
  seq_videos : Z
}.

(** The dictionaries [fetch_video_info] and the bulk imports build. *)
Record VideoInfo : Type := {
  vi_video_id : pyval;
  vi_title : pyval;
  vi_thumbnail : pyval;
  vi_duration : pyval;
  vi_uploader : pyval
}.

(** The record a failed lookup degrades to. *)
Definition placeholder (video_id : string) : VideoInfo :=
  {| vi_video_id := PStr video_id;
     vi_title := PStr "Unknown Title";
     vi_thumbnail := PStr (default_thumbnail video_id);
     vi_duration := PInt 0;
     vi_uploader := PStr "Unknown" |}.

Definition single_opts : Opts := {| extract_flat := true; playlistend := None |}.

Definition fetch_video_info (ydl : Resolver) (video_id : string) : VideoInfo :=
  match ydl single_opts (watch_url video_id) with
  | Returned info =>
      {| vi_video_id := PStr video_id;
         vi_title := dict_get_or (fields info) "title" (PStr "Unknown Title");
         vi_thumbnail :=
           dict_get_or (fields info) "thumbnail" (PStr (default_thumbnail video_id));
         vi_duration := dict_get_or (fields info) "duration" (PInt 0);
         vi_uploader := dict_get_or (fields info) "uploader" (PStr "Unknown") |}
  | Raised _ => placeholder video_id
  end.

(** The dictionary a bulk import builds for one entry. *)
Definition entry_video (entry : pydict) (vid_id : pyval) : VideoInfo :=
  {| vi_video_id := vid_id;
     vi_title := dict_get_or entry "title" (PStr "Unknown Title");
     vi_thumbnail :=
       dict_get_or entry "thumbnail" (PStr (default_thumbnail (py_str vid_id)));
     vi_duration := dict_get_or entry "duration" (PInt 0);
     vi_uploader := dict_get_or entry "uploader" (PStr "Unknown") |}.

(** The JSON body of [create_group] and [add_videos_to_group]; [max_results]
    is 50 when the key is absent. *)
Record Body : Type := {
  name : pyval;
  description : pyval;
  video_ids : list string;
  playlist_id : pyval;
  channel_id : pyval;
  max_results : pyval
}.

Definition playlist_url (playlist_id : pyval) : string :=
  "https://www.youtube.com/playlist?list=" +:+ py_str playlist_id.

(** The URL of a channel import: a canonical id or a handle;
    [startswith] raises on a value that is not a string. *)
Definition import_channel_url (channel_id : pyval) : outcome string :=
  match channel_id with
  | PStr s =>
      if startswith "UC" s then Returned (channel_url s)
      else Returned ("https://www.youtube.com/@" +:+ s +:+ "/videos")
  | PInt _ => Raised "'int' object has no attribute 'startswith'"
  | PNone => Raised "'NoneType' object has no attribute 'startswith'"
  end.

(** The entries a bulk import looks at: [info['entries'][:max_results]],
    nothing when the key is absent. *)
Definition bulk_entries (ydl : Resolver) (url : string) (max_results : pyval)
  : outcome (list pydict) :=
  match ydl {| extract_flat := true; playlistend := Some max_results |} url with
  | Raised msg => Raised msg
  | Returned info =>
      match entries info with
      | None => Returned []
      | Some es => py_slice max_results es
      end
  end.

(** The state of the de-duplicating loops of [add_videos_to_group];
    [existing_ids] is a set, of which only membership is asked. *)
Record Batch : Type := {
  existing_ids : list pyval;
  new_videos : list VideoInfo;
  added_count : nat
}.

(** One iteration over a bulk-import entry. *)
Definition add_entry (b : Batch) (entry : pydict) : Batch :=
  let vid_id := dict_get entry "id" in
  if truthy vid_id && negb (bool_decide (vid_id ∈ existing_ids b)) then
    {| existing_ids := existing_ids b ++ [vid_id];
       new_videos := new_videos b ++ [entry_video entry vid_id];
       added_count := S (added_count b) |}
  else b.

(** One iteration over a manually specified id. *)
Definition add_manual (ydl : Resolver) (b : Batch) (video_id : string) : Batch :=
  let video_id := py_strip video_id in
  if negb (bool_decide (video_id = ""))
     && negb (bool_decide (PStr video_id ∈ existing_ids b)) then
    {| existing_ids := existing_ids b ++ [PStr video_id];
       new_videos := new_videos b ++ [fetch_video_info ydl video_id];
       added_count := S (added_count b) |}
  else b.

(** The manual loop of [create_group]: every non-blank id is looked up. *)
Definition manual_videos (ydl : Resolver) (ids : list string) : list VideoInfo :=
  omap (λ video_id,
          let video_id := py_strip video_id in
          if bool_decide (video_id = "") then None
          else Some (fetch_video_info ydl video_id))
       ids.

(** Whether the sqlite3 binding accepts the five values of a video as
    parameters. *)
Definition video_bindable (video : VideoInfo) : bool :=
  bindable (vi_video_id video) && bindable (vi_title video)
  && bindable (vi_thumbnail video) && bindable (vi_duration video)
  && bindable (vi_uploader video).

(** One [INSERT INTO videos].  The binding raises OverflowError on an
    integer beyond 64 bits; an exhausted rowid counter raises
    OperationalError; NOT NULL and UNIQUE(group_id, video_id) violations
    raise IntegrityError.  The resolver reports durations as numbers or
    [None], which the INTEGER column stores as they are. *)
Definition insert_video (group_id : string) (video : VideoInfo) (db : Db)
  : outcome Db :=
  if negb (video_bindable video) then Raised too_large
  else if rowid_full (seq_videos db) (v_id <$> videos db) then Raised disk_full
  else if bool_decide (vi_video_id video = PNone) then
    Raised "NOT NULL constraint failed: videos.video_id"
  else if bool_decide (vi_title video = PNone) then
    Raised "NOT NULL constraint failed: videos.title"
  else if bool_decide (py_str (vi_video_id video)
             ∈ v_video_id <$> filter (λ r, v_group_id r = group_id) (videos db)) then
    Raised "UNIQUE constraint failed: videos.group_id, videos.video_id"
  else
    let new_id := next_rowid (seq_videos db) (v_id <$> videos db) in
    Returned
      {| groups := groups db;
         videos := videos db ++
           [{| v_id := new_id; v_group_id := group_id;
               v_video_id := py_str (vi_video_id video);
               v_title := py_str (vi_title video);
               v_thumbnail := sql_text (vi_thumbnail video);
               v_duration := vi_duration video;
               v_uploader := sql_text (vi_uploader video) |}];
         seq_videos := new_id |}.

(** The [for video in ...: cursor.execute(INSERT ...)] loop; the first
    exception ends it. *)
Fixpoint insert_videos (group_id : string) (vs : list VideoInfo) (db : Db)
  : outcome Db :=
  match vs with
  | [] => Returned db
  | video :: rest =>
      match insert_video group_id video db with
      | Returned db' => insert_videos group_id rest db'
      | Raised msg => Raised msg
      end
  end.

(** The order of the index of [UNIQUE(group_id, video_id)] within a
    group. *)
Definition by_video_id (a b : Video) : Prop :=
  index_le (v_video_id a, v_id a) (v_video_id b, v_id b).

#[global] Instance by_video_id_dec a b : Decision (by_video_id a b).
Proof. unfold by_video_id. apply _. Defined.

#[global] Instance by_video_id_trans : Transitive by_video_id.
Proof. unfold by_video_id. intros a b c ??. by etrans. Qed.

#[global] Instance by_video_id_total : Total by_video_id.
Proof. unfold by_video_id. intros a b. apply (total index_le). Qed.

(** The rows of [SELECT ... FROM videos WHERE group_id = ?].  SQLite finds
    them through the index of [UNIQUE(group_id, video_id)], so they come
    in the byte order of their video ids, not in the order they were
    stored in. *)
Definition group_rows (group_id : string) (db : Db) : list Video :=
  merge_sort by_video_id (filter (λ r, v_group_id r = group_id) (videos db)).

(** [SELECT video_id FROM videos WHERE group_id = ?] *)
Definition member_ids (group_id : string) (db : Db) : list string :=
  v_video_id <$> group_rows group_id db.

(** What [load_groups] returns for one group: its row and its videos. *)
Definition load_group (group_id : string) (db : Db) : option (Group * list Video) :=
  (λ g, (g, group_rows (g_id g) db))
    <$> List.find (λ g, bool_decide (g_id g = group_id)) (groups db).

Inductive HttpResponse : Type :=
| GroupCreated (group_id : string) (videos : list VideoInfo) (created_at : Z)
| VideosAdded (added_count : nat) (group : option (Group * list Video))
| Done
| Failed (status : Z) (error : string).

Definition group_exists (group_id : string) (db : Db) : bool :=
  bool_decide (group_id ∈ g_id <$> groups db).

(** The video list [create_group] gathers before it touches the
    database. *)
Definition gather_videos (ydl : Resolver) (data : Body)
  : outcome (list VideoInfo) :=
  let of_entries es :=
    omap (λ entry, let vid_id := dict_get entry "id" in
                   if truthy vid_id then Some (entry_video entry vid_id) else None) es in
  if truthy (playlist_id data) then
    match bulk_entries ydl (playlist_url (playlist_id data)) (max_results data) with
    | Returned es => Returned (of_entries es)
    | Raised msg => Raised ("Failed to fetch playlist: " +:+ msg)
    end
  else if truthy (channel_id data) then
    match import_channel_url (channel_id data) with
    | Raised msg => Raised ("Failed to fetch channel: " +:+ msg)
    | Returned url =>
        match bulk_entries ydl url (max_results data) with
        | Returned es => Returned (of_entries es)
        | Raised msg => Raised ("Failed to fetch channel: " +:+ msg)
        end
    end
  else Returned (manual_videos ydl (video_ids data)).

(** [create_group]; [uuid] is the value [uuid.uuid4()] draws. *)
Definition create_group (ydl : Resolver) (uuid : string) (now : Z) (data : Body)
    (db : Db) : HttpResponse * Db :=
  if negb (truthy (name data)) then (Failed 400 "Group name is required", db)
  else
    match gather_videos ydl data with
    | Raised msg => (Failed 500 msg, db)
    | Returned vs =>
        if negb (bindable (name data) && bindable (description data)) then
          (Failed 500 ("Failed to save group: " +:+ too_large), db)
        else if group_exists uuid db then
          (Failed 500 "Failed to save group: UNIQUE constraint failed: groups.id", db)
        else
          let with_group :=
            {| groups := groups db ++
                 [{| g_id := uuid; g_name := py_str (name data);
                     g_description := sql_text (description data);
                     g_created_at := now |}];
               videos := videos db;
               seq_videos := seq_videos db |} in
          match insert_videos uuid vs with_group with
          | Returned db' => (GroupCreated uuid vs now, db')
          | Raised msg => (Failed 500 ("Failed to save group: " +:+ msg), db)
          end
    end.

(** The batch [add_videos_to_group] gathers, or the response that ends the
    request before the database is written. *)
Definition gather_new_videos (ydl : Resolver) (data : Body) (start : Batch)
  : HttpResponse + Batch :=
  if truthy (playlist_id data) then
    match bulk_entries ydl (playlist_url (playlist_id data)) (max_results data) with
    | Returned es => inr (foldl add_entry start es)
    | Raised msg => inl (Failed 500 ("Failed to fetch playlist: " +:+ msg))
    end
  else if truthy (channel_id data) then
    match import_channel_url (channel_id data) with
    | Raised msg => inl (Failed 500 ("Failed to fetch channel: " +:+ msg))
    | Returned url =>
        match bulk_entries ydl url (max_results data) with
        | Returned es => inr (foldl add_entry start es)
        | Raised msg => inl (Failed 500 ("Failed to fetch channel: " +:+ msg))
        end
    end
  else
    match video_ids data with
    | [] => inl (Failed 400 "video_ids, playlist_id, or channel_id is required")
    | ids => inr (foldl (add_manual ydl) start ids)
    end.

Definition add_videos_to_group (ydl : Resolver) (group_id : string) (data : Body)
    (db : Db) : HttpResponse * Db :=
  if negb (group_exists group_id db) then (Failed 404 "Group not found", db)
  else
    let start :=
      {| existing_ids := PStr <$> member_ids group_id db;
         new_videos := [];
         added_count := 0 |} in
    match gather_new_videos ydl data start with
    | inl resp => (resp, db)
    | inr batch =>
        match insert_videos group_id (new_videos batch) db with
        | Returned db' =>
            (VideosAdded (added_count batch) (load_group group_id db'), db')
        | Raised msg => (Failed 500 ("Failed to save changes: " +:+ msg), db)
        end
    end.

(** [DELETE FROM groups WHERE id = ?], with the cascade to [videos] when
    the connection enforces foreign keys. *)
Definition delete_group_on (foreign_keys : bool) (group_id : string) (db : Db)
  : HttpResponse * Db :=
  if negb (group_exists group_id db) then (Failed 404 "Group not found", db)
  else
    (Done,
     {| groups := filter (λ g, g_id g ≠ group_id) (groups db);
        videos :=
          if foreign_keys then filter (λ r, v_group_id r ≠ group_id) (videos db)
          else videos db;
        seq_videos := seq_videos db |}).

Definition delete_group (group_id : string) (db : Db) : HttpResponse * Db :=
  delete_group_on connection_foreign_keys group_id db.

Definition delete_video_from_group (group_id video_id : string) (db : Db)
  : HttpResponse * Db :=
  if negb (bool_decide
             (Exists (λ r, v_group_id r = group_id ∧ v_video_id r = video_id)
                     (videos db))) then
    (Failed 404 "Video not found in group", db)
  else
    (Done,
     {| groups := groups db;
        videos :=
          filter (λ r, ¬ (v_group_id r = group_id ∧ v_video_id r = video_id))
                 (videos db);
        seq_videos := seq_videos db |}).

(** *** Membership of a group *)

(** The body of a request that lists video ids by hand. *)
Definition manual_body (ids : list string) : Body :=
  {| name := PNone; description := PNone; video_ids := ids;
     playlist_id := PNone; channel_id := PNone; max_results := PInt 50 |}.

(** The rows that make a video a member of a group. *)
Definition membership_rows (group_id video_id : string) (db : Db) : list Video :=
  filter (λ r, v_group_id r = group_id ∧ v_video_id r = video_id) (videos db).

(** [UNIQUE(group_id, video_id)]. *)
Definition membership_unique (db : Db) : Prop :=
  NoDup ((λ r, (v_group_id r, v_video_id r)) <$> videos db).

End Backend.

(** * Observations and sample data *)

(** The URL a resolution answered with, if it answered with one. *)
Definition returned_url (r : Response) : option pyval :=
  match r with
  | Json200 (VideoPayload d) => Some (vd_url d)
  | _ => None
  end.

Module Sample.

Definition audio_only : pydict :=
  {[ "acodec" := PStr "mp4a.40.2"; "vcodec" := PStr "none";
     "url" := PStr "https://cdn.example/audio.m4a" ]}.

Definition muxed : pydict :=
  {[ "acodec" := PStr "mp4a.40.2"; "vcodec" := PStr "avc1.64001F";
     "url" := PStr "https://cdn.example/muxed.mp4" ]}.

(** A candidate with both tracks whose dictionary carries no ['url']. *)
Definition muxed_without_url : pydict :=
  {[ "acodec" := PStr "mp4a.40.2"; "vcodec" := PStr "avc1.64001F" ]}.

Definition info_muxed_second : Info :=
  {| fields := {[ "title" := PStr "Learn colors" ]};
     formats := Some [audio_only; muxed];
     entries := None |}.

(** A candidate that carries a picture and no sound. *)
Definition video_only : pydict :=
  {[ "acodec" := PStr "none"; "vcodec" := PStr "avc1.64001F";
     "url" := PStr "https://cdn.example/video.mp4" ]}.

(** An empty dictionary stands before the only candidate with a URL. *)
Definition info_blank_first : Info :=
  {| fields := {[ "title" := PStr "Learn colors" ]};
     formats := Some [∅; video_only];
     entries := None |}.

Definition info_without_url : Info :=
  {| fields := {[ "title" := PStr "Learn colors" ]};
     formats := Some [muxed_without_url];
     entries := None |}.

Definition clock : Clock := {| at_check := 100; at_response := 101; at_store := 102 |}.

(** A cached resolution stored at time 0. *)
Definition cached_video : Payload :=
  VideoPayload (video_response (PStr "abc123") (PStr "https://cdn.example/muxed.mp4")
                               info_muxed_second 0).

Definition warm_cache : Cache := {[ video_cache_key "abc123" := (cached_video, 0) ]}.

(** A resolver that knows three channels: the first lookup raises, the
    other two list one video each. *)
Definition listing (video_id title : string) : Info :=
  {| fields := ∅; formats := None;
     entries := Some [ {[ "id" := PStr video_id; "title" := PStr title ]} ] |}.

Definition channel_resolver : Resolver :=
  λ _ url,
    if bool_decide (url = channel_url "UC5PYHgAzJ1jQzoyDQjOA1RA") then
      Raised "HTTP Error 404: Not Found"
    else if bool_decide (url = channel_url "UCqwjm_R3H1F6i8KBYmPh82A") then
      Returned (listing "toy0000001" "Blippi Toys")
    else if bool_decide (url = channel_url "UCbCmjCuTUZos6Inko4u57UQ") then
      Returned (listing "coco000001" "Wheels on the bus")
    else Raised "Unsupported URL".

Definition three_channels : list string :=
  ["UC5PYHgAzJ1jQzoyDQjOA1RA"; "UCbCmjCuTUZos6Inko4u57UQ"; "UCqwjm_R3H1F6i8KBYmPh82A"].

(** [int] on the two query values the samples use. *)
Definition int_of_query (s : string) : outcome Z :=
  if bool_decide (s = "1") then Returned 1
  else if bool_decide (s = "50") then Returned 50
  else Raised "invalid literal for int() with base 10".

(** A resolver whose every lookup raises. *)
Definition offline : Resolver := λ _ _, Raised "network unreachable".

(** A [server.py] database with one group of two members whose stored
    thumbnail is not the one of its first member. *)
Definition kids_group : Server.VideoGroup :=
  {| Server.vg_id := 1; Server.vg_group_name := "Kids";
     Server.vg_description := Some "";
     Server.vg_thumbnail := Some "https://example.com/cover.jpg";
     Server.vg_created_at := 0 |}.

Definition first_member : Server.GroupVideo :=
  {| Server.gv_id := 1; Server.gv_group_id := 1; Server.gv_video_id := "abc123";
     Server.gv_video_title := "Learn colors";
     Server.gv_video_thumbnail := Some (default_thumbnail "abc123");
     Server.gv_position := 1; Server.gv_added_at := 0 |}.

Definition second_member : Server.GroupVideo :=
  {| Server.gv_id := 2; Server.gv_group_id := 1; Server.gv_video_id := "def456";
     Server.gv_video_title := "Learn shapes";
     Server.gv_video_thumbnail := Some (default_thumbnail "def456");
     Server.gv_position := 2; Server.gv_added_at := 0 |}.

Definition kids_db : Server.Db :=
  {| Server.channels := [];
     Server.video_groups := [kids_group];
     Server.group_videos := [first_member; second_member];
     Server.seq_channels := 0;
     Server.seq_video_groups := 1;
     Server.seq_group_videos := 2 |}.

Definition third_video : option pydict :=
  Some {[ "video_id" := PStr "ghi789"; "video_title" := PStr "Learn numbers" ]}.

(** A [backend/server.py] database with one empty group. *)
Definition empty_group_db : Backend.Db :=
  {| Backend.groups :=
       [{| Backend.g_id := "7b0c4a52"; Backend.g_name := "Kids";
           Backend.g_description := Some ""; Backend.g_created_at := 0 |}];
     Backend.videos := [];
     Backend.seq_videos := 0 |}.

End Sample.

(** * The remaining handlers *)

(** ** Cache maintenance and playlists *)

(** [clear_cache]: the number of entries its message reports and the cache
    it leaves behind. *)
Definition clear_cache (video_cache : Cache) : nat * Cache :=
  (size video_cache, ∅).

(** One element of the ['videos'] list of a playlist. *)
Record PlaylistVideo : Type := {
  pv_video_id : pyval;
  pv_title : pyval;
  pv_thumbnail : pyval;
  pv_url : string;
  pv_duration : pyval
}.

Record PlaylistData : Type := {
  pd_playlist_id : pyval;
  pd_playlist_title : pyval;
  pd_videos : list PlaylistVideo;
  pd_count : nat;
  pd_fetched_at : Z
}.

Inductive PlaylistResponse : Type :=
| PlaylistJson (d : PlaylistData)              (* jsonify({...}) *)
| PlaylistError (status : Z) (msg : string)    (* {'error': msg}, status *)
| PlaylistFailure (status : Z) (msg : string)  (* {'success': False, 'error': msg}, status *)
| PlaylistUncaught (exception : string)        (* the handler itself raises *).

Definition playlist_video (entry : pydict) (video_id : pyval) : PlaylistVideo :=
  {| pv_video_id := video_id;
     pv_title := dict_get_or entry "title" (PStr "Video");
     pv_thumbnail :=
       dict_get_or entry "thumbnail" (PStr (default_thumbnail (py_str video_id)));
     pv_url := watch_url (py_str video_id);
     pv_duration := dict_get_or entry "duration" (PInt 0) |}.

(** The [videos] list [extract_playlist] builds from the resolver's
    answer. *)
Definition playlist_videos (max_results : Z) (info : Info) : list PlaylistVideo :=
  match entries info with
  | None => []
  | Some es =>
      omap (λ entry,
              let video_id := dict_get entry "id" in
              if truthy video_id then Some (playlist_video entry video_id) else None)
           (py_take max_results es)
  end.

Definition playlist_page_url (playlist_id : pyval) : string :=
  "https://www.youtube.com/playlist?list=" +:+ py_str playlist_id.

Section ExtractPlaylist.
Variable py_int : string → outcome Z.

(** [extract_playlist].  [playlist_id] is what
    [request.args.get('playlist_id') or request.json.get('playlist_id')]
    evaluates to, [Raised] when the query names no playlist and
    [request.json] raises or is not a dictionary: the name [playlist_id] is
    then unbound, the f-string of the [except] clause raises
    UnboundLocalError, and the handler gives no answer of its own.
    [max_results] is parsed before [playlist_id] is tested.  The answer
    comes with the URLs handed to the resolver. *)
Definition extract_playlist (ydl : Resolver) (now : Z) (playlist_id : outcome pyval)
    (max_results_arg : option string) : PlaylistResponse * list string :=
  match playlist_id with
  | Raised _ => (PlaylistUncaught "UnboundLocalError", [])
  | Returned playlist_id =>
      match from_option py_int (Returned 50) max_results_arg with
      | Raised msg => (PlaylistFailure 500 msg, [])
      | Returned max_results =>
          if negb (truthy playlist_id) then
            (PlaylistError 400 "playlist_id is required", [])
          else
            let url := playlist_page_url playlist_id in
            match ydl (flat_opts max_results) url with
            | Raised msg => (PlaylistFailure 500 msg, [url])
            | Returned info =>
                let videos := playlist_videos max_results info in
                (PlaylistJson
                   {| pd_playlist_id := playlist_id;
                      pd_playlist_title :=
                        dict_get_or (fields info) "title" (PStr "Playlist");
                      pd_videos := videos;
                      pd_count := length videos;
                      pd_fetched_at := now |},
                 [url])
            end
      end
  end.
End ExtractPlaylist.

(** ** Reading a group of [server.py] *)

Module ServerReads.

Inductive ListingResponse : Type :=
| Listing (group : Server.VideoGroup) (videos : list Server.GroupVideo) (count : nat)
| ListingFailed (status : Z) (error : string).

(** [get_group_videos]: the group row and its members ordered by
    position; a [group_id] the binding refuses ends in the handler's
    [except] clause. *)
Definition get_group_videos (group_id : Z) (db : Server.Db) : ListingResponse :=
  if negb (fits_int64 group_id) then ListingFailed 500 too_large
  else
    match List.find (λ g, bool_decide (Server.vg_id g = group_id))
                    (Server.video_groups db) with
    | None => ListingFailed 404 "Group not found"
    | Some group =>
        let videos :=
          merge_sort Server.by_position
                     (Server.members group_id (Server.group_videos db)) in
        Listing group videos (length videos)
    end.

(** The order of the index of [UNIQUE(channel_id)]. *)
Definition by_channel_id (a b : Server.Channel) : Prop :=
  index_le (Server.ch_channel_id a, Server.ch_id a)
           (Server.ch_channel_id b, Server.ch_id b).

#[global] Instance by_channel_id_dec a b : Decision (by_channel_id a b).
Proof. unfold by_channel_id. apply _. Defined.

#[global] Instance by_channel_id_trans : Transitive by_channel_id.
Proof. unfold by_channel_id. intros a b c ??. by etrans. Qed.

#[global] Instance by_channel_id_total : Total by_channel_id.
Proof. unfold by_channel_id. intros a b. apply (total index_le). Qed.

(** [SELECT channel_id FROM channels], the list [get_blippi_videos]
    iterates over.  The query asks for one column, which the index of
    [UNIQUE(channel_id)] holds, so SQLite reads that index from end to
    end: the ids come in their byte order, not in the order of the
    rowids. *)
Definition listed_channels (db : Server.Db) : list string :=
  Server.ch_channel_id <$> merge_sort by_channel_id (Server.channels db).

(** *** What the handlers keep true of the database *)

(** Rowids never exceed the [sqlite_sequence] counter of their table, and
    no membership row names a group beyond the counter of [video_groups]. *)
Definition keys_bounded (db : Server.Db) : Prop :=
  Forall (λ c, Server.ch_id c ≤ Server.seq_channels db) (Server.channels db)
  ∧ Forall (λ g, Server.vg_id g ≤ Server.seq_video_groups db) (Server.video_groups db)
  ∧ Forall (λ r, Server.gv_id r ≤ Server.seq_group_videos db) (Server.group_videos db)
  ∧ Forall (λ r, Server.gv_group_id r ≤ Server.seq_video_groups db)
           (Server.group_videos db).

(** The PRIMARY KEY of each table and [UNIQUE(channel_id)]. *)
Definition keys_unique (db : Server.Db) : Prop :=
  NoDup (Server.ch_id <$> Server.channels db)
  ∧ NoDup (Server.ch_channel_id <$> Server.channels db)
  ∧ NoDup (Server.vg_id <$> Server.video_groups db)
  ∧ NoDup (Server.gv_id <$> Server.group_videos db).

(** Counters and keys stay within the rowids SQLite gives out: no counter
    is negative or beyond the largest rowid, and every rowid, and every
    group id a membership row names, is at least 1. *)
Definition keys_fit (db : Server.Db) : Prop :=
  (0 ≤ Server.seq_channels db ≤ INT64_MAX
   ∧ 0 ≤ Server.seq_video_groups db ≤ INT64_MAX
   ∧ 0 ≤ Server.seq_group_videos db ≤ INT64_MAX)
  ∧ Forall (λ c, 1 ≤ Server.ch_id c) (Server.channels db)
  ∧ Forall (λ g, 1 ≤ Server.vg_id g) (Server.video_groups db)
  ∧ Forall (λ r, 1 ≤ Server.gv_id r ∧ 1 ≤ Server.gv_group_id r)
           (Server.group_videos db).

(** The thumbnail [delete_video_from_group] computes for a group. *)
Definition derived_thumbnail (group_id : Z) (db : Server.Db) : option string :=
  match Server.first_by_position (Server.members group_id (Server.group_videos db)) with
  | Some r => Server.gv_video_thumbnail r
  | None => Some ""
  end.

(** Every group shows the thumbnail of its first member. *)
Definition thumbnails_derived (db : Server.Db) : Prop :=
  Forall (λ g, Server.vg_thumbnail g = derived_thumbnail (Server.vg_id g) db)
         (Server.video_groups db).

(** Within a group, rows stored later hold larger positions. *)
Definition stored_in_order (db : Server.Db) : Prop :=
  ∀ group_id,
    StronglySorted (λ a b, Server.gv_position a < Server.gv_position b)
                   (Server.members group_id (Server.group_videos db)).

Definition store_invariant (db : Server.Db) : Prop :=
  Server.catalog_invariant db ∧ keys_bounded db ∧ keys_unique db
  ∧ thumbnails_derived db ∧ stored_in_order db.

(** *** The states of the database *)

(** [init_db] on the database file as a restart finds it: the tables
    exist, and the two default channels are inserted when [channels] holds
    no row.  When the counter of [channels] leaves no rowid for them the
    insert raises, nothing is committed and the file stays as it was. *)
Definition init_db_on (now : Z) (db : Server.Db) : Server.Db :=
  match Server.channels db with
  | [] =>
      let first_id := next_rowid (Server.seq_channels db) [] in
      let second_id := next_rowid first_id [first_id] in
      if rowid_full (Server.seq_channels db) [] || rowid_full first_id [first_id]
      then db
      else
      {| Server.channels :=
           [ Server.default_channel first_id "UC5PYHgAzJ1jQzoyDQjOA1RA"
               "Blippi - Educational Videos for Kids" "Main Blippi channel" now;
             Server.default_channel second_id "UCqwjm_R3H1F6i8KBYmPh82A"
               "Blippi Toys" "Blippi Toys channel" now ];
         Server.video_groups := Server.video_groups db;
         Server.group_videos := Server.group_videos db;
         Server.seq_channels := second_id;
         Server.seq_video_groups := Server.seq_video_groups db;
         Server.seq_group_videos := Server.seq_group_videos db |}
  | _ :: _ => db
  end.

(** What the server can make of a new database file: it starts, serves
    requests one after the other, and may be started again. *)
Inductive reachable : Server.Db → Prop :=
| reachable_new now : reachable (Server.init_db now)
| reachable_request foreign_keys req db :
    reachable db → reachable (Server.handle foreign_keys req db).2
| reachable_restart now db : reachable db → reachable (init_db_on now db).

End ServerReads.

(** ** Request sequences and listings of [backend/server.py] *)

Module BackendRuns.

(** The tables [init_database] creates in a new [jjutv.db]. *)
Definition init_database : Backend.Db :=
  {| Backend.groups := []; Backend.videos := []; Backend.seq_videos := 0 |}.

(** [load_groups], which [get_groups] answers with: every row of [groups],
    in the order of the table, with the rows of [videos] that carry its
    id, in the order of their index. *)
Definition load_groups (db : Backend.Db) : list (Backend.Group * list Backend.Video) :=
  (λ g, (g, Backend.group_rows (Backend.g_id g) db)) <$> Backend.groups db.

Inductive Request : Type :=
| CreateGroup (ydl : Resolver) (uuid : string) (now : Z) (data : Backend.Body)
| AddVideosToGroup (ydl : Resolver) (group_id : string) (data : Backend.Body)
| DeleteGroup (group_id : string)
| DeleteVideoFromGroup (group_id video_id : string).

(** One request on a connection whose foreign-key enforcement is as
    given; the resolver of a request is the network as that request finds
    it. *)
Definition handle (foreign_keys : bool) (req : Request) (db : Backend.Db)
  : Backend.HttpResponse * Backend.Db :=
  match req with
  | CreateGroup ydl uuid now data => Backend.create_group ydl uuid now data db
  | AddVideosToGroup ydl group_id data => Backend.add_videos_to_group ydl group_id data db
  | DeleteGroup group_id => Backend.delete_group_on foreign_keys group_id db
  | DeleteVideoFromGroup group_id video_id =>
      Backend.delete_video_from_group group_id video_id db
  end.

Definition serve (foreign_keys : bool) (reqs : list Request) (db : Backend.Db)
  : Backend.Db :=
  foldl (λ db req, (handle foreign_keys req db).2) db reqs.

(** The PRIMARY KEY of [groups] and of [videos], and
    [UNIQUE(group_id, video_id)]. *)
Definition keys_unique (db : Backend.Db) : Prop :=
  NoDup (Backend.g_id <$> Backend.groups db)
  ∧ NoDup (Backend.v_id <$> Backend.videos db)
  ∧ Forall (λ r, Backend.v_id r ≤ Backend.seq_videos db) (Backend.videos db)
  ∧ Backend.membership_unique db.

End BackendRuns.

(** ** The block lists of [backend/server.py] *)

Module Blocklist.

(** A row of [blocked_videos] or [blocked_channels]: the primary key, the
    reason and the time of blocking. *)
Record Blocked : Type := {
  b_id : string;
  b_reason : option string;
  b_blocked_at : Z
}.

Record Db : Type := {
  blocked_videos : list Blocked;
  blocked_channels : list Blocked
}.

Inductive HttpResponse : Type :=
| Done                                   (* {'success': True} *)
| Failed (status : Z) (error : string)   (* {'success': False, 'error': error}, status *).

(** The two [block_*] handlers share their shape; [key] is the name of the
    id in the JSON body and [failed] the prefix of the message of an
    exception met while the database is open.  A body that parses to
    [null] raises on [data.get].  The id is a parameter of the SELECT, id
    and reason of the INSERT. *)
Definition block (key missing already failed : string) (now : Z)
    (data : option pydict) (table : list Blocked) : HttpResponse * list Blocked :=
  match data with
  | None => (Failed 500 "'NoneType' object has no attribute 'get'", table)
  | Some data =>
      let id := dict_get data key in
      let reason := dict_get_or data "reason" (PStr "Blocked by admin") in
      if negb (truthy id) then (Failed 400 missing, table)
      else if negb (bindable id) then (Failed 500 (failed +:+ too_large), table)
      else if bool_decide (py_str id ∈ b_id <$> table) then (Failed 400 already, table)
      else if negb (bindable reason) then (Failed 500 (failed +:+ too_large), table)
      else
        (Done,
         table ++ [{| b_id := py_str id; b_reason := sql_text reason;
                      b_blocked_at := now |}])
  end.

Definition unblock (absent : string) (id : string) (table : list Blocked)
  : HttpResponse * list Blocked :=
  if negb (bool_decide (id ∈ b_id <$> table)) then (Failed 404 absent, table)
  else (Done, filter (λ b, b_id b ≠ id) table).

Definition block_video (now : Z) (data : option pydict) (db : Db) : HttpResponse * Db :=
  let '(resp, table) :=
    block "video_id" "video_id is required" "Video already blocked"
          "Failed to block video: " now data (blocked_videos db) in
  (resp, {| blocked_videos := table; blocked_channels := blocked_channels db |}).

Definition unblock_video (video_id : string) (db : Db) : HttpResponse * Db :=
  let '(resp, table) :=
    unblock "Video not found in blocked list" video_id (blocked_videos db) in
  (resp, {| blocked_videos := table; blocked_channels := blocked_channels db |}).

Definition block_channel (now : Z) (data : option pydict) (db : Db) : HttpResponse * Db :=
  let '(resp, table) :=
    block "channel_id" "channel_id is required" "Channel already blocked"
          "Failed to block channel: " now data (blocked_channels db) in
  (resp, {| blocked_videos := blocked_videos db; blocked_channels := table |}).

(** The [try] body of [unblock_channel]; its [except] line does not parse
    as written, and nothing in the body raises. *)
Definition unblock_channel (channel_id : string) (db : Db) : HttpResponse * Db :=
  let '(resp, table) :=
    unblock "Channel not found in blocked list" channel_id (blocked_channels db) in
  (resp, {| blocked_videos := blocked_videos db; blocked_channels := table |}).

(** [load_blocked]: the ids on the two lists. *)
Definition load_blocked (db : Db) : list string * list string :=
  (b_id <$> blocked_videos db, b_id <$> blocked_channels db).

Inductive Request : Type :=
| BlockVideo (now : Z) (data : option pydict)
| UnblockVideo (video_id : string)
| BlockChannel (now : Z) (data : option pydict)
| UnblockChannel (channel_id : string).

Definition handle (req : Request) (db : Db) : HttpResponse * Db :=
  match req with
  | BlockVideo now data => block_video now data db
  | UnblockVideo video_id => unblock_video video_id db
  | BlockChannel now data => block_channel now data db
  | UnblockChannel channel_id => unblock_channel channel_id db
  end.

Definition serve (reqs : list Request) (db : Db) : Db :=
  foldl (λ db req, (handle req db).2) db reqs.

(** The tables [init_database] creates. *)
Definition init_database : Db := {| blocked_videos := []; blocked_channels := [] |}.

End Blocklist.

(** ** [simple-server.py] *)

Module SimpleServer.

(** What [subprocess.run] hands back. *)
Record Completed : Type := {
  returncode : Z;
  stdout : string
}.

(** [s.split('\n')[0]] *)
Fixpoint first_line (s : string) : string :=
  match s with
  | EmptyString => EmptyString
  | String c rest =>
      if bool_decide (c = "010"%char) then EmptyString else String c (first_line rest)
  end.

Inductive HttpResponse : Type :=
| Extracted (url : string)               (* {"success": True, "url": url, "title": "Video"} *)
| Failed (status : Z) (error : string).

Definition command (video_id : string) : list string :=
  ["yt-dlp"; "-f"; "best"; "-g"; watch_url video_id].

(** [extract_video], for the query parameter [video_id] (the empty
    string when it is missing); [run] is [subprocess.run] with its 30 s
    timeout, which raises when the time is up. *)
Definition extract_video (run : list string → outcome Completed) (video_id : string)
  : HttpResponse :=
  if decide (video_id = "") then Failed 400 "No video_id provided"
  else
    match run (command video_id) with
    | Raised msg => Failed 500 msg
    | Returned result =>
        if bool_decide (returncode result = 0)
           && negb (bool_decide (Backend.py_strip (stdout result) = "")) then
          Extracted (first_line (Backend.py_strip (stdout result)))
        else Failed 500 "Could not extract video"
    end.

End SimpleServer.

(** ** Sample requests *)

Module Scenario.

Definition kids_request : option pydict :=
  Some {[ "group_name" := PStr "Kids" ]}.

Definition first_video : option pydict :=
  Some {[ "video_id" := PStr "abc123"; "video_title" := PStr "Learn colors" ]}.

Definition songs_channel : option pydict :=
  Some {[ "channel_id" := PStr "UCsongs"; "channel_name" := PStr "Songs" ]}.

(** The body of a request that adds a third channel. *)
Definition wheels_channel : option pydict :=
  Some {[ "channel_id" := PStr "UCbCmjCuTUZos6Inko4u57UQ";
          "channel_name" := PStr "Wheels on the bus" ]}.

(** The database after that channel was added to the two of [init_db]. *)
Definition three_channel_db : Server.Db :=
  Server.serve false [Server.AddChannel 5 wheels_channel] (Server.init_db 0).

(** The database after a group was created and got its first video. *)
Definition one_group : Server.Db :=
  Server.serve false
    [ Server.CreateGroup 10 kids_request; Server.AddVideoToGroup 20 1 first_video ]
    (Server.init_db 0).

(** The database after the group got a second video. *)
Definition two_videos : Server.Db :=
  Server.serve false [ Server.AddVideoToGroup 30 1 Sample.third_video ] one_group.

(** The row of group 1 that an add at time [now] stores for a video
    whose body names no thumbnail. *)
Definition member (id now : Z) (video_id video_title : string) (position : Z)
  : Server.GroupVideo :=
  {| Server.gv_id := id; Server.gv_group_id := 1; Server.gv_video_id := video_id;
     Server.gv_video_title := video_title;
     Server.gv_video_thumbnail := Some (default_thumbnail video_id);
     Server.gv_position := position; Server.gv_added_at := now |}.

(** A group is created and deleted with its first video still in it. *)
Definition session : list Server.Request :=
  [ Server.CreateGroup 10 kids_request;
    Server.AddVideoToGroup 20 1 first_video;
    Server.DeleteGroup 1 ].

(** The body of a request that blocks a video. *)
Definition unwanted : option pydict := Some {[ "video_id" := PStr "abc123" ]}.

(** Two lines of output, as [yt-dlp -g] prints for separate streams. *)
Definition two_urls : string :=
  "https://cdn.example/video.mp4"
  +:+ String "010"%char ("https://cdn.example/audio.m4a" +:+ String "010"%char "").

Definition finished (cmd : list string) : outcome SimpleServer.Completed :=
  Returned {| SimpleServer.returncode := 0; SimpleServer.stdout := two_urls |}.

(** A cache that holds a listing of all channels, stored at time 0. *)
Definition all_channels_cache : Cache :=
  {[ channel_cache_key 50 None
     := (ChannelPayload {| cd_videos := []; cd_count := 0; cd_fetched_at := 0 |}, 0) ]}.

(** A request that arrives 100 microseconds after [Sample.clock]. *)
Definition later : Clock := {| at_check := 200; at_response := 201; at_store := 202 |}.

(** A resolver that answers every lookup with a list of one video. *)
Definition one_video : Resolver :=
  λ _ _, Returned (Sample.listing "toy0000001" "Blippi Toys").

(** Two spellings of one video id. *)
Definition repeated_ids : Backend.Body :=
  {| Backend.name := PStr "Kids"; Backend.description := PStr "";
     Backend.video_ids := ["abc123"; " abc123 "];
     Backend.playlist_id := PNone; Backend.channel_id := PNone;
     Backend.max_results := PInt 50 |}.

(** One video id with blanks around it. *)
Definition single_id : Backend.Body :=
  {| Backend.name := PStr "Kids"; Backend.description := PStr "";
     Backend.video_ids := [" abc123 "];
     Backend.playlist_id := PNone; Backend.channel_id := PNone;
     Backend.max_results := PInt 50 |}.

(** Two video ids, the later in byte order first. *)
Definition two_ids : Backend.Body :=
  {| Backend.name := PStr "Kids"; Backend.description := PStr "";
     Backend.video_ids := ["zulu5678"; "alfa1234"];
     Backend.playlist_id := PNone; Backend.channel_id := PNone;
     Backend.max_results := PInt 50 |}.

(** The database of [backend/server.py] after two groups were created
    while the network was down: the first with the videos of [two_ids],
    the second with the one of [single_id]. *)
Definition two_groups : Backend.Db :=
  BackendRuns.serve false
    [ BackendRuns.CreateGroup Sample.offline "7b0c4a52" 1 two_ids;
      BackendRuns.CreateGroup Sample.offline "5f0e7a10" 2 single_id ]
    BackendRuns.init_database.

(** The database after [session] and a restart. *)
Definition restarted : Server.Db :=
  ServerReads.init_db_on 40 (Server.serve false session (Server.init_db 0)).

End Scenario.

(** * Properties *)

(** ** Format selection *)

Lemma find_first {A} (p : A → bool) pre x post :
  Forall (λ c, p c = false) pre → p x = true →
  List.find p (pre ++ x :: post) = Some x.
Proof.
  induction 1 as [|c pre Hc _ IH]; intros Hx; simpl.
  - by rewrite Hx.
  - rewrite Hc. by apply IH.
Qed.

Lemma find_nothing {A} (p : A → bool) l :
  Forall (λ c, p c = false) l → List.find p l = None.
Proof. induction 1 as [|c l Hc _ IH]; simpl; [done|]. by rewrite Hc. Qed.

Lemma extract_video_miss ydl clk video_id video_cache info :
  truthy video_id = true →
  cache_hit video_cache (video_cache_key (py_str video_id)) (at_check clk) = None →
  ydl YDL_OPTS (watch_url (py_str video_id)) = Returned info →
  extract_video ydl clk (Returned video_id) video_cache =
    if truthy (select_video_url info) then
      let response_data :=
        VideoPayload (video_response video_id (select_video_url info) info (at_response clk)) in
      {| response := Json200 response_data;
         cache_after :=
           <[video_cache_key (py_str video_id) := (response_data, at_store clk)]> video_cache;
         resolver_calls := [watch_url (py_str video_id)] |}
    else
      {| response := NoPlayableStream; cache_after := video_cache;
         resolver_calls := [watch_url (py_str video_id)] |}.
Proof.
  intros Hid Hmiss Hinfo. unfold extract_video.
  rewrite Hid. cbn [negb]. by rewrite Hmiss, Hinfo.
Qed.

Lemma select_canonical info :
  truthy (dict_get (fields info) "url") = true →
  select_video_url info = dict_get (fields info) "url".
Proof. intros H. unfold select_video_url. by rewrite H. Qed.

Lemma select_without_formats info :
  truthy (dict_get (fields info) "url") = false →
  formats info = None ∨ formats info = Some [] →
  truthy (select_video_url info) = false.
Proof.
  intros Hurl [Hfs|Hfs]; unfold select_video_url, format_with_audio;
    by rewrite Hurl, Hfs.
Qed.

Lemma select_first_muxed info pre f post :
  truthy (dict_get (fields info) "url") = false →
  formats info = Some (pre ++ f :: post) →
  Forall (λ c, has_audio_and_video c = false) pre →
  has_audio_and_video f = true →
  f ≠ ∅ →
  select_video_url info = dict_get f "url".
Proof.
  intros Hurl Hfs Hpre Hf Hne. unfold select_video_url, format_with_audio.
  rewrite Hurl, Hfs, (find_first _ _ _ _ Hpre Hf).
  unfold dict_truthy. by rewrite bool_decide_eq_true_2.
Qed.

Lemma blank_has_both : has_audio_and_video ∅ = true.
Proof. unfold has_audio_and_video, dict_get. by rewrite !lookup_empty. Qed.

(** An empty dictionary passes the codec test and fails [if
    format_with_audio:], which sends the selection to [formats[-1]]. *)
Lemma select_blank_first info pre post l :
  truthy (dict_get (fields info) "url") = false →
  formats info = Some (pre ++ ∅ :: post) →
  Forall (λ c, has_audio_and_video c = false) pre →
  last (pre ++ ∅ :: post) = Some l →
  select_video_url info = dict_get l "url".
Proof.
  intros Hurl Hfs Hpre Hl. unfold select_video_url, format_with_audio.
  rewrite Hurl, Hfs, (find_first has_audio_and_video pre ∅ post Hpre blank_has_both).
  unfold dict_truthy. rewrite bool_decide_eq_false_2 by (by intros []).
  by rewrite Hl.
Qed.

Lemma select_last_fallback info fs l :
  truthy (dict_get (fields info) "url") = false →
  formats info = Some (fs ++ [l]) →
  Forall (λ c, has_audio_and_video c = false) (fs ++ [l]) →
  select_video_url info = dict_get l "url".
Proof.
  intros Hurl Hfs Hnone. unfold select_video_url, format_with_audio.
  by rewrite Hurl, Hfs, (find_nothing _ _ Hnone), last_snoc.
Qed.

(** C1, as the code has it.  On a cache miss for which the resolver returns
    [info]: a non-empty ['url'] field is the answer.  Otherwise, with no
    ['formats'] or an empty list, the answer is [NoPlayableStream].
    Otherwise one candidate is selected: the first whose ['acodec'] and
    ['vcodec'] both differ from ['none'], whatever stands before or after
    it; the last one when no candidate qualifies, and also when the first
    that qualifies is an empty dictionary (which has no codec to be
    ['none'] and is falsy).  The URL of the selected candidate is the
    answer when it is present and non-empty, and the answer is
    [NoPlayableStream] when it is not. *)
Theorem format_selector ydl clk video_id video_cache info :
  truthy video_id = true →
  cache_hit video_cache (video_cache_key (py_str video_id)) (at_check clk) = None →
  ydl YDL_OPTS (watch_url (py_str video_id)) = Returned info →
  let reply := response (extract_video ydl clk (Returned video_id) video_cache) in
  let url := dict_get (fields info) "url" in
  let answers_with (v : pyval) :=
    if truthy v then returned_url reply = Some v else reply = NoPlayableStream in
  (truthy url = true → returned_url reply = Some url)
  ∧ (truthy url = false →
     (formats info = None ∨ formats info = Some [] → reply = NoPlayableStream)
     ∧ (∀ pre f post,
          formats info = Some (pre ++ f :: post) →
          Forall (λ c, has_audio_and_video c = false) pre →
          has_audio_and_video f = true →
          (f ≠ ∅ → answers_with (dict_get f "url"))
          ∧ (f = ∅ →
             ∀ l, last (pre ++ f :: post) = Some l → answers_with (dict_get l "url")))
     ∧ (∀ fs l,
          formats info = Some (fs ++ [l]) →
          Forall (λ c, has_audio_and_video c = false) (fs ++ [l]) →
          answers_with (dict_get l "url"))).
Proof.
  intros Hid Hmiss Hinfo reply url answers_with. subst reply answers_with.
  rewrite (extract_video_miss _ _ _ _ _ Hid Hmiss Hinfo).
  assert (Hanswer : ∀ v, select_video_url info = v →
    if truthy v
    then returned_url (response
           (if truthy (select_video_url info) then
              let response_data :=
                VideoPayload (video_response video_id (select_video_url info) info
                                             (at_response clk)) in
              {| response := Json200 response_data;
                 cache_after :=
                   <[video_cache_key (py_str video_id) := (response_data, at_store clk)]>
                     video_cache;
                 resolver_calls := [watch_url (py_str video_id)] |}
            else
              {| response := NoPlayableStream; cache_after := video_cache;
                 resolver_calls := [watch_url (py_str video_id)] |})) = Some v
    else response
           (if truthy (select_video_url info) then
              let response_data :=
                VideoPayload (video_response video_id (select_video_url info) info
                                             (at_response clk)) in
              {| response := Json200 response_data;
                 cache_after :=
                   <[video_cache_key (py_str video_id) := (response_data, at_store clk)]>
                     video_cache;
                 resolver_calls := [watch_url (py_str video_id)] |}
            else
              {| response := NoPlayableStream; cache_after := video_cache;
                 resolver_calls := [watch_url (py_str video_id)] |}) = NoPlayableStream).
  { intros v ->. by destruct (truthy v). }
  split.
  - intros Hu. pose proof (Hanswer _ (select_canonical _ Hu)) as H.
    fold url in H. by rewrite Hu in H.
  - intros Hu. split; [|split].
    + intros Hfs. by rewrite (select_without_formats _ Hu Hfs).
    + intros pre f post Hfs Hpre Hf. split.
      * intros Hne. apply Hanswer. by apply (select_first_muxed _ pre f post).
      * intros -> l Hl. apply Hanswer. by apply (select_blank_first _ pre post).
    + intros fs l Hfs Hnone. apply Hanswer. by apply (select_last_fallback _ fs).
Qed.

Lemma format_selector_witness :
  returned_url
    (response (extract_video (λ _ _, Returned Sample.info_muxed_second)
                             Sample.clock (Returned (PStr "abc123")) ∅))
  = Some (PStr "https://cdn.example/muxed.mp4")
  ∧ returned_url
      (response (extract_video (λ _ _, Returned Sample.info_blank_first)
                               Sample.clock (Returned (PStr "abc123")) ∅))
    = Some (PStr "https://cdn.example/video.mp4").
Proof.
  split.
  - pose proof (format_selector (λ _ _, Returned Sample.info_muxed_second)
                  Sample.clock (PStr "abc123") ∅ Sample.info_muxed_second) as H.
    destruct H as (_ & Hformats); [done|reflexivity|reflexivity|].
    destruct (Hformats eq_refl) as (_ & Hmuxed & _).
    refine (proj1 (Hmuxed [Sample.audio_only] Sample.muxed [] eq_refl _ eq_refl) _).
    + by repeat constructor.
    + intros Hblank. pose proof (f_equal (λ f : pydict, f !! "url") Hblank) as Hurl.
      vm_compute in Hurl. discriminate Hurl.
  - pose proof (format_selector (λ _ _, Returned Sample.info_blank_first)
                  Sample.clock (PStr "abc123") ∅ Sample.info_blank_first) as H.
    destruct H as (_ & Hformats); [done|reflexivity|reflexivity|].
    destruct (Hformats eq_refl) as (_ & Hmuxed & _).
    exact (proj2 (Hmuxed [] ∅ [Sample.video_only] eq_refl (Forall_nil_2 _)
                         blank_has_both)
                 eq_refl Sample.video_only eq_refl).
Defined.

(** A candidate with both tracks and no ['url'] stands first in a non-empty
    list, and the resolution fails instead of answering with a URL. *)
Lemma format_selector_counterexample :
  truthy (dict_get (fields Sample.info_without_url) "url") = false
  ∧ formats Sample.info_without_url = Some [Sample.muxed_without_url]
  ∧ has_audio_and_video Sample.muxed_without_url = true
  ∧ response (extract_video (λ _ _, Returned Sample.info_without_url)
                            Sample.clock (Returned (PStr "abc123")) ∅)
    = NoPlayableStream
  ∧ returned_url (response (extract_video (λ _ _, Returned Sample.info_without_url)
                                          Sample.clock (Returned (PStr "abc123")) ∅))
    = None.
Proof. repeat split; reflexivity. Qed.

(** ** Resolution cache *)

Lemma cache_hit_fresh (video_cache : Cache) key payload t_put now :
  video_cache !! key = Some (payload, t_put) →
  now - t_put < cache_timeout →
  cache_hit video_cache key now = Some payload.
Proof. intros Hin Hlt. unfold cache_hit. rewrite Hin. by rewrite decide_True. Qed.

Lemma cache_hit_stale (video_cache : Cache) key payload t_put now :
  video_cache !! key = Some (payload, t_put) →
  cache_timeout ≤ now - t_put →
  cache_hit video_cache key now = None.
Proof. intros Hin Hge. unfold cache_hit. rewrite Hin. rewrite decide_False; [done|lia]. Qed.

(** C2.  The time-to-live is one hour.  For every key and payload, a lookup
    after a put answers with the payload exactly when less than one hour
    has passed since the put.  In [extract_video]: a resolution that misses
    the cache stores its payload under the key of the video with the time
    of the store; a request that finds an entry stored less than one hour
    before its check answers with exactly the stored payload and leaves the
    cache and the resolver alone; a request that finds an entry one hour
    old or older calls the resolver again, and the stale entry stays where
    it is unless the new resolution succeeds, which replaces it. *)
Theorem resolution_cache ydl clk video_id (video_cache : Cache) :
  truthy video_id = true →
  let key := video_cache_key (py_str video_id) in
  let reply := extract_video ydl clk (Returned video_id) video_cache in
  cache_timeout = 3600 * 1000000
  ∧ (∀ (cache : Cache) any_key payload t_put now,
       cache_hit (<[any_key := (payload, t_put)]> cache) any_key now =
         if decide (now - t_put < cache_timeout) then Some payload else None)
  ∧ (∀ info,
       cache_hit video_cache key (at_check clk) = None →
       ydl YDL_OPTS (watch_url (py_str video_id)) = Returned info →
       truthy (select_video_url info) = true →
       ∃ payload,
         response reply = Json200 payload
         ∧ cache_after reply = <[key := (payload, at_store clk)]> video_cache)
  ∧ (∀ payload t_put,
       video_cache !! key = Some (payload, t_put) →
       at_check clk - t_put < cache_timeout →
       reply = {| response := Json200 payload; cache_after := video_cache;
                  resolver_calls := [] |})
  ∧ (∀ payload t_put,
       video_cache !! key = Some (payload, t_put) →
       cache_timeout ≤ at_check clk - t_put →
       resolver_calls reply = [watch_url (py_str video_id)]
       ∧ (cache_after reply = video_cache
          ∨ ∃ fresh, response reply = Json200 fresh
                     ∧ cache_after reply = <[key := (fresh, at_store clk)]> video_cache)).
Proof.
  intros Hid key reply. subst key. split; [done|]. split.
  { intros cache any_key payload t_put now. unfold cache_hit.
    by rewrite lookup_insert_eq. }
  split; [|split].
  - intros info Hmiss Hinfo Hsel. subst reply.
    rewrite (extract_video_miss _ _ _ _ _ Hid Hmiss Hinfo), Hsel. simpl. eauto.
  - intros payload t_put Hin Hlt. subst reply. unfold extract_video.
    rewrite Hid. cbn [negb].
    by rewrite (cache_hit_fresh _ _ _ _ _ Hin Hlt).
  - intros payload t_put Hin Hge. subst reply. unfold extract_video.
    rewrite Hid. cbn [negb].
    rewrite (cache_hit_stale _ _ _ _ _ Hin Hge).
    destruct (ydl YDL_OPTS (watch_url (py_str video_id))) as [info|msg]; simpl.
    + destruct (truthy (select_video_url info)); simpl; eauto.
    + eauto.
Qed.

Lemma resolution_cache_witness :
  extract_video Sample.offline Sample.clock (Returned (PStr "abc123")) Sample.warm_cache
  = {| response := Json200 Sample.cached_video;
       cache_after := Sample.warm_cache;
       resolver_calls := [] |}.
Proof.
  pose proof (resolution_cache Sample.offline Sample.clock (PStr "abc123")
                Sample.warm_cache) as H.
  destruct H as (_ & _ & _ & Hfresh & _); [done|].
  apply (Hfresh Sample.cached_video 0); [reflexivity|]. vm_compute. reflexivity.
Defined.

(** ** Channel listing *)

Lemma fetch_channels_unfold ydl max_results cs all_videos calls :
  fetch_channels ydl max_results cs all_videos calls =
    (all_videos ++ concat (fetched_videos ydl max_results <$> cs),
     calls ++ (channel_url <$> cs)).
Proof.
  revert all_videos calls.
  induction cs as [|c cs IH]; intros all_videos calls; simpl.
  - by rewrite !app_nil_r.
  - unfold fetched_videos at 1.
    destruct (ydl (flat_opts max_results) (channel_url c)) as [info|msg];
      rewrite IH; simpl; by rewrite <- !app_assoc.
Qed.

Lemma failed_lookup_fetches_nothing ydl max_results c :
  lookup_succeeds ydl max_results c ≠ true → fetched_videos ydl max_results c = [].
Proof.
  unfold lookup_succeeds, fetched_videos.
  by destruct (ydl (flat_opts max_results) (channel_url c)).
Qed.

(** Channels whose lookup raised contribute nothing: dropping them from the
    list leaves [all_videos] as it is. *)
Lemma failed_channels_skipped ydl max_results cs :
  concat (fetched_videos ydl max_results <$> cs) =
  concat (fetched_videos ydl max_results
            <$> filter (λ c, lookup_succeeds ydl max_results c = true) cs).
Proof.
  induction cs as [|c cs IH]; [done|].
  rewrite filter_cons, fmap_cons. simpl.
  destruct (decide (lookup_succeeds ydl max_results c = true)) as [Hs|Hs].
  - rewrite fmap_cons. simpl. by rewrite IH.
  - by rewrite (failed_lookup_fetches_nothing _ _ _ Hs).
Qed.

Section Isolation.
Variable py_int : string → outcome Z.

(** C8, as the code has it.  Once the query parameters are read and the
    cache is missed, the listing answers 200 whatever lookups raise: every
    channel is looked up in turn, and the videos returned are those of the
    channels whose lookup succeeded, in channel order, cut to [max_results]
    entries overall. *)
Theorem channel_failures_isolated ydl clk max_results_arg channel_index
    db_channels (video_cache : Cache) max_results cs :
  from_option py_int (Returned 50) max_results_arg = Returned max_results →
  cache_hit video_cache (channel_cache_key max_results channel_index)
            (at_check clk) = None →
  channels_to_fetch py_int channel_index db_channels = Returned cs →
  let reply :=
    get_blippi_videos py_int ydl clk max_results_arg channel_index
                      db_channels video_cache in
  ∃ data,
    response reply = Json200 (ChannelPayload data)
    ∧ resolver_calls reply = channel_url <$> cs
    ∧ cd_videos data =
        py_take max_results
          (concat (fetched_videos ydl max_results
                     <$> filter (λ c, lookup_succeeds ydl max_results c = true) cs))
    ∧ cd_count data = length (cd_videos data).
Proof.
  intros Hmax Hmiss Hcs reply. subst reply. unfold get_blippi_videos.
  rewrite Hmax, Hmiss, Hcs, fetch_channels_unfold. simpl.
  eexists. split; [done|]. split; [done|]. split; [|done].
  simpl. by rewrite <- failed_channels_skipped.
Qed.
End Isolation.

Lemma channel_failures_witness :
  ∃ data,
    response (get_blippi_videos Sample.int_of_query Sample.channel_resolver
                Sample.clock (Some "50") None Sample.three_channels ∅)
      = Json200 (ChannelPayload data)
    ∧ resolver_calls (get_blippi_videos Sample.int_of_query Sample.channel_resolver
                        Sample.clock (Some "50") None Sample.three_channels ∅)
      = channel_url <$> Sample.three_channels
    ∧ cd_videos data =
        py_take 50
          (concat (fetched_videos Sample.channel_resolver 50
                     <$> filter (λ c, lookup_succeeds Sample.channel_resolver 50 c = true)
                                Sample.three_channels))
    ∧ cd_count data = length (cd_videos data).
Proof.
  apply (channel_failures_isolated Sample.int_of_query Sample.channel_resolver
           Sample.clock (Some "50") None Sample.three_channels ∅ 50
           Sample.three_channels); reflexivity.
Defined.

(** A third channel is added to the two [init_db] stores; [SELECT
    channel_id] then lists it second.  The lookup of the first channel
    raises, the lookups of the other two succeed and list one video each.
    With [max_results = 1] the answer holds the video of the second channel
    and not the one of the third, whose lookup succeeded as well. *)
Lemma channel_failures_counterexample :
  ServerReads.listed_channels Scenario.three_channel_db
  = ["UC5PYHgAzJ1jQzoyDQjOA1RA"; "UCbCmjCuTUZos6Inko4u57UQ";
     "UCqwjm_R3H1F6i8KBYmPh82A"]
  ∧ lookup_succeeds Sample.channel_resolver 1 "UC5PYHgAzJ1jQzoyDQjOA1RA" = false
  ∧ lookup_succeeds Sample.channel_resolver 1 "UCqwjm_R3H1F6i8KBYmPh82A" = true
  ∧ cv_video_id <$> fetched_videos Sample.channel_resolver 1 "UCqwjm_R3H1F6i8KBYmPh82A"
    = [PStr "toy0000001"]
  ∧ ∃ data,
      response (get_blippi_videos Sample.int_of_query Sample.channel_resolver
                  Sample.clock (Some "1") None
                  (ServerReads.listed_channels Scenario.three_channel_db) ∅)
        = Json200 (ChannelPayload data)
      ∧ cv_video_id <$> cd_videos data = [PStr "coco000001"].
Proof.
  split; [by vm_compute|]. split; [by vm_compute|]. split; [by vm_compute|].
  split; [by vm_compute|].
  eexists. split; [by vm_compute|]. by vm_compute.
Qed.

(** ** The catalog of [server.py] *)

Section ServerFacts.
Import Server.

(** *** Lists of rows *)

Lemma NoDup_fmap_filter {A B} (f : A → B) (P : A → Prop)
    `{!∀ x, Decision (P x)} (l : list A) :
  NoDup (f <$> l) → NoDup (f <$> filter P l).
Proof.
  induction l as [|x l IH]; [done|].
  rewrite fmap_cons, filter_cons. intros [Hx Hl]%NoDup_cons.
  destruct (decide (P x)); [|by apply IH].
  rewrite fmap_cons. apply NoDup_cons. split; [|by apply IH].
  intros (y & Hy & Hin)%list_elem_of_fmap.
  apply list_elem_of_filter in Hin as [_ Hin].
  apply Hx. rewrite Hy. by apply list_elem_of_fmap_2.
Qed.

Lemma NoDup_fmap_agree {A B} (f : A → B) (l : list A) x y :
  NoDup (f <$> l) → x ∈ l → y ∈ l → f x = f y → x = y.
Proof.
  induction l as [|z l IH]; [by intros _ ?%elem_of_nil|].
  rewrite fmap_cons. intros [Hz Hl]%NoDup_cons.
  intros [->|Hx]%elem_of_cons [->|Hy]%elem_of_cons Hf; [done| | |by apply IH].
  - exfalso. apply Hz. rewrite Hf. by apply list_elem_of_fmap_2.
  - exfalso. apply Hz. rewrite <- Hf. by apply list_elem_of_fmap_2.
Qed.

Lemma filter_nothing_removed {A} (P : A → Prop) `{!∀ x, Decision (P x)} (l : list A) :
  ¬ (0 < length l - length (filter P l))%nat → filter P l = l.
Proof.
  induction l as [|x l IH]; [done|].
  rewrite filter_cons. pose proof (length_filter P l) as Hle.
  destruct (decide (P x)); simpl; intros Hnone.
  - f_equal. apply IH. lia.
  - exfalso. apply Hnone. lia.
Qed.

Lemma filter_something_removed {A} (P : A → Prop) `{!∀ x, Decision (P x)}
    (l : list A) x :
  x ∈ l → ¬ P x → (0 < length l - length (filter P l))%nat.
Proof. intros Hin Hx. pose proof (length_filter_lt P l x Hin Hx). lia. Qed.

(** *** [MAX(position)] and [ORDER BY position LIMIT 1] *)

Lemma max_position_None rows : max_position rows = None ↔ rows = [].
Proof.
  destruct rows as [|r rest]; [done|]. simpl.
  by destruct (max_position rest).
Qed.

Lemma max_position_bound rows m :
  max_position rows = Some m → ∀ r, r ∈ rows → gv_position r ≤ m.
Proof.
  revert m. induction rows as [|x rest IH]; intros m; [done|]. simpl.
  destruct (max_position rest) as [m'|] eqn:E.
  - intros [= <-] r [->|Hr]%elem_of_cons; [lia|].
    specialize (IH m' eq_refl r Hr). lia.
  - apply max_position_None in E as ->.
    intros [= <-] r [->|Hr]%elem_of_cons; [lia|]. by apply elem_of_nil in Hr.
Qed.

Lemma max_position_attained rows m :
  max_position rows = Some m → ∃ r, r ∈ rows ∧ gv_position r = m.
Proof.
  revert m. induction rows as [|x rest IH]; intros m; [done|]. simpl.
  destruct (max_position rest) as [m'|] eqn:E.
  - intros [= <-]. destruct (decide (m' ≤ gv_position x)).
    + exists x. split; [apply elem_of_cons; by left|lia].
    + destruct (IH m' eq_refl) as (r & Hr & Hp).
      exists r. split; [apply elem_of_cons; by right|lia].
  - intros [= <-]. exists x. split; [apply elem_of_cons; by left|done].
Qed.

Lemma first_by_position_None rows : first_by_position rows = None ↔ rows = [].
Proof.
  destruct rows as [|r rest]; [done|]. simpl.
  destruct (first_by_position rest); [by case_decide|done].
Qed.

Lemma by_position_le a b : by_position a b → gv_position a ≤ gv_position b.
Proof. intros [?|[? _]]; lia. Qed.

Lemma not_by_position_le a b : ¬ by_position a b → gv_position b ≤ gv_position a.
Proof.
  intros Hn. destruct (total by_position a b) as [H|H]; [done|].
  by apply by_position_le.
Qed.

Lemma first_by_position_least rows r :
  first_by_position rows = Some r →
  r ∈ rows ∧ ∀ r', r' ∈ rows → gv_position r ≤ gv_position r'.
Proof.
  revert r. induction rows as [|x rest IH]; intros r; [done|]. simpl.
  destruct (first_by_position rest) as [m|] eqn:E.
  - destruct (IH m eq_refl) as [Hm Hleast].
    destruct (decide (by_position x m)) as [Hxm%by_position_le|Hxm%not_by_position_le];
      intros [= <-].
    + split; [apply elem_of_cons; by left|].
      intros r' [->|Hr']%elem_of_cons; [lia|]. specialize (Hleast r' Hr'). lia.
    + split; [apply elem_of_cons; by right|].
      intros r' [->|Hr']%elem_of_cons; [lia|]. by apply Hleast.
  - apply first_by_position_None in E as ->. intros [= <-].
    split; [apply elem_of_cons; by left|].
    intros r' [->|Hr']%elem_of_cons; [lia|]. by apply elem_of_nil in Hr'.
Qed.

(** The row [LIMIT 1] keeps stands before every other in the order of the
    query. *)
Lemma first_by_position_first rows r :
  first_by_position rows = Some r →
  r ∈ rows ∧ ∀ r', r' ∈ rows → by_position r r'.
Proof.
  revert r. induction rows as [|x rest IH]; intros r; [done|]. simpl.
  assert (Hrefl : ∀ a, by_position a a).
  { intros a. by destruct (total by_position a a). }
  destruct (first_by_position rest) as [m|] eqn:E.
  - destruct (IH m eq_refl) as [Hm Hfirst].
    destruct (decide (by_position x m)) as [Hxm|Hxm]; intros [= <-].
    + split; [apply elem_of_cons; by left|].
      intros r' [->|Hr']%elem_of_cons; [done|]. etrans; [done|]. by apply Hfirst.
    + split; [apply elem_of_cons; by right|].
      intros r' [->|Hr']%elem_of_cons; [|by apply Hfirst].
      by destruct (total by_position x m).
  - apply first_by_position_None in E as ->. intros [= <-].
    split; [apply elem_of_cons; by left|].
    intros r' [->|Hr']%elem_of_cons; [done|]. by apply elem_of_nil in Hr'.
Qed.

Lemma elem_of_members group_id rows r :
  r ∈ members group_id rows ↔ gv_group_id r = group_id ∧ r ∈ rows.
Proof. unfold members. by rewrite list_elem_of_filter. Qed.

(** The position the next member receives is above every position of the
    group. *)
Lemma next_position_above group_id db r :
  r ∈ members group_id (group_videos db) → gv_position r < next_position group_id db.
Proof.
  intros Hr. unfold next_position.
  destruct (max_position (members group_id (group_videos db))) as [m|] eqn:E.
  - pose proof (max_position_bound _ _ E r Hr). lia.
  - apply max_position_None in E. rewrite E in Hr. by apply elem_of_nil in Hr.
Qed.

Lemma next_position_empty group_id db :
  members group_id (group_videos db) = [] → next_position group_id db = 1.
Proof. intros H. unfold next_position. by rewrite H. Qed.

Lemma next_position_succ_max group_id db :
  members group_id (group_videos db) ≠ [] →
  ∃ r, r ∈ members group_id (group_videos db)
       ∧ next_position group_id db = gv_position r + 1.
Proof.
  intros Hne. unfold next_position.
  destruct (max_position (members group_id (group_videos db))) as [m|] eqn:E.
  - destruct (max_position_attained _ _ E) as (r & Hr & Hp).
    exists r. split; [done|lia].
  - by apply max_position_None in E.
Qed.

Lemma next_position_valid group_id db :
  positions_valid db → 1 ≤ next_position group_id db.
Proof.
  intros Hv. destruct (decide (members group_id (group_videos db) = [])) as [E|E].
  - rewrite (next_position_empty _ _ E). lia.
  - destruct (next_position_succ_max _ _ E) as (r & Hr & ->).
    apply elem_of_members in Hr as [_ Hr].
    unfold positions_valid in Hv. rewrite Forall_forall in Hv.
    specialize (Hv r Hr). lia.
Qed.

End ServerFacts.

Section ServerInvariant.
Import Server.

(** What [add_video_to_group] does to the database: nothing, or one row
    appended at the next position of its group. *)
Lemma add_video_to_group_effect now group_id data db :
  let db' := (add_video_to_group now group_id data db).2 in
  db' = db
  ∨ ∃ row,
      group_videos db' = group_videos db ++ [row]
      ∧ gv_group_id row = group_id
      ∧ gv_position row = next_position group_id db
      ∧ gv_video_id row ∉ gv_video_id <$> members group_id (group_videos db).
Proof.
  unfold add_video_to_group.
  destruct (no_data data); [by left|].
  destruct (negb _ || negb _); [by left|].
  destruct (negb (fits_int64 group_id)); [by left|].
  destruct (negb (group_exists group_id db)); [by left|].
  destruct (negb (_ && _)); [by left|].
  destruct (rowid_full _ _); [by left|].
  case_bool_decide as Hdup; [by left|].
  right. eexists. simpl. split; [done|]. by simpl.
Qed.

Lemma add_video_to_group_invariant now group_id data db :
  catalog_invariant db →
  catalog_invariant (add_video_to_group now group_id data db).2.
Proof.
  intros (Hv & Hu & Hd).
  destruct (add_video_to_group_effect now group_id data db)
    as [->|(row & Hrows & Hg & Hp & Hfresh)]; [done|].
  unfold catalog_invariant, positions_valid, membership_unique, positions_distinct.
  rewrite Hrows, !fmap_app. simpl. split; [|split].
  - apply Forall_app. split; [done|]. apply Forall_singleton.
    rewrite Hp. by apply next_position_valid.
  - apply NoDup_app. split; [done|]. split; [|apply NoDup_singleton].
    intros key (r & -> & Hr)%list_elem_of_fmap [= Hgr Hvr]%list_elem_of_singleton.
    apply Hfresh. rewrite <- Hvr. apply list_elem_of_fmap_2.
    apply elem_of_members. split; [congruence|done].
  - apply NoDup_app. split; [done|]. split; [|apply NoDup_singleton].
    intros key (r & -> & Hr)%list_elem_of_fmap [= Hgr Hpr]%list_elem_of_singleton.
    assert (r ∈ members group_id (group_videos db)) as Hm.
    { apply elem_of_members. split; [congruence|done]. }
    pose proof (next_position_above _ _ _ Hm). lia.
Qed.

Lemma filter_rows_invariant db db' (P : GroupVideo → Prop) `{!∀ r, Decision (P r)} :
  group_videos db' = filter P (group_videos db) →
  catalog_invariant db → catalog_invariant db'.
Proof.
  intros Hrows (Hv & Hu & Hd).
  unfold catalog_invariant, positions_valid, membership_unique, positions_distinct.
  rewrite Hrows. split; [|split].
  - unfold positions_valid in Hv. rewrite Forall_forall in *.
    intros r [_ Hr]%list_elem_of_filter. by apply Hv.
  - by apply NoDup_fmap_filter.
  - by apply NoDup_fmap_filter.
Qed.

Lemma same_rows_invariant db db' :
  group_videos db' = group_videos db →
  catalog_invariant db → catalog_invariant db'.
Proof.
  intros Hrows. unfold catalog_invariant, positions_valid, membership_unique,
    positions_distinct. by rewrite Hrows.
Qed.

Lemma handle_invariant foreign_keys req db :
  catalog_invariant db → catalog_invariant (handle foreign_keys req db).2.
Proof.
  intros Hinv. destruct req as [now data|cid|now data|now gid data|gid|gid vid]; simpl.
  - apply (same_rows_invariant db); [|done]. unfold add_channel.
    repeat case_match; done.
  - apply (same_rows_invariant db); [|done]. unfold delete_channel.
    by case_decide.
  - apply (same_rows_invariant db); [|done]. unfold create_group.
    repeat case_match; done.
  - by apply add_video_to_group_invariant.
  - unfold delete_group_on, delete_from_video_groups.
    destruct (negb (fits_int64 gid)); [done|].
    destruct foreign_keys; simpl.
    + case_bool_decide.
      * apply (filter_rows_invariant db _ (λ r, gv_group_id r ≠ gid)); [|done].
        by rewrite decide_True.
      * apply (same_rows_invariant db); [|done]. by rewrite decide_False.
    + apply (same_rows_invariant db); [|done]. by case_decide.
  - unfold delete_video_from_group.
    destruct (negb (_ && _)); [done|].
    apply (filter_rows_invariant db _
             (λ r, ¬ (gv_group_id r = gid ∧ gv_id r = vid))); [|done].
    by case_decide.
Qed.

Lemma init_db_invariant now : catalog_invariant (init_db now).
Proof.
  unfold catalog_invariant, positions_valid, membership_unique, positions_distinct.
  simpl. repeat split; constructor.
Qed.

Lemma serve_invariant foreign_keys reqs db :
  catalog_invariant db → catalog_invariant (serve foreign_keys reqs db).
Proof.
  revert db. induction reqs as [|req reqs IH]; intros db Hinv; [done|].
  apply IH. by apply handle_invariant.
Qed.

(** Under the invariant the first row by position of a group is the only
    one at its position. *)
Lemma first_by_position_unique db group_id :
  positions_distinct db →
  members group_id (group_videos db) ≠ [] →
  ∃ r, first_by_position (members group_id (group_videos db)) = Some r
       ∧ r ∈ members group_id (group_videos db)
       ∧ ∀ r', r' ∈ members group_id (group_videos db) → r' ≠ r →
               gv_position r < gv_position r'.
Proof.
  intros Hd Hne.
  destruct (first_by_position (members group_id (group_videos db))) as [r|] eqn:E;
    [|by apply first_by_position_None in E].
  destruct (first_by_position_least _ _ E) as [Hr Hleast].
  exists r. split; [done|]. split; [done|].
  intros r' Hr' Hneq. specialize (Hleast r' Hr').
  destruct (decide (gv_position r = gv_position r')) as [Heq|]; [|lia].
  exfalso. apply Hneq.
  apply elem_of_members in Hr as [Hg Hr]. apply elem_of_members in Hr' as [Hg' Hr'].
  apply (NoDup_fmap_agree _ _ _ _ Hd Hr' Hr). simpl. congruence.
Qed.

End ServerInvariant.

Section ServerClaims.
Import Server.

Lemma next_position_after_top group_id db :
  members group_id (group_videos db) ≠ [] →
  ∃ top, top ∈ members group_id (group_videos db)
         ∧ (∀ r, r ∈ members group_id (group_videos db) →
                 gv_position r ≤ gv_position top)
         ∧ next_position group_id db = gv_position top + 1.
Proof.
  intros Hne. unfold next_position.
  destruct (max_position (members group_id (group_videos db))) as [m|] eqn:E;
    [|by apply max_position_None in E].
  destruct (max_position_attained _ _ E) as (top & Htop & Hp).
  exists top. split; [done|]. split; [|lia].
  intros r Hr. rewrite Hp. by apply (max_position_bound _ _ E).
Qed.

Lemma add_video_to_group_succeeds now group_id data db :
  let video_id := dict_get (body data) "video_id" in
  let video_title := dict_get (body data) "video_title" in
  let video_thumbnail :=
    dict_get_or (body data) "video_thumbnail"
                (PStr (default_thumbnail (py_str video_id))) in
  no_data data = false →
  truthy video_id = true →
  truthy video_title = true →
  fits_int64 group_id = true →
  group_exists group_id db = true →
  bindable video_id && bindable video_title && bindable video_thumbnail
    && fits_int64 (next_position group_id db) = true →
  rowid_full (seq_group_videos db) (gv_id <$> group_videos db) = false →
  py_str video_id ∉ gv_video_id <$> members group_id (group_videos db) →
  ∃ row db',
    add_video_to_group now group_id data db =
      (Succeeded 201 "Video added to group successfully"
         (Some (NewVideo (gv_id row) video_id video_title video_thumbnail
                  (next_position group_id db))), db')
    ∧ group_videos db' = group_videos db ++ [row]
    ∧ gv_group_id row = group_id
    ∧ gv_video_id row = py_str video_id
    ∧ gv_video_thumbnail row = sql_text video_thumbnail
    ∧ gv_position row = next_position group_id db.
Proof.
  intros video_id video_title video_thumbnail
    Hdata Hid Htitle Hfits Hgroup Hbind Hroom Hfresh.
  unfold add_video_to_group. fold video_id video_title video_thumbnail.
  rewrite Hdata, Hid, Htitle, Hfits, Hgroup. cbn [negb orb].
  rewrite Hbind, Hroom. cbn [negb].
  rewrite bool_decide_eq_false_2 by done.
  exists {| gv_id := next_rowid (seq_group_videos db) (gv_id <$> group_videos db);
            gv_group_id := group_id;
            gv_video_id := py_str video_id;
            gv_video_title := py_str video_title;
            gv_video_thumbnail := sql_text video_thumbnail;
            gv_position := next_position group_id db; gv_added_at := now |}.
  eexists. split; [reflexivity|]. simpl. by repeat split.
Qed.

(** Every add that answers with a success has stored one row, at the next
    position of its group. *)
Lemma add_video_to_group_stored now group_id data db status message created db' :
  add_video_to_group now group_id data db = (Succeeded status message created, db') →
  ∃ row,
    group_videos db' = group_videos db ++ [row]
    ∧ gv_group_id row = group_id
    ∧ gv_position row = next_position group_id db.
Proof.
  unfold add_video_to_group.
  destruct (no_data data); [done|].
  destruct (negb _ || negb _); [done|].
  destruct (negb (fits_int64 group_id)); [done|].
  destruct (negb (group_exists group_id db)); [done|].
  destruct (negb (_ && _)); [done|].
  destruct (rowid_full _ _); [done|].
  case_bool_decide; [done|].
  intros [= _ _ _ <-]. eexists. by repeat split.
Qed.

(** C4.  An add whose values the database accepts (a body with a video id
    and a title, an existing group, parameters within 64 bits, a rowid
    left, a video that is not yet in the group) stores one new row whose
    position is 1 when the group has no member and one more than the
    largest position of the group otherwise; and every add that succeeds
    has stored one row at that position.  In every database the handlers
    produce from a fresh [init_db], every stored position is at least 1, no
    (group_id, video_id) pair occurs twice, and every non-empty group has
    one row whose position is strictly below all the others, so that
    [ORDER BY position LIMIT 1] is determined. *)
Theorem member_positions :
  (∀ now group_id data db,
     let video_id := dict_get (body data) "video_id" in
     let video_title := dict_get (body data) "video_title" in
     let video_thumbnail :=
       dict_get_or (body data) "video_thumbnail"
                   (PStr (default_thumbnail (py_str video_id))) in
     no_data data = false →
     truthy video_id = true →
     truthy video_title = true →
     fits_int64 group_id = true →
     group_exists group_id db = true →
     bindable video_id && bindable video_title && bindable video_thumbnail
       && fits_int64 (next_position group_id db) = true →
     rowid_full (seq_group_videos db) (gv_id <$> group_videos db) = false →
     py_str video_id ∉ gv_video_id <$> members group_id (group_videos db) →
     ∃ row db',
       add_video_to_group now group_id data db =
         (Succeeded 201 "Video added to group successfully"
            (Some (NewVideo (gv_id row) video_id video_title video_thumbnail
                     (gv_position row))), db')
       ∧ group_videos db' = group_videos db ++ [row]
       ∧ gv_group_id row = group_id
       ∧ gv_video_id row = py_str video_id
       ∧ (members group_id (group_videos db) = [] → gv_position row = 1)
       ∧ (members group_id (group_videos db) ≠ [] →
          ∃ top, top ∈ members group_id (group_videos db)
                 ∧ (∀ r, r ∈ members group_id (group_videos db) →
                         gv_position r ≤ gv_position top)
                 ∧ gv_position row = gv_position top + 1))
  ∧ (∀ now group_id data db status message created db',
       add_video_to_group now group_id data db
         = (Succeeded status message created, db') →
       ∃ row,
         group_videos db' = group_videos db ++ [row]
         ∧ gv_group_id row = group_id
         ∧ (members group_id (group_videos db) = [] → gv_position row = 1)
         ∧ (members group_id (group_videos db) ≠ [] →
            ∃ top, top ∈ members group_id (group_videos db)
                   ∧ (∀ r, r ∈ members group_id (group_videos db) →
                           gv_position r ≤ gv_position top)
                   ∧ gv_position row = gv_position top + 1))
  ∧ (∀ foreign_keys now reqs,
       let db := serve foreign_keys reqs (init_db now) in
       (∀ r, r ∈ group_videos db → 1 ≤ gv_position r)
       ∧ NoDup ((λ r, (gv_group_id r, gv_video_id r)) <$> group_videos db)
       ∧ ∀ group_id,
           members group_id (group_videos db) ≠ [] →
           ∃ r, first_by_position (members group_id (group_videos db)) = Some r
                ∧ r ∈ members group_id (group_videos db)
                ∧ ∀ r', r' ∈ members group_id (group_videos db) → r' ≠ r →
                        gv_position r < gv_position r').
Proof.
  split; [|split].
  - intros now group_id data db video_id video_title video_thumbnail
      Hdata Hid Htitle Hfits Hgroup Hbind Hroom Hfresh.
    destruct (add_video_to_group_succeeds now group_id data db
                Hdata Hid Htitle Hfits Hgroup Hbind Hroom Hfresh)
      as (row & db' & Hadd & Hrows & Hg & Hv & _ & Hp).
    exists row, db'. rewrite Hp.
    split; [done|]. split; [done|]. split; [done|]. split; [done|]. split.
    + apply next_position_empty.
    + apply next_position_after_top.
  - intros now group_id data db status message created db' Hadd.
    destruct (add_video_to_group_stored _ _ _ _ _ _ _ _ Hadd)
      as (row & Hrows & Hg & Hp).
    exists row. rewrite Hp. split; [done|]. split; [done|]. split.
    + apply next_position_empty.
    + apply next_position_after_top.
  - intros foreign_keys now reqs db.
    destruct (serve_invariant foreign_keys reqs _ (init_db_invariant now))
      as (Hv & Hu & Hd). fold db in Hv, Hu, Hd.
    split; [|split].
    + unfold positions_valid in Hv. by rewrite Forall_forall in Hv.
    + exact Hu.
    + intros group_id. by apply first_by_position_unique.
Qed.

Lemma member_positions_witness :
  ∃ row db',
    Server.add_video_to_group 30 1 Sample.third_video Scenario.one_group =
      (Server.Succeeded 201 "Video added to group successfully"
         (Some (Server.NewVideo (Server.gv_id row) (PStr "ghi789") (PStr "Learn numbers")
                  (PStr "https://i.ytimg.com/vi/ghi789/hqdefault.jpg")
                  (Server.gv_position row))), db')
    ∧ Server.group_videos db' = Server.group_videos Scenario.one_group ++ [row]
    ∧ Server.gv_position row = 2.
Proof.
  destruct (proj1 member_positions 30 1 Sample.third_video Scenario.one_group)
    as (row & db' & Hadd & Hrows & _ & _ & _ & _);
    [reflexivity|reflexivity|reflexivity|reflexivity|reflexivity|reflexivity
    |reflexivity| |].
  { vm_compute. intros Hin. repeat (apply elem_of_cons in Hin as [?|Hin]; [done|]).
    by apply elem_of_nil in Hin. }
  exists row, db'. split; [exact Hadd|]. split; [done|].
  destruct (proj1 (proj2 member_positions) _ _ _ _ _ _ _ _ Hadd)
    as (row' & Hrows' & _ & _ & Htop).
  rewrite Hrows in Hrows'. apply app_inj_tail in Hrows' as [_ <-].
  destruct Htop as (top & Hin & _ & ->); [done|].
  vm_compute in Hin.
  apply elem_of_cons in Hin as [->|Hin]; [done|]. by apply elem_of_nil in Hin.
Defined.

(** *** Thumbnails *)

Lemma group_thumbnail_set group_id thumbnail db db' :
  group_exists group_id db = true →
  video_groups db' = set_thumbnail group_id thumbnail (video_groups db) →
  group_thumbnail group_id db' = Some thumbnail.
Proof.
  unfold group_exists, group_thumbnail. intros Hin%bool_decide_eq_true ->.
  induction (video_groups db) as [|g gs IH]; [by apply elem_of_nil in Hin|].
  rewrite fmap_cons in Hin. simpl.
  destruct (decide (vg_id g = group_id)) as [Hg|Hg]; simpl.
  - by rewrite bool_decide_eq_true_2.
  - rewrite bool_decide_eq_false_2 by done.
    apply elem_of_cons in Hin as [Hin|Hin]; [congruence|]. by apply IH.
Qed.

(** C5.  Removing a member row of an existing group succeeds and deletes
    that row.  When no member remains, the thumbnail of the group is the
    empty string.  When members remain, one of them is the first in the
    order of [ORDER BY position] (no member has a smaller position), and
    the thumbnail of the group is the thumbnail of that row.  This holds
    whichever row is removed, in particular when it was the one of least
    position. *)
Theorem thumbnail_after_removal db group_id video_id row :
  row ∈ group_videos db →
  gv_group_id row = group_id →
  gv_id row = video_id →
  fits_int64 group_id && fits_int64 video_id = true →
  group_exists group_id db = true →
  ∃ db',
    delete_video_from_group group_id video_id db =
      (Succeeded 200 "Video deleted successfully" None, db')
    ∧ group_videos db' =
        (filter (λ r, ¬ (gv_group_id r = group_id ∧ gv_id r = video_id))
                (group_videos db))
    ∧ (row ∉ group_videos db')
    ∧ (members group_id (group_videos db') = [] →
       group_thumbnail group_id db' = Some (Some ""))
    ∧ (members group_id (group_videos db') ≠ [] →
       ∃ r, first_by_position (members group_id (group_videos db')) = Some r
            ∧ r ∈ members group_id (group_videos db')
            ∧ (∀ r', r' ∈ members group_id (group_videos db') →
                     gv_position r ≤ gv_position r' ∧ by_position r r')
            ∧ group_thumbnail group_id db' = Some (gv_video_thumbnail r)).
Proof.
  intros Hrow Hg Hid Hfits Hgroup. unfold delete_video_from_group.
  rewrite Hfits. cbn [negb].
  rewrite decide_True.
  2:{ apply (filter_something_removed _ _ row); [done|]. by intros []. }
  eexists. split; [reflexivity|]. simpl. split; [done|]. split; [|split].
  - intros [Hkeep _]%list_elem_of_filter. by apply Hkeep.
  - intros Hnone. apply (group_thumbnail_set _ _ db); [done|]. simpl.
    by rewrite Hnone.
  - intros Hsome.
    destruct (first_by_position
                (members group_id
                   (filter (λ r, ¬ (gv_group_id r = group_id ∧ gv_id r = video_id))
                           (group_videos db)))) as [r|] eqn:Hfirst;
      [|by apply first_by_position_None in Hfirst].
    destruct (first_by_position_first _ _ Hfirst) as [Hr Hleast].
    exists r. split; [done|]. split; [done|]. split.
    + intros r' Hr'. split; [apply by_position_le|]; by apply Hleast.
    + by apply (group_thumbnail_set _ _ db).
Qed.

Lemma thumbnail_after_removal_witness :
  ∃ db',
    Server.delete_video_from_group 1 1 Scenario.two_videos =
      (Server.Succeeded 200 "Video deleted successfully" None, db')
    ∧ Server.group_thumbnail 1 Scenario.two_videos
      = Some (Some "https://i.ytimg.com/vi/abc123/hqdefault.jpg")
    ∧ Server.group_thumbnail 1 db'
      = Some (Some "https://i.ytimg.com/vi/ghi789/hqdefault.jpg").
Proof.
  destruct (thumbnail_after_removal Scenario.two_videos 1 1
              (Scenario.member 1 20 "abc123" "Learn colors" 1))
    as (db' & Hdel & Hrows & _ & _ & Hfirst);
    [apply elem_of_cons; by left|reflexivity|reflexivity|reflexivity|reflexivity|].
  exists db'. split; [done|]. split; [reflexivity|].
  destruct Hfirst as (r & Hr & _ & _ & ->).
  { rewrite Hrows. by vm_compute. }
  rewrite Hrows in Hr. vm_compute in Hr. by injection Hr as <-.
Defined.

(** C10.  When every stored position is at least 1, adding a video to a
    group that has a member leaves [video_groups] as it is, whether the add
    succeeds or not: no thumbnail changes, whatever it was. *)
Theorem add_keeps_thumbnail now group_id data db :
  positions_valid db →
  members group_id (group_videos db) ≠ [] →
  let db' := (add_video_to_group now group_id data db).2 in
  video_groups db' = video_groups db
  ∧ ∀ g, group_thumbnail g db' = group_thumbnail g db.
Proof.
  intros Hv Hne db'.
  assert (video_groups db' = video_groups db) as Hsame.
  { subst db'. unfold add_video_to_group.
    destruct (no_data data); [done|].
    destruct (negb _ || negb _); [done|].
    destruct (negb (fits_int64 group_id)); [done|].
    destruct (negb (group_exists group_id db)); [done|].
    destruct (negb (_ && _)); [done|].
    destruct (rowid_full _ _); [done|].
    case_bool_decide; [done|]. simpl.
    rewrite decide_False; [done|].
    destruct (next_position_after_top _ _ Hne) as (top & Htop & _ & ->).
    apply elem_of_members in Htop as [_ Htop].
    unfold positions_valid in Hv. rewrite Forall_forall in Hv.
    specialize (Hv top Htop). lia. }
  split; [done|]. intros g. unfold group_thumbnail. by rewrite Hsame.
Qed.

Lemma add_keeps_thumbnail_witness :
  Server.group_thumbnail 1
    (Server.add_video_to_group 7 1 Sample.third_video Sample.kids_db).2
  = Some (Some "https://example.com/cover.jpg").
Proof.
  destruct (add_keeps_thumbnail 7 1 Sample.third_video Sample.kids_db) as [_ Hsame].
  - repeat constructor; vm_compute; discriminate.
  - vm_compute. discriminate.
  - rewrite Hsame. reflexivity.
Defined.

(** *** Failures and the store *)

Lemma add_channel_failure_atomic now data db status error db' :
  add_channel now data db = (Failed status error, db') → db' = db.
Proof. unfold add_channel. repeat case_match; by intros [= ]. Qed.

Lemma delete_channel_failure_atomic channel_id db status error db' :
  delete_channel channel_id db = (Failed status error, db') → db' = db.
Proof.
  unfold delete_channel. case_decide as Hnone; intros [= _ _ <-].
  destruct db. simpl in *. f_equal. by apply filter_nothing_removed.
Qed.

Lemma create_group_failure_atomic now data db status error db' :
  create_group now data db = (Failed status error, db') → db' = db.
Proof. unfold create_group. repeat case_match; by intros [= ]. Qed.

Lemma add_video_to_group_failure_atomic now group_id data db status error db' :
  add_video_to_group now group_id data db = (Failed status error, db') → db' = db.
Proof. unfold add_video_to_group. repeat case_match; by intros [= ]. Qed.

Lemma delete_group_failure_atomic foreign_keys group_id db status error db' :
  delete_group_on foreign_keys group_id db = (Failed status error, db') → db' = db.
Proof.
  unfold delete_group_on, delete_from_video_groups.
  destruct (negb (fits_int64 group_id)); [by intros [= _ _ <-]|].
  case_decide as Hnone; intros [= _ _ <-].
  destruct db. simpl in *. f_equal.
  - by apply filter_nothing_removed.
  - rewrite bool_decide_eq_false_2 by done. by rewrite andb_false_r.
Qed.

(** A removal that finds no row still answers 404, but only after it has
    recomputed and committed the thumbnail of the group. *)
Lemma delete_video_from_group_not_found group_id video_id db :
  fits_int64 group_id && fits_int64 video_id = true →
  (∀ r, r ∈ group_videos db → ¬ (gv_group_id r = group_id ∧ gv_id r = video_id)) →
  delete_video_from_group group_id video_id db =
    (Failed 404 "Video not found",
     {| channels := channels db;
        video_groups :=
          set_thumbnail group_id
            (match first_by_position (members group_id (group_videos db)) with
             | Some r => gv_video_thumbnail r
             | None => Some ""
             end) (video_groups db);
        group_videos := group_videos db;
        seq_channels := seq_channels db;
        seq_video_groups := seq_video_groups db;
        seq_group_videos := seq_group_videos db |}).
Proof.
  intros Hfits Habsent. unfold delete_video_from_group.
  rewrite Hfits. cbn [negb].
  assert (filter (λ r, ¬ (gv_group_id r = group_id ∧ gv_id r = video_id))
                 (group_videos db) = group_videos db) as ->.
  { induction (group_videos db) as [|r rs IH]; [done|].
    rewrite filter_cons, decide_True.
    - f_equal. apply IH. intros r' Hr'. apply Habsent. apply elem_of_cons. by right.
    - apply Habsent. apply elem_of_cons. by left. }
  rewrite decide_False by lia. done.
Qed.

(** The write goes unnoticed exactly when the rows of the group already
    hold the recomputed thumbnail. *)
Lemma set_thumbnail_same group_id thumbnail groups :
  (∀ g, g ∈ groups → vg_id g = group_id → vg_thumbnail g = thumbnail) →
  set_thumbnail group_id thumbnail groups = groups.
Proof.
  unfold set_thumbnail. induction groups as [|g gs IH]; intros Hsame; [done|].
  rewrite fmap_cons. f_equal.
  - case_decide as Hg; [|done].
    rewrite <- (Hsame g); [by destruct g|apply elem_of_cons; by left|done].
  - apply IH. intros g' Hg'. apply Hsame. apply elem_of_cons. by right.
Qed.

Lemma delete_video_from_group_not_found_unnoticed group_id video_id db :
  fits_int64 group_id && fits_int64 video_id = true →
  (∀ r, r ∈ group_videos db → ¬ (gv_group_id r = group_id ∧ gv_id r = video_id)) →
  (∀ g, g ∈ video_groups db → vg_id g = group_id →
        vg_thumbnail g =
          match first_by_position (members group_id (group_videos db)) with
          | Some r => gv_video_thumbnail r
          | None => Some ""
          end) →
  delete_video_from_group group_id video_id db = (Failed 404 "Video not found", db).
Proof.
  intros Hfits Habsent Hsame.
  rewrite (delete_video_from_group_not_found _ _ _ Hfits Habsent).
  rewrite (set_thumbnail_same _ _ _ Hsame). by destruct db.
Qed.

End ServerClaims.

Section ServerDeleteGroup.
Import Server.

Lemma delete_group_unknown foreign_keys group_id db :
  fits_int64 group_id = true →
  group_exists group_id db = false →
  delete_group_on foreign_keys group_id db = (Failed 404 "Group not found", db).
Proof.
  unfold group_exists. intros Hfits Hunknown%bool_decide_eq_false.
  assert (filter (λ g, vg_id g ≠ group_id) (video_groups db) = video_groups db) as Hkept.
  { induction (video_groups db) as [|g gs IH]; [done|].
    rewrite fmap_cons, not_elem_of_cons in Hunknown. destruct Hunknown as [Hg Hgs].
    rewrite filter_cons, decide_True by done. f_equal. by apply IH. }
  unfold delete_group_on, delete_from_video_groups. rewrite Hfits. cbn [negb].
  rewrite Hkept. rewrite decide_False by lia.
  rewrite bool_decide_eq_false_2 by lia. rewrite andb_false_r. by destruct db.
Qed.

(** With foreign keys enforced the cascade leaves no row of the group. *)
Lemma delete_group_cascades_when_enforced group_id db :
  fits_int64 group_id = true →
  group_exists group_id db = true →
  ∃ db',
    delete_group_on true group_id db = (Succeeded 200 "Group deleted successfully" None, db')
    ∧ group_exists group_id db' = false
    ∧ members group_id (group_videos db') = [].
Proof.
  unfold group_exists.
  intros Hfits (g & Hg & Hin)%bool_decide_eq_true%list_elem_of_fmap.
  assert (0 < length (video_groups db)
              - length (filter (λ g, vg_id g ≠ group_id) (video_groups db)))%nat as Hsome.
  { apply (filter_something_removed _ _ g); [done|]. intros Hne. by apply Hne. }
  unfold delete_group_on, delete_from_video_groups. rewrite Hfits. cbn [negb].
  rewrite decide_True by done. rewrite bool_decide_eq_true_2 by done.
  eexists. split; [reflexivity|]. simpl. split.
  - apply bool_decide_eq_false.
    intros (g' & Hg' & [Hne _]%list_elem_of_filter)%list_elem_of_fmap. by apply Hne.
  - unfold members.
    destruct (filter (λ r, gv_group_id r = group_id)
                (filter (λ r, gv_group_id r ≠ group_id) (group_videos db)))
      as [|r rest] eqn:E; [done|]. exfalso.
    assert (r ∈ filter (λ r, gv_group_id r = group_id)
                  (filter (λ r, gv_group_id r ≠ group_id) (group_videos db)))
      as [Heq [Hne _]%list_elem_of_filter]%list_elem_of_filter
      by (rewrite E; apply elem_of_cons; by left).
    by apply Hne.
Qed.

(** On the connection the handler opens, nothing cascades. *)
Lemma delete_group_keeps_members group_id db :
  group_videos (delete_group group_id db).2 = group_videos db.
Proof.
  unfold delete_group, delete_group_on, delete_from_video_groups,
    connection_foreign_keys.
  destruct (negb (fits_int64 group_id)); [done|]. by case_decide.
Qed.

(** C7 fails on [delete_group].  The group row of [Sample.kids_db] is
    deleted and the answer is 200, but the connection does not enforce
    foreign keys, so nothing cascades: both membership rows survive, still
    naming group 1. *)
Theorem delete_group_leaves_members :
  ∃ db',
    Server.delete_group 1 Sample.kids_db
      = (Server.Succeeded 200 "Group deleted successfully" None, db')
    ∧ Server.video_groups db' = []
    ∧ Server.group_videos db' = [Sample.first_member; Sample.second_member]
    ∧ Server.members 1 (Server.group_videos db')
      = [Sample.first_member; Sample.second_member].
Proof. eexists. split; [by vm_compute|]. split; by vm_compute. Qed.

End ServerDeleteGroup.

(** ** The catalog of [backend/server.py] *)

Section BackendFacts.
Import Backend.

(** *** Placeholders *)

Lemma fetch_video_info_failed ydl video_id msg :
  ydl single_opts (watch_url video_id) = Raised msg →
  fetch_video_info ydl video_id = placeholder video_id.
Proof. intros H. unfold fetch_video_info. by rewrite H. Qed.

Lemma fetch_video_info_id ydl video_id :
  vi_video_id (fetch_video_info ydl video_id) = PStr video_id.
Proof. unfold fetch_video_info. by destruct (ydl _ _). Qed.

Lemma manual_videos_map ydl ids :
  manual_videos ydl ids =
    fetch_video_info ydl <$> filter (λ s, s ≠ "") (py_strip <$> ids).
Proof.
  unfold manual_videos. induction ids as [|s ids IH]; [done|].
  rewrite fmap_cons, filter_cons. cbn [omap list_omap]. fold (@omap list _).
  case_bool_decide as Hblank.
  - rewrite decide_False; [exact IH|]. by intros [].
  - rewrite decide_True by done. rewrite fmap_cons. f_equal. exact IH.
Qed.

(** *** The de-duplicating loop *)

(** The rows of a group, in whatever order the query yields them. *)
Lemma group_rows_stored group_id db :
  group_rows group_id db ≡ₚ filter (λ r, v_group_id r = group_id) (videos db).
Proof. apply merge_sort_Permutation. Qed.

Lemma elem_of_group_rows group_id db r :
  r ∈ group_rows group_id db ↔ v_group_id r = group_id ∧ r ∈ videos db.
Proof. by rewrite group_rows_stored, list_elem_of_filter. Qed.

Lemma elem_of_member_ids group_id db video_id :
  video_id ∈ member_ids group_id db
  ↔ video_id ∈ v_video_id <$> filter (λ r, v_group_id r = group_id) (videos db).
Proof. unfold member_ids. by rewrite group_rows_stored. Qed.

Lemma elem_of_existing group_id db video_id :
  PStr video_id ∈ (PStr <$> member_ids group_id db)
  ↔ video_id ∈ member_ids group_id db.
Proof.
  rewrite list_elem_of_fmap. split.
  - by intros (s & [= ->] & Hs).
  - intros Hs. by exists video_id.
Qed.

(** Ids already in the group never enter [new_videos], and [added_count]
    counts exactly the videos gathered. *)
Lemma add_manual_loop ydl ids start :
  let batch := foldl (add_manual ydl) start ids in
  (∀ x, x ∈ existing_ids start → x ∈ existing_ids batch)
  ∧ (added_count batch + length (new_videos start) =
       added_count start + length (new_videos batch))%nat
  ∧ ∀ v, v ∈ new_videos batch →
         v ∈ new_videos start
         ∨ ∃ s, vi_video_id v = PStr s ∧ PStr s ∉ existing_ids start.
Proof.
  revert start. induction ids as [|s ids IH]; intros start; simpl.
  - split; [done|]. split; [lia|]. intros v Hv. by left.
  - specialize (IH (add_manual ydl start s)).
    destruct IH as (Hsub & Hcount & Hnew).
    unfold add_manual in *.
    destruct (negb (bool_decide (py_strip s = ""))
              && negb (bool_decide (PStr (py_strip s) ∈ existing_ids start))) eqn:E;
      simpl in *; [|done].
    apply andb_true_iff in E as [_ Hfresh%negb_true_iff%bool_decide_eq_false].
    rewrite length_app in *. simpl in *.
    split; [|split; [lia|]].
    + intros x Hx. apply Hsub. apply elem_of_app. by left.
    + intros v Hv. destruct (Hnew v Hv) as [[Hold|Hv']%elem_of_app|Hout].
      * by left.
      * apply list_elem_of_singleton in Hv' as ->. right.
        exists (py_strip s). by rewrite fetch_video_info_id.
      * destruct Hout as (s' & Hid & Hout). right. exists s'. split; [done|].
        intros Hin. apply Hout. apply elem_of_app. by left.
Qed.

(** *** Inserts *)

Lemma insert_videos_rows group_id vs db db' :
  insert_videos group_id vs db = Returned db' →
  groups db' = groups db
  ∧ ∃ rows, videos db' = videos db ++ rows
            ∧ length rows = length vs
            ∧ Forall (λ r, v_group_id r = group_id
                           ∧ ∃ v, v ∈ vs ∧ v_video_id r = py_str (vi_video_id v)) rows.
Proof.
  revert db. induction vs as [|v vs IH]; intros db; simpl.
  - intros [= <-]. split; [done|]. exists []. by rewrite app_nil_r.
  - destruct (insert_video group_id v db) as [db1|msg] eqn:E; [|done].
    intros Hrest. destruct (IH _ Hrest) as (Hg & rows & Hrows & Hlen & Hall).
    unfold insert_video in E.
    destruct (negb (video_bindable v)); [done|].
    destruct (rowid_full _ _); [done|].
    repeat case_bool_decide; try done.
    injection E as <-. simpl in *. split; [done|].
    eexists (_ :: rows). rewrite Hrows, <- app_assoc. split; [done|].
    split; [simpl; lia|].
    constructor.
    + simpl. split; [done|]. exists v. split; [apply elem_of_cons; by left|done].
    + eapply Forall_impl; [exact Hall|]. intros r (Hr & w & Hw & Hid).
      split; [done|]. exists w. split; [apply elem_of_cons; by right|done].
Qed.

Lemma membership_rows_one group_id video_id db :
  membership_unique db →
  video_id ∈ member_ids group_id db →
  length (membership_rows group_id video_id db) = 1%nat.
Proof.
  rewrite elem_of_member_ids. unfold membership_unique, membership_rows.
  induction (videos db) as [|r rs IH]; [by intros _ ?%elem_of_nil|].
  rewrite fmap_cons. intros [Hr Hrs]%NoDup_cons.
  rewrite !filter_cons.
  destruct (decide (v_group_id r = group_id)) as [Hg|Hg].
  - rewrite fmap_cons. destruct (decide (v_video_id r = video_id)) as [Hv|Hv].
    + intros _. rewrite decide_True by done. simpl. f_equal.
      destruct (filter (λ r, v_group_id r = group_id ∧ v_video_id r = video_id) rs)
        as [|r' rest] eqn:E; [done|].
      exfalso. apply Hr.
      assert (r' ∈ filter (λ r, v_group_id r = group_id ∧ v_video_id r = video_id) rs)
        as [[Hg' Hv'] Hin]%list_elem_of_filter
        by (rewrite E; apply elem_of_cons; by left).
      assert ((v_group_id r, v_video_id r) = (v_group_id r', v_video_id r')) as ->
        by congruence.
      exact (list_elem_of_fmap_2 (λ r, (v_group_id r, v_video_id r)) rs r' Hin).
    + intros [?|Hin]%elem_of_cons; [done|].
      rewrite decide_False by tauto. by apply IH.
  - intros Hin. rewrite decide_False by tauto. by apply IH.
Qed.

Lemma membership_rows_none group_id video_id db :
  video_id ∉ member_ids group_id db →
  membership_rows group_id video_id db = [].
Proof.
  rewrite elem_of_member_ids. unfold membership_rows. intros Hout.
  destruct (filter (λ r, v_group_id r = group_id ∧ v_video_id r = video_id) (videos db))
    as [|r rest] eqn:E; [done|].
  exfalso. apply Hout.
  assert (r ∈ filter (λ r, v_group_id r = group_id ∧ v_video_id r = video_id) (videos db))
    as [[Hg Hv] Hin]%list_elem_of_filter
    by (rewrite E; apply elem_of_cons; by left).
  rewrite <- Hv. apply list_elem_of_fmap_2. by apply list_elem_of_filter.
Qed.

End BackendFacts.

Section BackendTheorems.
Import Backend.

Lemma gather_manual ydl ids start :
  ids ≠ [] →
  gather_new_videos ydl (manual_body ids) start = inr (foldl (add_manual ydl) start ids).
Proof. intros Hne. unfold gather_new_videos. simpl. by destruct ids. Qed.

(** A manual add answers [VideosAdded] only through the de-duplicating
    loop and the insert loop. *)
Lemma add_videos_to_group_manual ydl group_id ids db n g db' :
  add_videos_to_group ydl group_id (manual_body ids) db = (VideosAdded n g, db') →
  let batch :=
    foldl (add_manual ydl)
      {| existing_ids := PStr <$> member_ids group_id db;
         new_videos := []; added_count := 0 |} ids in
  n = added_count batch
  ∧ insert_videos group_id (new_videos batch) db = Returned db'.
Proof.
  unfold add_videos_to_group.
  destruct (negb (group_exists group_id db)); [done|].
  destruct ids as [|s ids]; [done|].
  rewrite gather_manual by done.
  destruct (insert_videos _ _ db) as [db1|msg]; [|done].
  by intros [= <- _ <-].
Qed.

Lemma add_member_again ydl group_id V db :
  group_exists group_id db = true →
  py_strip V ∈ member_ids group_id db →
  add_videos_to_group ydl group_id (manual_body [V]) db =
    (VideosAdded 0 (load_group group_id db), db).
Proof.
  intros Hgroup Hmember%elem_of_existing. unfold add_videos_to_group.
  rewrite Hgroup, gather_manual by done. simpl. unfold add_manual. simpl.
  rewrite (bool_decide_eq_true_2 _ Hmember), andb_false_r. done.
Qed.

(** What one [INSERT INTO videos] stores. *)
Lemma insert_video_stored group_id video db db' :
  insert_video group_id video db = Returned db' →
  ∃ row,
    groups db' = groups db
    ∧ videos db' = videos db ++ [row]
    ∧ v_group_id row = group_id
    ∧ v_video_id row = py_str (vi_video_id video).
Proof.
  unfold insert_video.
  destruct (negb (video_bindable video)); [done|].
  destruct (rowid_full _ _); [done|].
  repeat case_bool_decide; try done.
  intros [= <-]. eexists. by repeat split.
Qed.

(** The conditions under which one insert goes through. *)
Lemma insert_video_storable group_id video db :
  if video_bindable video
     && negb (rowid_full (seq_videos db) (v_id <$> videos db))
     && negb (bool_decide (vi_video_id video = PNone))
     && negb (bool_decide (vi_title video = PNone))
     && negb (bool_decide (py_str (vi_video_id video) ∈ member_ids group_id db))
  then ∃ db', insert_video group_id video db = Returned db'
  else ∃ msg, insert_video group_id video db = Raised msg.
Proof.
  unfold insert_video.
  destruct (video_bindable video); cbn [negb andb]; [|by eexists].
  destruct (rowid_full _ _); cbn [negb andb]; [by eexists|].
  case_bool_decide; cbn [negb andb]; [by eexists|].
  case_bool_decide; cbn [negb andb]; [by eexists|].
  destruct (decide (py_str (vi_video_id video) ∈ member_ids group_id db)) as [Hin|Hin].
  - rewrite (bool_decide_eq_true_2 _ Hin). cbn [negb].
    rewrite bool_decide_eq_true_2 by (by apply elem_of_member_ids). by eexists.
  - rewrite (bool_decide_eq_false_2 _ Hin). cbn [negb].
    rewrite bool_decide_eq_false_2 by (by rewrite <- elem_of_member_ids). by eexists.
Qed.

(** A manual add of one id that is neither blank nor in the group is one
    lookup and one insert. *)
Lemma add_one_new ydl group_id V db :
  group_exists group_id db = true →
  py_strip V ≠ "" →
  py_strip V ∉ member_ids group_id db →
  add_videos_to_group ydl group_id (manual_body [V]) db =
    match insert_video group_id (fetch_video_info ydl (py_strip V)) db with
    | Returned db' => (VideosAdded 1 (load_group group_id db'), db')
    | Raised msg => (Failed 500 ("Failed to save changes: " +:+ msg), db)
    end.
Proof.
  intros Hgroup Hblank Hfresh. unfold add_videos_to_group.
  rewrite Hgroup, gather_manual by done. simpl. unfold add_manual. simpl.
  rewrite (bool_decide_eq_false_2 _ Hblank).
  rewrite bool_decide_eq_false_2 by (by rewrite elem_of_existing). simpl.
  by destruct (insert_video _ _ db).
Qed.

Lemma add_blank ydl group_id V db :
  group_exists group_id db = true →
  py_strip V = "" →
  add_videos_to_group ydl group_id (manual_body [V]) db =
    (VideosAdded 0 (load_group group_id db), db).
Proof.
  intros Hgroup Hblank. unfold add_videos_to_group.
  rewrite Hgroup, gather_manual by done. simpl. unfold add_manual. simpl.
  by rewrite (bool_decide_eq_true_2 _ Hblank).
Qed.

Lemma added_to_existing_group ydl group_id data db n g db' :
  add_videos_to_group ydl group_id data db = (VideosAdded n g, db') →
  group_exists group_id db = true.
Proof.
  unfold add_videos_to_group. by destruct (group_exists group_id db).
Qed.

(** C3.  In a manual add, a video that is already a member of the group is
    skipped: its membership rows are untouched and [added_count] is the
    number of rows the request stored.  Adding the one id [V] to a group it
    belongs to answers [added_count = 0] and writes nothing.  Hence, once an
    add of [V] to a group has gone through, adding [V] again answers
    [added_count = 0], writes nothing, and the group holds exactly one
    membership row for [V].  An add of one new id to an existing group
    goes through, storing one row and answering [added_count = 1], exactly
    when the database accepts the record the lookup gave: its values fit
    64 bits, a rowid is left and the title is not null; otherwise the
    answer is a 500 and nothing is written.  Ids are compared and stored
    stripped of surrounding whitespace, and a blank id is no video id. *)
Theorem duplicate_membership_skipped :
  (∀ ydl group_id ids V db n g db',
     py_strip V ∈ member_ids group_id db →
     add_videos_to_group ydl group_id (manual_body ids) db = (VideosAdded n g, db') →
     membership_rows group_id (py_strip V) db' = membership_rows group_id (py_strip V) db
     ∧ length (videos db') = (length (videos db) + n)%nat)
  ∧ (∀ ydl group_id V db,
       group_exists group_id db = true →
       py_strip V ∈ member_ids group_id db →
       add_videos_to_group ydl group_id (manual_body [V]) db =
         (VideosAdded 0 (load_group group_id db), db))
  ∧ (∀ ydl1 ydl2 group_id V db n1 g1 db1,
       membership_unique db →
       py_strip V ≠ "" →
       add_videos_to_group ydl1 group_id (manual_body [V]) db = (VideosAdded n1 g1, db1) →
       add_videos_to_group ydl2 group_id (manual_body [V]) db1 =
         (VideosAdded 0 (load_group group_id db1), db1)
       ∧ length (membership_rows group_id (py_strip V) db1) = 1%nat)
  ∧ (∀ ydl group_id V db,
       group_exists group_id db = true →
       py_strip V ≠ "" →
       py_strip V ∉ member_ids group_id db →
       let video := fetch_video_info ydl (py_strip V) in
       if video_bindable video
          && negb (rowid_full (seq_videos db) (v_id <$> videos db))
          && negb (bool_decide (vi_title video = PNone))
       then ∃ row db1,
              add_videos_to_group ydl group_id (manual_body [V]) db =
                (VideosAdded 1 (load_group group_id db1), db1)
              ∧ videos db1 = videos db ++ [row]
              ∧ v_group_id row = group_id
              ∧ v_video_id row = py_strip V
       else ∃ error,
              add_videos_to_group ydl group_id (manual_body [V]) db =
                (Failed 500 error, db))
  ∧ (∀ ydl group_id V db,
       group_exists group_id db = true →
       py_strip V = "" →
       add_videos_to_group ydl group_id (manual_body [V]) db =
         (VideosAdded 0 (load_group group_id db), db)).
Proof.
  split; [|split; [|split; [|split]]].
  - intros ydl group_id ids V db n g db' Hmember Hadd.
    destruct (add_videos_to_group_manual _ _ _ _ _ _ _ Hadd) as [-> Hins].
    destruct (add_manual_loop ydl ids
                {| existing_ids := PStr <$> member_ids group_id db;
                   new_videos := []; added_count := 0 |})
      as (_ & Hcount & Hnew). simpl in Hcount, Hnew.
    destruct (insert_videos_rows _ _ _ _ Hins) as (_ & rows & Hrows & Hlen & Hall).
    split.
    + unfold membership_rows. rewrite Hrows, filter_app.
      assert (filter (λ r, v_group_id r = group_id ∧ v_video_id r = py_strip V) rows = [])
        as ->; [|by rewrite app_nil_r].
      destruct (filter (λ r, v_group_id r = group_id ∧ v_video_id r = py_strip V) rows)
        as [|r rest] eqn:E; [done|]. exfalso.
      assert (r ∈ filter (λ r, v_group_id r = group_id ∧ v_video_id r = py_strip V) rows)
        as [[_ Hv] Hin]%list_elem_of_filter
        by (rewrite E; apply elem_of_cons; by left).
      rewrite Forall_forall in Hall. destruct (Hall r Hin) as (_ & v & Hvin & Hid).
      destruct (Hnew v Hvin) as [?%elem_of_nil|(s & Hs & Hout)]; [done|].
      apply Hout. rewrite Hs in Hid. simpl in Hid. rewrite <- Hid, Hv.
      by apply elem_of_existing.
    + rewrite Hrows, length_app, Hlen. lia.
  - intros ydl group_id V db. apply add_member_again.
  - intros ydl1 ydl2 group_id V db n1 g1 db1 Hunique Hblank Hadd.
    pose proof (added_to_existing_group _ _ _ _ _ _ _ Hadd) as Hgroup.
    destruct (decide (py_strip V ∈ member_ids group_id db)) as [Hmember|Hfresh].
    + rewrite (add_member_again ydl1 _ _ _ Hgroup Hmember) in Hadd.
      injection Hadd as _ _ <-.
      split; [by apply add_member_again|]. by apply membership_rows_one.
    + rewrite (add_one_new ydl1 _ _ _ Hgroup Hblank Hfresh) in Hadd.
      destruct (insert_video group_id (fetch_video_info ydl1 (py_strip V)) db)
        as [db2|msg] eqn:Hins; [|done].
      injection Hadd as _ _ <-.
      destruct (insert_video_stored _ _ _ _ Hins) as (row & Hgroups & Hrows & Hg & Hv).
      rewrite fetch_video_info_id in Hv. simpl in Hv.
      assert (py_strip V ∈ member_ids group_id db2) as Hmember.
      { apply elem_of_member_ids. rewrite Hrows, filter_app, fmap_app.
        apply elem_of_app. right. rewrite filter_cons, decide_True by done.
        rewrite fmap_cons, Hv. apply elem_of_cons. by left. }
      split.
      * apply add_member_again; [|done]. unfold group_exists in *. by rewrite Hgroups.
      * unfold membership_rows. rewrite Hrows, filter_app.
        fold (membership_rows group_id (py_strip V) db).
        rewrite (membership_rows_none _ _ _ Hfresh). simpl.
        rewrite filter_cons, decide_True by done. done.
  - intros ydl group_id V db Hgroup Hblank Hfresh video.
    rewrite (add_one_new ydl _ _ _ Hgroup Hblank Hfresh). fold video.
    pose proof (insert_video_storable group_id video db) as Hstore.
    assert (vi_video_id video = PStr (py_strip V)) as Hid
      by apply fetch_video_info_id.
    rewrite Hid in Hstore. cbn [py_str] in Hstore.
    rewrite (bool_decide_eq_false_2 (PStr (py_strip V) = PNone)) in Hstore by done.
    rewrite (bool_decide_eq_false_2 _ Hfresh) in Hstore.
    cbn [negb] in Hstore. rewrite !andb_true_r in Hstore.
    rewrite <- !andb_assoc. rewrite <- !andb_assoc in Hstore.
    destruct (video_bindable video
              && (negb (rowid_full (seq_videos db) (v_id <$> videos db))
                  && negb (bool_decide (vi_title video = PNone)))).
    + destruct Hstore as (db1 & Hins). rewrite Hins.
      destruct (insert_video_stored _ _ _ _ Hins) as (row & _ & Hrows & Hg & Hv).
      exists row, db1. rewrite Hv, Hid. by repeat split.
    + destruct Hstore as (msg & ->). by eexists.
  - intros ydl group_id V db. apply add_blank.
Qed.

Lemma duplicate_membership_witness :
  ∃ db1,
    Backend.add_videos_to_group Sample.offline "7b0c4a52"
      (Backend.manual_body [" abc123 "]) Sample.empty_group_db
      = (Backend.VideosAdded 1 (Backend.load_group "7b0c4a52" db1), db1)
    ∧ Backend.add_videos_to_group Sample.offline "7b0c4a52"
        (Backend.manual_body [" abc123 "]) db1
      = (Backend.VideosAdded 0 (Backend.load_group "7b0c4a52" db1), db1)
    ∧ length (Backend.membership_rows "7b0c4a52" (Backend.py_strip " abc123 ") db1) = 1%nat.
Proof.
  eexists. split; [reflexivity|].
  refine (proj1 (proj2 (proj2 duplicate_membership_skipped)) Sample.offline Sample.offline
            "7b0c4a52" " abc123 " Sample.empty_group_db 1%nat _ _ _ _ eq_refl).
  - vm_compute. constructor.
  - vm_compute. discriminate.
Defined.

(** C9.  A lookup that raises yields the placeholder record: the id, the
    title 'Unknown Title', the uploader 'Unknown', duration 0 and the
    thumbnail URL built from the id.  The manual loop of [create_group]
    never raises: it yields one record per non-blank id, in order, whatever
    the lookups do.  In the loop of [add_videos_to_group] a new id whose
    lookup raises contributes its placeholder and the loop goes on with the
    ids that follow. *)
Theorem failed_lookup_placeholder ydl :
  (∀ video_id msg,
     ydl single_opts (watch_url video_id) = Raised msg →
     fetch_video_info ydl video_id =
       {| vi_video_id := PStr video_id;
          vi_title := PStr "Unknown Title";
          vi_thumbnail := PStr ("https://i.ytimg.com/vi/" +:+ video_id +:+ "/hqdefault.jpg");
          vi_duration := PInt 0;
          vi_uploader := PStr "Unknown" |})
  ∧ (∀ ids,
       manual_videos ydl ids =
         fetch_video_info ydl <$> filter (λ s, s ≠ "") (py_strip <$> ids))
  ∧ (∀ ids,
       gather_videos ydl (manual_body ids) = Returned (manual_videos ydl ids))
  ∧ (∀ batch video_id rest msg,
       py_strip video_id ≠ "" →
       PStr (py_strip video_id) ∉ existing_ids batch →
       ydl single_opts (watch_url (py_strip video_id)) = Raised msg →
       foldl (add_manual ydl) batch (video_id :: rest) =
         foldl (add_manual ydl)
           {| existing_ids := existing_ids batch ++ [PStr (py_strip video_id)];
              new_videos := new_videos batch ++ [placeholder (py_strip video_id)];
              added_count := S (added_count batch) |}
           rest).
Proof.
  split; [|split; [|split]].
  - intros video_id msg Hfail. by rewrite (fetch_video_info_failed _ _ _ Hfail).
  - apply manual_videos_map.
  - done.
  - intros batch video_id rest msg Hblank Hfresh Hfail. simpl. f_equal.
    unfold add_manual.
    rewrite (bool_decide_eq_false_2 _ Hblank), (bool_decide_eq_false_2 _ Hfresh).
    simpl. by rewrite (fetch_video_info_failed _ _ _ Hfail).
Qed.

Lemma failed_lookup_witness :
  Backend.fetch_video_info Sample.offline "abc123" =
    {| Backend.vi_video_id := PStr "abc123";
       Backend.vi_title := PStr "Unknown Title";
       Backend.vi_thumbnail := PStr "https://i.ytimg.com/vi/abc123/hqdefault.jpg";
       Backend.vi_duration := PInt 0;
       Backend.vi_uploader := PStr "Unknown" |}.
Proof.
  apply (proj1 (failed_lookup_placeholder Sample.offline) "abc123" "network unreachable").
  reflexivity.
Defined.
End BackendTheorems.

Section BackendFailures.
Import Backend.

Lemma backend_delete_video_not_found group_id video_id db :
  (∀ r, r ∈ videos db → ¬ (v_group_id r = group_id ∧ v_video_id r = video_id)) →
  delete_video_from_group group_id video_id db =
    (Failed 404 "Video not found in group", db).
Proof.
  intros Habsent. unfold delete_video_from_group.
  rewrite bool_decide_eq_false_2; [done|].
  rewrite Exists_exists. intros (r & Hr & Hm). by apply (Habsent r).
Qed.

Lemma backend_add_videos_failure_atomic ydl group_id data db status error db' :
  add_videos_to_group ydl group_id data db = (Failed status error, db') → db' = db.
Proof.
  unfold add_videos_to_group.
  destruct (negb (group_exists group_id db)); [by intros [= ]|].
  destruct (gather_new_videos _ _ _) as [resp|batch]; [by intros [= ]|].
  destruct (insert_videos _ _ _); by intros [= ].
Qed.

Lemma backend_create_group_failure_atomic ydl uuid now data db status error db' :
  create_group ydl uuid now data db = (Failed status error, db') → db' = db.
Proof.
  unfold create_group.
  destruct (negb (truthy (name data))); [by intros [= ]|].
  destruct (gather_videos ydl data); [|by intros [= ]].
  destruct (negb (_ && _)); [by intros [= ]|].
  destruct (group_exists uuid db); [by intros [= ]|].
  destruct (insert_videos _ _ _); by intros [= ].
Qed.

End BackendFailures.

(** * Further properties *)

(** ** The cache *)

Lemma video_cache_key_inj a b : video_cache_key a = video_cache_key b → a = b.
Proof. unfold video_cache_key. simpl. by intros [= ]. Qed.

Lemma video_key_not_channel_key v m c : video_cache_key v ≠ channel_cache_key m c.
Proof. unfold video_cache_key, channel_cache_key. simpl. by intros [= ]. Qed.

Lemma cache_hit_insert_ne (cache : Cache) k k' entry now :
  k ≠ k' → cache_hit (<[k := entry]> cache) k' now = cache_hit cache k' now.
Proof. intros Hne. unfold cache_hit. by rewrite lookup_insert_ne. Qed.

(** What [extract_video] can do to the cache: nothing, or one store under
    the key of its video. *)
Lemma extract_video_cache ydl clk video_id (video_cache : Cache) :
  cache_after (extract_video ydl clk video_id video_cache) = video_cache
  ∨ ∃ v payload,
      video_id = Returned v
      ∧ response (extract_video ydl clk video_id video_cache) = Json200 payload
      ∧ resolver_calls (extract_video ydl clk video_id video_cache)
        = [watch_url (py_str v)]
      ∧ cache_after (extract_video ydl clk video_id video_cache)
        = <[video_cache_key (py_str v) := (payload, at_store clk)]> video_cache.
Proof.
  unfold extract_video. destruct video_id as [v|msg]; [|by left].
  destruct (negb (truthy v)); [by left|].
  destruct (cache_hit _ _ _); [by left|].
  destruct (ydl _ _) as [info|msg]; [|by left].
  destruct (truthy (select_video_url info)); [|by left]. right. eauto 10.
Qed.

Section Listing.
Variable py_int : string → outcome Z.

Lemma get_blippi_videos_cache ydl clk max_results_arg channel_index db_channels
    (video_cache : Cache) :
  let reply :=
    get_blippi_videos py_int ydl clk max_results_arg channel_index db_channels
                      video_cache in
  (∃ msg, reply = {| response := FailureJson 500 msg; cache_after := video_cache;
                     resolver_calls := [] |})
  ∨ (∃ payload, reply = {| response := Json200 payload; cache_after := video_cache;
                           resolver_calls := [] |})
  ∨ ∃ max_results cs data,
      from_option py_int (Returned 50) max_results_arg = Returned max_results
      ∧ channels_to_fetch py_int channel_index db_channels = Returned cs
      ∧ cd_videos data =
          py_take max_results (concat (fetched_videos ydl max_results <$> cs))
      ∧ cd_count data = length (cd_videos data)
      ∧ reply =
          {| response := Json200 (ChannelPayload data);
             cache_after :=
               <[channel_cache_key max_results channel_index
                 := (ChannelPayload data, at_store clk)]> video_cache;
             resolver_calls := channel_url <$> cs |}.
Proof.
  intros reply. subst reply. unfold get_blippi_videos.
  destruct (from_option _ _ _) as [max_results|msg]; [|left; eauto].
  destruct (cache_hit _ _ _) as [p|]; [right; left; eauto|].
  destruct (channels_to_fetch _ _ _) as [cs|msg]; [|left; eauto].
  rewrite fetch_channels_unfold. simpl. right. right.
  eexists max_results, cs, _. split; [done|]. split; [done|].
  split; [|split]; [| |reflexivity]; done.
Qed.
End Listing.

(** X1.  clear_cache reports the number of entries the cache held and leaves
    it empty: afterwards no key is a hit at any time, a second clear reports 0
    entries, and extract_video for any non-empty video id goes to the resolver
    again, once, with the watch URL of that video. *)
Theorem clear_cache_forces_lookup ydl clk video_id (video_cache : Cache) :
  truthy video_id = true →
  (clear_cache video_cache).1 = size video_cache
  ∧ (∀ key now, cache_hit (clear_cache video_cache).2 key now = None)
  ∧ (clear_cache (clear_cache video_cache).2).1 = 0%nat
  ∧ resolver_calls
      (extract_video ydl clk (Returned video_id) (clear_cache video_cache).2)
    = [watch_url (py_str video_id)].
Proof.
  intros Hid. simpl. split; [done|]. split; [done|]. split; [apply map_size_empty|].
  rewrite Hid. cbn [negb].
  unfold cache_hit. rewrite lookup_empty.
  destruct (ydl _ _) as [info|msg]; [|done].
  by destruct (truthy (select_video_url info)).
Qed.

Lemma clear_cache_witness :
  (clear_cache Sample.warm_cache).1 = 1%nat
  ∧ resolver_calls (extract_video Sample.offline Sample.clock (Returned (PStr "abc123"))
                                  (clear_cache Sample.warm_cache).2)
    = [watch_url "abc123"].
Proof.
  destruct (clear_cache_forces_lookup Sample.offline Sample.clock (PStr "abc123")
              Sample.warm_cache) as (Hn & _ & _ & Hcall); [done|].
  split; [|exact Hcall]. rewrite Hn. reflexivity.
Defined.

(** X2.  extract_video changes the cache at no key other than the key of the
    video it was asked for (video_<id>); it leaves the whole cache as it was
    unless it answers 200 after a fresh resolution (an answer that is not 200,
    or a request that made no resolver call, stores nothing); and it calls the
    resolver at most once per request. *)
Theorem extract_video_frame ydl clk video_id (video_cache : Cache) :
  let reply := extract_video ydl clk video_id video_cache in
  (∀ k, (∀ v, video_id = Returned v → k ≠ video_cache_key (py_str v)) →
        cache_after reply !! k = video_cache !! k)
  ∧ ((∀ payload, response reply ≠ Json200 payload) → cache_after reply = video_cache)
  ∧ (resolver_calls reply = [] → cache_after reply = video_cache)
  ∧ (length (resolver_calls reply) ≤ 1)%nat.
Proof.
  intros reply. subst reply.
  destruct (extract_video_cache ydl clk video_id video_cache)
    as [Hsame|(v & p & Hv & Hresp & Hcalls & Hput)].
  - rewrite Hsame. split; [done|]. split; [done|]. split; [done|].
    unfold extract_video. destruct video_id as [v|msg]; [|simpl; lia].
    destruct (negb (truthy v)); [simpl; lia|].
    destruct (cache_hit _ _ _); [simpl; lia|].
    destruct (ydl _ _) as [info|msg]; [|simpl; lia].
    destruct (truthy (select_video_url info)); simpl; lia.
  - rewrite Hput, Hcalls, Hresp. split; [|split; [|split]].
    + intros k Hk. rewrite lookup_insert_ne; [done|].
      intros Heq. by apply (Hk v).
    + intros Hnot. by destruct (Hnot p).
    + done.
    + simpl. lia.
Qed.

Lemma extract_video_frame_witness :
  cache_after (extract_video Sample.offline Sample.clock (Returned (PStr "zzz999"))
                             Sample.warm_cache)
  = Sample.warm_cache.
Proof.
  apply (proj1 (proj2 (extract_video_frame Sample.offline Sample.clock
                         (Returned (PStr "zzz999")) Sample.warm_cache))).
  intros payload. vm_compute. discriminate.
Defined.

Lemma py_take_Forall {A} (P : A → Prop) n (l : list A) :
  Forall P l → Forall P (py_take n l).
Proof. intros Hl. unfold py_take. case_decide; by apply Forall_take. Qed.

Lemma omap_length_le {A B} (f : A → option B) (l : list A) :
  (length (omap f l) ≤ length l)%nat.
Proof.
  induction l as [|x l IH]; [done|]. cbn [omap list_omap].
  destruct (f x); simpl in *; lia.
Qed.

Lemma py_take_length {A} n (l : list A) :
  0 ≤ n → (length (py_take n l) ≤ Z.to_nat n)%nat.
Proof.
  intros Hn. unfold py_take. rewrite decide_True by done.
  rewrite length_take. lia.
Qed.

Lemma channel_videos_well_formed max_results info :
  Forall (λ v, truthy (cv_video_id v) = true
               ∧ cv_url v = watch_url (py_str (cv_video_id v)))
         (channel_videos max_results info).
Proof.
  unfold channel_videos. destruct (entries info) as [es|]; [|constructor].
  induction (py_take max_results es) as [|e rest IH]; [constructor|].
  cbn [omap list_omap]. cbv zeta. destruct (truthy _) eqn:E; [|exact IH].
  constructor; [|exact IH]. split; [exact E|done].
Qed.

Lemma fetched_videos_well_formed ydl max_results cs :
  Forall (λ v, truthy (cv_video_id v) = true
               ∧ cv_url v = watch_url (py_str (cv_video_id v)))
         (concat (fetched_videos ydl max_results <$> cs)).
Proof.
  induction cs as [|c cs IH]; [constructor|].
  rewrite fmap_cons. simpl. apply Forall_app. split; [|exact IH].
  unfold fetched_videos. destruct (ydl _ _); [|constructor].
  apply channel_videos_well_formed.
Qed.

Section ListingTheorems.
Variable py_int : string → outcome Z.

(** X3.  get_blippi_videos answers 200, or else 500 with the cache untouched
    and without any resolver call (a max_results or channel value that int()
    rejects, a channel index out of range). It changes the cache at no key but
    its own listing key blippi_channel_<max_results>_<channel>, so every entry
    extract_video has cached for a video is found afterwards exactly as
    before. *)
Theorem listing_cache_frame ydl clk max_results_arg channel_index
    db_channels (video_cache : Cache) :
  let reply :=
    get_blippi_videos py_int ydl clk max_results_arg channel_index db_channels
                      video_cache in
  ((∃ payload, response reply = Json200 payload)
   ∨ ∃ msg, reply = {| response := FailureJson 500 msg; cache_after := video_cache;
                       resolver_calls := [] |})
  ∧ (∀ k, k ≠ channel_cache_key
                (match from_option py_int (Returned 50) max_results_arg with
                 | Returned m => m
                 | Raised _ => 50
                 end) channel_index →
          cache_after reply !! k = video_cache !! k)
  ∧ (∀ video_id now,
       cache_hit (cache_after reply) (video_cache_key video_id) now
       = cache_hit video_cache (video_cache_key video_id) now).
Proof.
  intros reply.
  destruct (get_blippi_videos_cache py_int ydl clk max_results_arg channel_index
              db_channels video_cache)
    as [(msg & Hr)|[(p & Hr)|(m & cs & data & Hm & _ & _ & _ & Hr)]];
    fold reply in Hr; rewrite Hr; simpl.
  - split; [right; eauto|]. by split.
  - split; [left; eauto|]. by split.
  - split; [left; eauto|]. rewrite Hm. split.
    + intros k Hk. by rewrite lookup_insert_ne.
    + intros video_id now. apply cache_hit_insert_ne.
      intros Heq. by apply (video_key_not_channel_key video_id m channel_index).
Qed.

(** X4.  After a listing request that missed the cache and was answered
    (max_results parsed, channel selection valid), a request with the same
    max_results and channel parameters whose cache check comes less than one
    hour after that store is answered with exactly the same payload, makes no
    resolver call and leaves the cache unchanged, whatever the resolver would
    answer now and whatever the channel table has become in the meantime. *)
Theorem listing_served_from_cache ydl ydl' clk clk' max_results_arg channel_index
    db_channels db_channels' (video_cache : Cache) max_results cs :
  from_option py_int (Returned 50) max_results_arg = Returned max_results →
  cache_hit video_cache (channel_cache_key max_results channel_index)
            (at_check clk) = None →
  channels_to_fetch py_int channel_index db_channels = Returned cs →
  at_check clk' - at_store clk < cache_timeout →
  let first :=
    get_blippi_videos py_int ydl clk max_results_arg channel_index db_channels
                      video_cache in
  get_blippi_videos py_int ydl' clk' max_results_arg channel_index db_channels'
                    (cache_after first)
  = {| response := response first; cache_after := cache_after first;
       resolver_calls := [] |}.
Proof.
  intros Hmax Hmiss Hcs Hfresh first.
  assert (∃ p, response first = Json200 p
               ∧ cache_after first
                 = <[channel_cache_key max_results channel_index := (p, at_store clk)]>
                     video_cache) as (p & Hresp & Hcache).
  { subst first. unfold get_blippi_videos.
    rewrite Hmax, Hmiss, Hcs. destruct (fetch_channels _ _ _ _ _). simpl. eauto. }
  rewrite Hresp, Hcache. unfold get_blippi_videos. rewrite Hmax.
  unfold cache_hit at 1. rewrite lookup_insert_eq.
  by rewrite decide_True.
Qed.

(** X5.  On a cache miss with a valid channel selection and max_results >= 0,
    the listing get_blippi_videos answers with holds at most max_results
    videos, its count field is the length of its videos list, and every video
    in it has a truthy video_id and as url the watch URL of that id (entries
    without an id are dropped). *)
Theorem listing_bounds ydl clk max_results_arg channel_index db_channels
    (video_cache : Cache) max_results cs :
  from_option py_int (Returned 50) max_results_arg = Returned max_results →
  cache_hit video_cache (channel_cache_key max_results channel_index)
            (at_check clk) = None →
  channels_to_fetch py_int channel_index db_channels = Returned cs →
  0 ≤ max_results →
  ∃ data,
    response (get_blippi_videos py_int ydl clk max_results_arg channel_index
                db_channels video_cache) = Json200 (ChannelPayload data)
    ∧ cd_count data = length (cd_videos data)
    ∧ (cd_count data ≤ Z.to_nat max_results)%nat
    ∧ Forall (λ v, truthy (cv_video_id v) = true
                   ∧ cv_url v = watch_url (py_str (cv_video_id v)))
             (cd_videos data).
Proof.
  intros Hmax Hmiss Hcs Hpos. unfold get_blippi_videos.
  rewrite Hmax, Hmiss, Hcs, fetch_channels_unfold. simpl.
  eexists. split; [done|]. simpl. split; [done|]. split.
  - by apply py_take_length.
  - apply py_take_Forall, fetched_videos_well_formed.
Qed.

(** X6.  The query value channel=None (the four letters) gets the same cache
    key as a request without a channel parameter, because the key is built
    with an f-string. So, when int('None') raises: if the cache holds a fresh
    listing of all channels for this max_results, the request is answered 200
    with that listing; otherwise it is answered 500 with the message of the
    ValueError, the cache untouched and no resolver call made. *)
Theorem channel_none_alias ydl clk max_results_arg db_channels (video_cache : Cache)
    max_results msg :
  from_option py_int (Returned 50) max_results_arg = Returned max_results →
  py_int "None" = Raised msg →
  let reply :=
    get_blippi_videos py_int ydl clk max_results_arg (Some "None") db_channels
                      video_cache in
  (cache_hit video_cache (channel_cache_key max_results None) (at_check clk) = None →
   reply = {| response := FailureJson 500 msg; cache_after := video_cache;
              resolver_calls := [] |})
  ∧ (∀ payload,
       cache_hit video_cache (channel_cache_key max_results None) (at_check clk)
       = Some payload →
       reply = {| response := Json200 payload; cache_after := video_cache;
                  resolver_calls := [] |}).
Proof.
  intros Hmax Hnone reply. subst reply. unfold get_blippi_videos. rewrite Hmax.
  change (channel_cache_key max_results (Some "None"))
    with (channel_cache_key max_results None).
  split.
  - intros ->. simpl. by rewrite Hnone.
  - by intros payload ->.
Qed.

(** X8.  extract_playlist, once playlist_id has been read: a max_results that
    int() rejects gives 500 with the message of the ValueError even when
    playlist_id is missing (max_results is parsed first) and no resolver call;
    otherwise a falsy playlist_id gives 400 'playlist_id is required' and no
    resolver call; otherwise the resolver is called once with the playlist
    URL, a raising resolver gives 500 with its message, and a returning one
    gives 200 with the playlist_id echoed, count equal to the length of
    videos, at most max_results videos when max_results >= 0, no videos when
    the answer has no 'entries', and every video carrying a truthy id and the
    watch URL of that id. *)
Theorem extract_playlist_answers ydl now playlist_id max_results_arg :
  (∀ msg,
     from_option py_int (Returned 50) max_results_arg = Raised msg →
     extract_playlist py_int ydl now (Returned playlist_id) max_results_arg
     = (PlaylistFailure 500 msg, []))
  ∧ (∀ max_results,
       from_option py_int (Returned 50) max_results_arg = Returned max_results →
       truthy playlist_id = false →
       extract_playlist py_int ydl now (Returned playlist_id) max_results_arg
       = (PlaylistError 400 "playlist_id is required", []))
  ∧ (∀ max_results msg,
       from_option py_int (Returned 50) max_results_arg = Returned max_results →
       truthy playlist_id = true →
       ydl (flat_opts max_results) (playlist_page_url playlist_id) = Raised msg →
       extract_playlist py_int ydl now (Returned playlist_id) max_results_arg
       = (PlaylistFailure 500 msg, [playlist_page_url playlist_id]))
  ∧ (∀ max_results info,
       from_option py_int (Returned 50) max_results_arg = Returned max_results →
       truthy playlist_id = true →
       ydl (flat_opts max_results) (playlist_page_url playlist_id) = Returned info →
       ∃ data,
         extract_playlist py_int ydl now (Returned playlist_id) max_results_arg
         = (PlaylistJson data, [playlist_page_url playlist_id])
         ∧ pd_playlist_id data = playlist_id
         ∧ pd_count data = length (pd_videos data)
         ∧ (0 ≤ max_results → (pd_count data ≤ Z.to_nat max_results)%nat)
         ∧ (entries info = None → pd_videos data = [])
         ∧ Forall (λ v, truthy (pv_video_id v) = true
                        ∧ pv_url v = watch_url (py_str (pv_video_id v)))
                  (pd_videos data)).
Proof.
  split; [|split; [|split]].
  - intros msg Hmax. unfold extract_playlist. by rewrite Hmax.
  - intros m Hmax Hid. unfold extract_playlist. by rewrite Hmax, Hid.
  - intros m msg Hmax Hid Hinfo. unfold extract_playlist.
    by rewrite Hmax, Hid, Hinfo.
  - intros m info Hmax Hid Hinfo. unfold extract_playlist.
    rewrite Hmax, Hid, Hinfo. cbn [negb].
    eexists. split; [reflexivity|]. simpl. split; [done|]. split; [done|].
    unfold playlist_videos. destruct (entries info) as [es|]; simpl.
    2:{ split; [lia|]. split; [done|]. constructor. }
    split; [|split; [done|]].
    + intros Hpos. pose proof (py_take_length m es Hpos) as Hle.
      pose proof (omap_length_le
        (λ entry, if truthy (dict_get entry "id")
                  then Some (playlist_video entry (dict_get entry "id")) else None)
        (py_take m es)).
      lia.
    + clear Hid. induction (py_take m es) as [|e rest IH]; [constructor|].
      cbn [omap list_omap]. cbv zeta.
      destruct (truthy (dict_get e "id")) eqn:E; [|exact IH].
      constructor; [|exact IH]. split; [exact E|done].
Qed.

Lemma channels_to_fetch_listed channel_index db_channels cs :
  channels_to_fetch py_int channel_index db_channels = Returned cs →
  Forall (λ c, c ∈ db_channels) cs.
Proof.
  unfold channels_to_fetch. destruct channel_index as [s|].
  - destruct (py_int s) as [i|msg]; [|done].
    destruct (py_index db_channels i) as [c|] eqn:E; [|done].
    intros [= <-]. apply Forall_singleton.
    unfold py_index in E. repeat case_decide; [| |done];
      by apply list_elem_of_lookup_2 in E.
  - intros [= <-]. by apply Forall_forall.
Qed.

(** X7.  Composition of delete_channel and get_blippi_videos in server.py:
    once delete_channel has run for a channel id, every resolver call of a
    listing request that reads the channels table (in whatever order SQLite
    returns the rows) is for the videos URL of a channel that was in the table
    before and is not the deleted one. *)
Theorem deleted_channel_not_fetched ydl clk max_results_arg channel_index
    channel_id db db_channels (video_cache : Cache) :
  db_channels ≡ₚ ServerReads.listed_channels (Server.delete_channel channel_id db).2 →
  Forall (λ url, ∃ c, c ∈ ServerReads.listed_channels db
                      ∧ c ≠ channel_id ∧ url = channel_url c)
         (resolver_calls
            (get_blippi_videos py_int ydl clk max_results_arg channel_index
               db_channels video_cache)).
Proof.
  intros Hread.
  destruct (get_blippi_videos_cache py_int ydl clk max_results_arg channel_index
              db_channels video_cache)
    as [(msg & ->)|[(p & ->)|(m & cs & data & _ & Hcs & _ & _ & ->)]];
    [constructor|constructor|]. simpl.
  apply channels_to_fetch_listed in Hcs. apply Forall_fmap.
  eapply Forall_impl; [exact Hcs|]. intros c Hc. simpl. exists c.
  simpl in Hc. rewrite Hread in Hc.
  assert ((Server.delete_channel channel_id db).2
          = {| Server.channels :=
                 filter (λ c, Server.ch_channel_id c ≠ channel_id) (Server.channels db);
               Server.video_groups := Server.video_groups db;
               Server.group_videos := Server.group_videos db;
               Server.seq_channels := Server.seq_channels db;
               Server.seq_video_groups := Server.seq_video_groups db;
               Server.seq_group_videos := Server.seq_group_videos db |}) as Hdb
    by (unfold Server.delete_channel; by case_decide).
  rewrite Hdb in Hc. unfold ServerReads.listed_channels in *. simpl in Hc.
  apply list_elem_of_fmap in Hc as (row & -> & Hrow).
  rewrite merge_sort_Permutation in Hrow.
  apply list_elem_of_filter in Hrow as [Hne Hrow].
  split; [|by split]. apply list_elem_of_fmap_2. by rewrite merge_sort_Permutation.
Qed.

End ListingTheorems.

(** ** The database of [server.py] *)

Section StoreInvariant.
Import Server ServerReads.

(** *** Rowids *)

Lemma next_rowid_above seq ids :
  seq < next_rowid seq ids ∧ Forall (λ i, i < next_rowid seq ids) ids.
Proof.
  unfold next_rowid. induction ids as [|i ids [IHs IHi]]; simpl.
  - split; [lia|constructor].
  - split; [lia|]. constructor; [lia|].
    eapply Forall_impl; [exact IHi|]. simpl. intros; lia.
Qed.

Lemma next_rowid_fresh {A} (f : A → Z) seq (l : list A) :
  next_rowid seq (f <$> l) ∉ f <$> l.
Proof.
  destruct (next_rowid_above seq (f <$> l)) as [_ Hall].
  rewrite Forall_forall in Hall. intros Hin. specialize (Hall _ Hin). lia.
Qed.

Lemma bounded_below_next {A} (f : A → Z) seq (l : list A) :
  Forall (λ x, f x ≤ next_rowid seq (f <$> l)) l.
Proof.
  destruct (next_rowid_above seq (f <$> l)) as [_ Hall].
  rewrite Forall_forall in Hall. rewrite Forall_forall. intros x Hx.
  specialize (Hall (f x) (list_elem_of_fmap_2 f l x Hx)). lia.
Qed.

(** *** Members of a group under appends and deletes *)

Lemma members_snoc group_id rows row :
  members group_id (rows ++ [row]) =
    if decide (gv_group_id row = group_id) then members group_id rows ++ [row]
    else members group_id rows.
Proof.
  unfold members. rewrite filter_app, filter_cons, filter_nil.
  case_decide; [done|]. by rewrite app_nil_r.
Qed.

Lemma members_filter_other other (P : GroupVideo → Prop)
    `{!∀ r, Decision (P r)} rows :
  (∀ r, gv_group_id r = other → P r) →
  members other (filter P rows) = members other rows.
Proof.
  intros Hkeep. unfold members. induction rows as [|r rows IH]; [done|].
  rewrite !filter_cons. destruct (decide (P r)) as [Hp|Hp].
  - rewrite filter_cons. case_decide; by rewrite IH.
  - rewrite decide_False; [done|]. intros Hg. by apply Hp, Hkeep.
Qed.

Lemma members_filter_commute group_id (P : GroupVideo → Prop)
    `{!∀ r, Decision (P r)} rows :
  members group_id (filter P rows) = filter P (members group_id rows).
Proof.
  unfold members. induction rows as [|r rows IH]; [done|].
  rewrite !filter_cons.
  destruct (decide (P r)), (decide (gv_group_id r = group_id));
    rewrite ?filter_cons, ?decide_True, ?decide_False by done; by rewrite IH.
Qed.

Lemma first_by_position_snoc rows row :
  rows ≠ [] →
  (∀ r, r ∈ rows → gv_position r < gv_position row) →
  first_by_position (rows ++ [row]) = first_by_position rows.
Proof.
  induction rows as [|x rest IH]; [done|]. intros _ Hbelow.
  destruct rest as [|y rest].
  - simpl. rewrite decide_True; [done|].
    specialize (Hbelow x). rewrite list_elem_of_singleton in Hbelow.
    specialize (Hbelow eq_refl). by left.
  - change ((x :: y :: rest) ++ [row]) with (x :: ((y :: rest) ++ [row])).
    cbn [first_by_position]. rewrite IH; [done|done|].
    intros r Hr. apply Hbelow. apply elem_of_cons. by right.
Qed.

Lemma StronglySorted_filter {A} (R : relation A) (P : A → Prop)
    `{!∀ x, Decision (P x)} (l : list A) :
  StronglySorted R l → StronglySorted R (filter P l).
Proof.
  induction 1 as [|x l Hl IH Hx]; [constructor|].
  rewrite filter_cons. case_decide; [|done].
  constructor; [done|]. rewrite Forall_forall in *.
  intros y [_ Hy]%list_elem_of_filter. by apply Hx.
Qed.

Lemma StronglySorted_snoc_above {A} (R : relation A) (l : list A) x :
  StronglySorted R l → Forall (λ y, R y x) l → StronglySorted R (l ++ [x]).
Proof.
  intros Hl Hx. apply StronglySorted_app_2; [|done|repeat constructor].
  intros y z Hy ->%list_elem_of_singleton. rewrite Forall_forall in Hx. by apply Hx.
Qed.

(** *** The effect of each handler *)

Lemma add_channel_effect now data db :
  let db' := (add_channel now data db).2 in
  db' = db
  ∨ ∃ row,
      ch_id row = next_rowid (seq_channels db) (ch_id <$> channels db)
      ∧ (ch_channel_id row ∉ ch_channel_id <$> channels db)
      ∧ db' = {| channels := channels db ++ [row];
                 video_groups := video_groups db;
                 group_videos := group_videos db;
                 seq_channels := next_rowid (seq_channels db) (ch_id <$> channels db);
                 seq_video_groups := seq_video_groups db;
                 seq_group_videos := seq_group_videos db |}.
Proof.
  unfold add_channel. destruct (no_data data); [by left|].
  destruct (negb _ || negb _); [by left|].
  destruct (negb (_ && _)); [by left|].
  destruct (rowid_full _ _); [by left|].
  case_bool_decide; [by left|]. right.
  eexists. split; [|split; [|reflexivity]]; simpl; done.
Qed.

Lemma create_group_effect now data db :
  let db' := (create_group now data db).2 in
  db' = db
  ∨ ∃ row,
      vg_id row = next_rowid (seq_video_groups db) (vg_id <$> video_groups db)
      ∧ vg_thumbnail row = Some ""
      ∧ db' = {| channels := channels db;
                 video_groups := video_groups db ++ [row];
                 group_videos := group_videos db;
                 seq_channels := seq_channels db;
                 seq_video_groups :=
                   next_rowid (seq_video_groups db) (vg_id <$> video_groups db);
                 seq_group_videos := seq_group_videos db |}.
Proof.
  unfold create_group. destruct (no_data data); [by left|].
  destruct (negb (truthy _)); [by left|].
  destruct (negb (_ && _)); [by left|].
  destruct (rowid_full _ _); [by left|]. right.
  eexists. split; [|split; [|reflexivity]]; simpl; done.
Qed.

Lemma add_video_effect now group_id data db :
  let db' := (add_video_to_group now group_id data db).2 in
  db' = db
  ∨ (group_exists group_id db = true
     ∧ ∃ row,
         gv_group_id row = group_id
         ∧ gv_position row = next_position group_id db
         ∧ gv_id row = next_rowid (seq_group_videos db) (gv_id <$> group_videos db)
         ∧ db' = {| channels := channels db;
                    video_groups :=
                      if decide (next_position group_id db = 1)
                      then set_thumbnail group_id (gv_video_thumbnail row)
                                         (video_groups db)
                      else video_groups db;
                    group_videos := group_videos db ++ [row];
                    seq_channels := seq_channels db;
                    seq_video_groups := seq_video_groups db;
                    seq_group_videos :=
                      next_rowid (seq_group_videos db) (gv_id <$> group_videos db) |}).
Proof.
  unfold add_video_to_group. destruct (no_data data); [by left|].
  destruct (negb _ || negb _); [by left|].
  destruct (negb (fits_int64 group_id)); [by left|].
  destruct (group_exists group_id db) eqn:Hg; cbn [negb]; [|by left].
  destruct (negb (_ && _)); [by left|].
  destruct (rowid_full _ _); [by left|].
  case_bool_decide; [by left|].
  right. split; [done|].
  eexists (Build_GroupVideo _ _ _ _ _ _ _). simpl.
  split; [|split; [|split; [|reflexivity]]]; done.
Qed.

End StoreInvariant.

Section StoreInvariantKept.
Import Server ServerReads.

(** Project the fields of a database written out as a record. *)
Ltac db_fields :=
  cbn [fst snd channels video_groups group_videos
       seq_channels seq_video_groups seq_group_videos].

Lemma NoDup_snoc_fresh {A B} (f : A → B) (l : list A) x :
  NoDup (f <$> l) → f x ∉ f <$> l → NoDup (f <$> (l ++ [x])).
Proof.
  intros Hl Hx. rewrite fmap_app. apply NoDup_app. split; [done|].
  split; [|apply NoDup_singleton].
  intros y Hy ->%list_elem_of_singleton. by apply Hx.
Qed.

Lemma set_thumbnail_ids group_id thumbnail groups :
  vg_id <$> set_thumbnail group_id thumbnail groups = vg_id <$> groups.
Proof.
  unfold set_thumbnail. rewrite <- list_fmap_compose. apply list_fmap_ext.
  intros i g _. simpl. by case_decide.
Qed.

Lemma Forall_filter_keep {A} (P Q : A → Prop) `{!∀ x, Decision (Q x)} (l : list A) :
  Forall P l → Forall P (filter Q l).
Proof.
  rewrite !Forall_forall. intros Hl x [_ Hx]%list_elem_of_filter. by apply Hl.
Qed.

Lemma members_empty_above group_id seq rows :
  Forall (λ r, gv_group_id r ≤ seq) rows → seq < group_id →
  members group_id rows = [].
Proof.
  intros Hrows Hseq. unfold members.
  induction Hrows as [|r rows Hr _ IH]; [done|].
  rewrite filter_cons, decide_False by lia. exact IH.
Qed.

Lemma existing_group_bounded group_id db :
  keys_bounded db → group_exists group_id db = true →
  group_id ≤ seq_video_groups db.
Proof.
  intros (_ & Hg & _) (g & -> & Hin)%bool_decide_eq_true%list_elem_of_fmap.
  rewrite Forall_forall in Hg. by apply Hg.
Qed.

(** *** Rowids stay below their counters *)

Lemma handle_keys_bounded foreign_keys req db :
  keys_bounded db → keys_bounded (handle foreign_keys req db).2.
Proof.
  intros Hb. pose proof Hb as (Hc & Hg & Hr & Hrg).
  destruct req as [now data|cid|now data|now gid data|gid|gid vid]; simpl.
  - destruct (add_channel_effect now data db) as [->|(row & Hid & _ & ->)]; [done|].
    unfold keys_bounded. simpl. split; [|done].
    apply Forall_app. split; [apply bounded_below_next|].
    apply Forall_singleton. lia.
  - unfold delete_channel. case_decide; simpl;
      (split; [by apply Forall_filter_keep|done]).
  - destruct (create_group_effect now data db) as [->|(row & Hid & _ & ->)]; [done|].
    destruct (next_rowid_above (seq_video_groups db) (vg_id <$> video_groups db))
      as [Hseq _].
    unfold keys_bounded. simpl. split; [done|]. split; [|split; [done|]].
    + apply Forall_app. split; [apply bounded_below_next|].
      apply Forall_singleton. lia.
    + eapply Forall_impl; [exact Hrg|]. simpl. intros; lia.
  - destruct (add_video_effect now gid data db)
      as [->|(Hex & row & Hgr & _ & Hid & ->)]; [done|].
    pose proof (existing_group_bounded _ _ Hb Hex) as Hle.
    unfold keys_bounded. simpl. split; [done|]. split; [|split].
    + case_decide; [|done]. unfold set_thumbnail. apply Forall_fmap.
      eapply Forall_impl; [exact Hg|]. intros g Hle'. simpl. by case_decide.
    + apply Forall_app. split; [apply bounded_below_next|].
      apply Forall_singleton. lia.
    + apply Forall_app. split; [done|]. apply Forall_singleton. lia.
  - unfold delete_group_on, delete_from_video_groups.
    destruct (negb (fits_int64 gid)); [done|].
    case_decide; simpl;
      (split; [done|]; split; [by apply Forall_filter_keep|];
       destruct (foreign_keys && _); split; try done; by apply Forall_filter_keep).
  - unfold delete_video_from_group.
    destruct (negb (_ && _)); [done|].
    case_decide; simpl;
      (split; [done|]; split;
       [unfold set_thumbnail; apply Forall_fmap;
        eapply Forall_impl; [exact Hg|]; intros g Hle'; simpl; by case_decide|];
       split; by apply Forall_filter_keep).
Qed.

(** *** Primary keys stay unique *)

Lemma handle_keys_unique foreign_keys req db :
  keys_unique db → keys_unique (handle foreign_keys req db).2.
Proof.
  intros (Hc & Hcc & Hg & Hr).
  destruct req as [now data|cid|now data|now gid data|gid|gid vid]; simpl.
  - destruct (add_channel_effect now data db) as [->|(row & Hid & Hfresh & ->)]; [done|].
    unfold keys_unique. simpl. split; [|split; [|done]].
    + apply NoDup_snoc_fresh; [done|]. rewrite Hid. apply next_rowid_fresh.
    + by apply NoDup_snoc_fresh.
  - unfold delete_channel. case_decide; simpl;
      (split; [by apply NoDup_fmap_filter|]; split; [by apply NoDup_fmap_filter|done]).
  - destruct (create_group_effect now data db) as [->|(row & Hid & _ & ->)]; [done|].
    unfold keys_unique. simpl. split; [done|]. split; [done|]. split; [|done].
    apply NoDup_snoc_fresh; [done|]. rewrite Hid. apply next_rowid_fresh.
  - destruct (add_video_effect now gid data db)
      as [->|(Hex & row & _ & _ & Hid & ->)]; [done|].
    unfold keys_unique. db_fields. split; [done|]. split; [done|]. split.
    + case_decide; [|done]. by rewrite set_thumbnail_ids.
    + apply NoDup_snoc_fresh; [done|]. rewrite Hid. apply next_rowid_fresh.
  - unfold delete_group_on, delete_from_video_groups.
    destruct (negb (fits_int64 gid)); [done|].
    case_decide; simpl;
      (split; [done|]; split; [done|]; split; [by apply NoDup_fmap_filter|];
       destruct (foreign_keys && _); try done; by apply NoDup_fmap_filter).
  - unfold delete_video_from_group.
    destruct (negb (_ && _)); [done|].
    case_decide; unfold keys_unique; db_fields;
      (split; [done|]; split; [done|]; split;
       [by rewrite set_thumbnail_ids|by apply NoDup_fmap_filter]).
Qed.

(** *** Rows of a group stay in the order of their positions *)

Lemma handle_stored_in_order foreign_keys req db :
  stored_in_order db → stored_in_order (handle foreign_keys req db).2.
Proof.
  intros Ho.
  destruct req as [now data|cid|now data|now gid data|gid|gid vid]; simpl.
  - by destruct (add_channel_effect now data db) as [->|(row & _ & _ & ->)].
  - unfold delete_channel. by case_decide.
  - by destruct (create_group_effect now data db) as [->|(row & _ & _ & ->)].
  - destruct (add_video_effect now gid data db)
      as [->|(_ & row & Hgr & Hp & _ & ->)]; [done|].
    intros g. simpl. rewrite members_snoc. case_decide as Hsame; [|apply Ho].
    apply StronglySorted_snoc_above; [apply Ho|].
    rewrite Forall_forall. intros r Hin. rewrite Hp. subst g. rewrite Hgr in Hin.
    by apply next_position_above.
  - unfold delete_group_on, delete_from_video_groups.
    assert (stored_in_order
              {| channels := channels db;
                 video_groups := filter (λ g, vg_id g ≠ gid) (video_groups db);
                 group_videos :=
                   if foreign_keys
                      && bool_decide
                           (0 < length (video_groups db)
                                - length (filter (λ g, vg_id g ≠ gid) (video_groups db)))%nat
                   then filter (λ r, gv_group_id r ≠ gid) (group_videos db)
                   else group_videos db;
                 seq_channels := seq_channels db;
                 seq_video_groups := seq_video_groups db;
                 seq_group_videos := seq_group_videos db |}) as Hdone.
    { intros g. simpl. destruct (foreign_keys && _); [|apply Ho].
      rewrite members_filter_commute. apply StronglySorted_filter, Ho. }
    destruct (negb (fits_int64 gid)); [done|]. by case_decide.
  - unfold delete_video_from_group.
    assert (∀ groups,
              stored_in_order
                {| channels := channels db;
                   video_groups := groups;
                   group_videos :=
                     filter (λ r, ¬ (gv_group_id r = gid ∧ gv_id r = vid))
                            (group_videos db);
                   seq_channels := seq_channels db;
                   seq_video_groups := seq_video_groups db;
                   seq_group_videos := seq_group_videos db |}) as Hdone.
    { intros groups g. simpl. rewrite members_filter_commute.
      apply StronglySorted_filter, Ho. }
    destruct (negb (_ && _)); [done|]. case_decide; apply Hdone.
Qed.

End StoreInvariantKept.

Section ThumbnailsKept.
Import Server ServerReads.

Ltac db_fields :=
  cbn [fst snd channels video_groups group_videos
       seq_channels seq_video_groups seq_group_videos].

Lemma derived_same group_id db db' :
  members group_id (group_videos db') = members group_id (group_videos db) →
  derived_thumbnail group_id db' = derived_thumbnail group_id db.
Proof. intros H. unfold derived_thumbnail. by rewrite H. Qed.

Lemma thumbnails_derived_same_rows db db' :
  video_groups db' = video_groups db →
  group_videos db' = group_videos db →
  thumbnails_derived db → thumbnails_derived db'.
Proof.
  intros Hg Hr Hd. unfold thumbnails_derived in *. rewrite Hg.
  eapply Forall_impl; [exact Hd|]. intros g ->. simpl.
  symmetry. apply derived_same. by rewrite Hr.
Qed.

(** Groups that survive a delete of rows of another group keep their
    derived thumbnail. *)
Lemma thumbnails_derived_other_rows db db' gid (P : GroupVideo → Prop)
    `{!∀ r, Decision (P r)} groups :
  group_videos db' = filter P (group_videos db) →
  (∀ r, gv_group_id r ≠ gid → P r) →
  Forall (λ g, vg_thumbnail g = derived_thumbnail (vg_id g) db) groups →
  Forall (λ g, vg_id g ≠ gid → vg_thumbnail g = derived_thumbnail (vg_id g) db') groups.
Proof.
  intros Hrows Hkeep Hd. eapply Forall_impl; [exact Hd|].
  intros g Hg Hne. simpl in *. rewrite Hg. symmetry. apply derived_same.
  rewrite Hrows. apply members_filter_other. intros r Hr. apply Hkeep. congruence.
Qed.

Lemma handle_thumbnails foreign_keys req db :
  catalog_invariant db → keys_bounded db → thumbnails_derived db →
  thumbnails_derived (handle foreign_keys req db).2.
Proof.
  intros (Hv & _ & _) Hb Hd.
  destruct req as [now data|cid|now data|now gid data|gid|gid vid]; simpl.
  - destruct (add_channel_effect now data db) as [->|(row & _ & _ & ->)]; [done|].
    by apply (thumbnails_derived_same_rows db).
  - apply (thumbnails_derived_same_rows db); [| |done];
      unfold delete_channel; by case_decide.
  - destruct (create_group_effect now data db) as [->|(row & Hid & Hthumb & ->)]; [done|].
    unfold thumbnails_derived. db_fields. apply Forall_app. split.
    + eapply Forall_impl; [exact Hd|]. by intros g ->.
    + apply Forall_singleton. rewrite Hthumb. unfold derived_thumbnail. db_fields.
      destruct Hb as (_ & _ & _ & Hrg).
      rewrite (members_empty_above _ (seq_video_groups db)); [done|done|].
      rewrite Hid. apply next_rowid_above.
  - destruct (add_video_effect now gid data db)
      as [->|(Hex & row & Hgr & Hp & _ & ->)]; [done|].
    unfold thumbnails_derived. db_fields.
    destruct (decide (members gid (group_videos db) = [])) as [Hnone|Hsome].
    + rewrite (next_position_empty _ _ Hnone), decide_True by done.
      unfold set_thumbnail. apply Forall_fmap.
      eapply Forall_impl; [exact Hd|]. intros g Hg. simpl.
      unfold derived_thumbnail. db_fields. rewrite members_snoc.
      destruct (decide (vg_id g = gid)) as [->|Hne]; simpl.
      * rewrite decide_True by done. by rewrite Hnone.
      * rewrite decide_False by congruence. exact Hg.
    + destruct (next_position_after_top _ _ Hsome) as (top & Htop & _ & Hnext).
      assert (next_position gid db ≠ 1) as Hnot.
      { apply elem_of_members in Htop as [_ Htop].
        unfold positions_valid in Hv. rewrite Forall_forall in Hv.
        specialize (Hv top Htop). lia. }
      rewrite decide_False by done.
      eapply Forall_impl; [exact Hd|]. intros g Hg. simpl.
      unfold derived_thumbnail. db_fields. rewrite members_snoc.
      destruct (decide (gv_group_id row = vg_id g)) as [Hsame|Hne]; [|exact Hg].
      subst gid.
      rewrite first_by_position_snoc; [exact Hg|by rewrite <- Hsame|].
      intros r Hr. rewrite Hp. apply next_position_above. by rewrite Hsame.
  - unfold delete_group_on, delete_from_video_groups.
    assert (thumbnails_derived
              {| channels := channels db;
                 video_groups := filter (λ g, vg_id g ≠ gid) (video_groups db);
                 group_videos :=
                   if foreign_keys
                      && bool_decide
                           (0 < length (video_groups db)
                                - length (filter (λ g, vg_id g ≠ gid) (video_groups db)))%nat
                   then filter (λ r, gv_group_id r ≠ gid) (group_videos db)
                   else group_videos db;
                 seq_channels := seq_channels db;
                 seq_video_groups := seq_video_groups db;
                 seq_group_videos := seq_group_videos db |}) as Hdone.
    { unfold thumbnails_derived. db_fields.
      destruct (foreign_keys && _).
      - rewrite Forall_forall. intros g [Hne Hin]%list_elem_of_filter.
        pose proof (thumbnails_derived_other_rows db
                      {| channels := channels db; video_groups := [];
                         group_videos := filter (λ r, gv_group_id r ≠ gid) (group_videos db);
                         seq_channels := 0; seq_video_groups := 0;
                         seq_group_videos := 0 |}
                      gid (λ r, gv_group_id r ≠ gid) (video_groups db)
                      eq_refl (λ r H, H) Hd) as Hall.
        rewrite Forall_forall in Hall. exact (Hall g Hin Hne).
      - apply Forall_filter_keep. eapply Forall_impl; [exact Hd|]. by intros g ->. }
    destruct (negb (fits_int64 gid)); [done|]. by case_decide.
  - unfold delete_video_from_group.
    set (kept := filter (λ r, ¬ (gv_group_id r = gid ∧ gv_id r = vid)) (group_videos db)).
    assert (thumbnails_derived
              {| channels := channels db;
                 video_groups :=
                   set_thumbnail gid
                     (match first_by_position (members gid kept) with
                      | Some r => gv_video_thumbnail r
                      | None => Some ""
                      end) (video_groups db);
                 group_videos := kept;
                 seq_channels := seq_channels db;
                 seq_video_groups := seq_video_groups db;
                 seq_group_videos := seq_group_videos db |}) as Hdone.
    { unfold thumbnails_derived. db_fields. unfold set_thumbnail. apply Forall_fmap.
      pose proof (thumbnails_derived_other_rows db
                    {| channels := channels db; video_groups := [];
                       group_videos := kept;
                       seq_channels := 0; seq_video_groups := 0;
                       seq_group_videos := 0 |}
                    gid (λ r, ¬ (gv_group_id r = gid ∧ gv_id r = vid))
                    (video_groups db) eq_refl) as Hall.
      eapply Forall_impl; [apply Hall; [|exact Hd]|].
      - intros r Hne [Hg _]. by apply Hne.
      - intros g Hg. simpl. case_decide as Hsame.
        + simpl. unfold derived_thumbnail. db_fields. by rewrite Hsame.
        + unfold derived_thumbnail in *. db_fields. simpl in Hg. by apply Hg. }
    destruct (negb (_ && _)); [done|]. by case_decide.
Qed.

(** *** The whole invariant *)

Lemma handle_store_invariant foreign_keys req db :
  store_invariant db → store_invariant (handle foreign_keys req db).2.
Proof.
  intros (Hc & Hb & Hu & Hd & Ho).
  split; [by apply handle_invariant|].
  split; [by apply handle_keys_bounded|].
  split; [by apply handle_keys_unique|].
  split; [by apply handle_thumbnails|by apply handle_stored_in_order].
Qed.

Lemma init_db_store_invariant now : store_invariant (init_db now).
Proof.
  split; [apply init_db_invariant|].
  split; [|split; [|split]].
  - unfold keys_bounded. simpl.
    split; [|by split; [|split]].
    apply Forall_cons. split; [simpl; lia|].
    apply Forall_cons. split; [simpl; lia|done].
  - unfold keys_unique. simpl.
    split; [|split; [|split; apply NoDup_nil_2]].
    + apply NoDup_cons. split; [|apply NoDup_singleton].
      by intros ?%list_elem_of_singleton.
    + apply NoDup_cons. split; [|apply NoDup_singleton].
      by intros ?%list_elem_of_singleton.
  - constructor.
  - intros g. constructor.
Qed.

Lemma serve_store_invariant foreign_keys reqs db :
  store_invariant db → store_invariant (serve foreign_keys reqs db).
Proof.
  revert db. induction reqs as [|req reqs IH]; intros db Hinv; [done|].
  apply IH. by apply handle_store_invariant.
Qed.

Lemma init_db_on_new now :
  init_db_on now
    {| channels := []; video_groups := []; group_videos := [];
       seq_channels := 0; seq_video_groups := 0; seq_group_videos := 0 |}
  = init_db now.
Proof. reflexivity. Qed.

Lemma init_db_on_store_invariant now db :
  store_invariant db → store_invariant (init_db_on now db).
Proof.
  intros (Hc & Hb & Hu & Hd & Ho). unfold init_db_on.
  destruct (channels db) as [|c cs] eqn:Hch; [|done].
  destruct (rowid_full _ _ || rowid_full _ _); [done|].
  split; [by apply (same_rows_invariant db)|].
  destruct Hb as (_ & Hgb & Hrb & Hrg). destruct Hu as (_ & _ & Hgu & Hru).
  split; [|split; [|split]].
  - unfold keys_bounded. db_fields. split; [|done].
    unfold next_rowid. simpl.
    apply Forall_cons. split; [simpl; lia|].
    apply Forall_cons. split; [simpl; lia|done].
  - unfold keys_unique. db_fields. split; [|split; [|done]].
    + simpl. apply NoDup_cons. split; [|apply NoDup_singleton].
      intros ?%list_elem_of_singleton. unfold next_rowid in *. simpl in *. lia.
    + simpl. apply NoDup_cons. split; [|apply NoDup_singleton].
      by intros ?%list_elem_of_singleton.
  - by apply (thumbnails_derived_same_rows db).
  - exact Ho.
Qed.

(** Every state of the database satisfies the invariant. *)
Lemma reachable_store_invariant db : reachable db → store_invariant db.
Proof.
  induction 1 as [now|foreign_keys req db _ IH|now db _ IH].
  - apply init_db_store_invariant.
  - by apply handle_store_invariant.
  - by apply init_db_on_store_invariant.
Qed.

Lemma serve_reachable foreign_keys reqs db :
  reachable db → reachable (serve foreign_keys reqs db).
Proof.
  revert db. induction reqs as [|req reqs IH]; intros db Hdb; [done|].
  apply IH. by constructor.
Qed.

End ThumbnailsKept.

Section KeysFit.
Import Server ServerReads.

Ltac db_fields :=
  cbn [fst snd channels video_groups group_videos
       seq_channels seq_video_groups seq_group_videos].

Lemma rowid_room seq ids : rowid_full seq ids = false → next_rowid seq ids ≤ INT64_MAX.
Proof. intros H%bool_decide_eq_false. lia. Qed.

Lemma next_rowid_positive seq ids : 0 ≤ seq → 1 ≤ next_rowid seq ids.
Proof. intros Hseq. destruct (next_rowid_above seq ids) as [Hs _]. lia. Qed.

Lemma existing_group_positive group_id db :
  keys_fit db → group_exists group_id db = true → 1 ≤ group_id.
Proof.
  intros (_ & _ & Hg & _) (g & -> & Hin)%bool_decide_eq_true%list_elem_of_fmap.
  rewrite Forall_forall in Hg. by apply Hg.
Qed.

(** *** Keys stay within the rowids of SQLite *)

Lemma handle_keys_fit foreign_keys req db :
  keys_fit db → keys_fit (handle foreign_keys req db).2.
Proof.
  intros Hfit. pose proof Hfit as ((Hsc & Hsg & Hsr) & Hc & Hg & Hr).
  destruct req as [now data|cid|now data|now gid data|gid|gid vid]; simpl.
  - unfold add_channel. destruct (no_data data); [done|].
    destruct (negb _ || negb _); [done|].
    destruct (negb (_ && _)); [done|].
    destruct (rowid_full _ _) eqn:Hroom; [done|].
    case_bool_decide; [done|].
    apply rowid_room in Hroom.
    pose proof (next_rowid_positive _ (ch_id <$> channels db) (proj1 Hsc)) as Hpos.
    unfold keys_fit. db_fields. split; [lia|]. split; [|done].
    apply Forall_app. split; [done|]. by apply Forall_singleton.
  - unfold delete_channel. case_decide; unfold keys_fit; db_fields;
      (split; [done|]; split; [by apply Forall_filter_keep|done]).
  - unfold create_group. destruct (no_data data); [done|].
    destruct (negb (truthy _)); [done|].
    destruct (negb (_ && _)); [done|].
    destruct (rowid_full _ _) eqn:Hroom; [done|].
    apply rowid_room in Hroom.
    pose proof (next_rowid_positive _ (vg_id <$> video_groups db) (proj1 Hsg)) as Hpos.
    unfold keys_fit. db_fields. split; [lia|]. split; [done|]. split; [|done].
    apply Forall_app. split; [done|]. by apply Forall_singleton.
  - unfold add_video_to_group. destruct (no_data data); [done|].
    destruct (negb _ || negb _); [done|].
    destruct (negb (fits_int64 gid)); [done|].
    destruct (group_exists gid db) eqn:Hex; cbn [negb]; [|done].
    destruct (negb (_ && _)); [done|].
    destruct (rowid_full _ _) eqn:Hroom; [done|].
    case_bool_decide; [done|].
    apply rowid_room in Hroom.
    pose proof (next_rowid_positive _ (gv_id <$> group_videos db) (proj1 Hsr)) as Hpos.
    pose proof (existing_group_positive _ _ Hfit Hex) as Hgid.
    unfold keys_fit. db_fields. split; [lia|]. split; [done|]. split.
    + case_decide; [|done]. unfold set_thumbnail. apply Forall_fmap.
      eapply Forall_impl; [exact Hg|]. intros g Hle. simpl. by case_decide.
    + apply Forall_app. split; [done|]. by apply Forall_singleton.
  - unfold delete_group_on, delete_from_video_groups.
    destruct (negb (fits_int64 gid)); [done|].
    case_decide; unfold keys_fit; db_fields;
      (split; [done|]; split; [done|]; split; [by apply Forall_filter_keep|];
       destruct (foreign_keys && _); try done; by apply Forall_filter_keep).
  - unfold delete_video_from_group.
    destruct (negb (_ && _)); [done|].
    case_decide; unfold keys_fit; db_fields;
      (split; [done|]; split; [done|]; split;
       [unfold set_thumbnail; apply Forall_fmap;
        eapply Forall_impl; [exact Hg|]; intros g Hle; simpl; by case_decide
       |by apply Forall_filter_keep]).
Qed.

Lemma init_db_keys_fit now : keys_fit (init_db now).
Proof.
  unfold keys_fit, INT64_MAX. simpl. split; [lia|].
  split; [|by split].
  apply Forall_cons. split; [simpl; lia|].
  apply Forall_cons. split; [simpl; lia|done].
Qed.

Lemma init_db_on_keys_fit now db : keys_fit db → keys_fit (init_db_on now db).
Proof.
  intros Hfit. pose proof Hfit as ((Hsc & Hsg & Hsr) & Hc & Hg & Hr).
  unfold init_db_on. destruct (channels db) as [|c cs]; [|done].
  destruct (rowid_full _ _ || rowid_full _ _) eqn:Hfull; [done|].
  apply orb_false_iff in Hfull as [_ Hroom%rowid_room].
  unfold next_rowid in *. simpl in Hroom.
  unfold keys_fit. db_fields. split; [simpl; lia|]. split; [|done].
  apply Forall_cons. split; [simpl; lia|].
  apply Forall_cons. split; [simpl; lia|done].
Qed.

(** Every state of the database keeps its keys within 64 bits. *)
Lemma reachable_keys_fit db : reachable db → keys_fit db.
Proof.
  induction 1 as [now|foreign_keys req db _ IH|now db _ IH].
  - apply init_db_keys_fit.
  - by apply handle_keys_fit.
  - by apply init_db_on_keys_fit.
Qed.

(** The rowid and the group id of a stored membership row can be bound. *)
Lemma stored_row_fits db r :
  reachable db → r ∈ group_videos db →
  fits_int64 (gv_group_id r) = true ∧ fits_int64 (gv_id r) = true.
Proof.
  intros Hdb Hin.
  pose proof (reachable_keys_fit _ Hdb) as ((_ & Hsg & Hsr) & _ & _ & Hr).
  pose proof (reachable_store_invariant _ Hdb) as (_ & Hb & _).
  destruct Hb as (_ & _ & Hrb & Hrg).
  rewrite Forall_forall in Hr, Hrb, Hrg.
  specialize (Hr r Hin). specialize (Hrb r Hin). specialize (Hrg r Hin).
  unfold fits_int64, INT64_MIN. simpl in *.
  split; apply bool_decide_eq_true; lia.
Qed.

Lemma existing_group_fits db group_id :
  reachable db → group_exists group_id db = true → fits_int64 group_id = true.
Proof.
  intros Hdb Hex.
  pose proof (reachable_keys_fit _ Hdb) as Hfit.
  pose proof (existing_group_positive _ _ Hfit Hex) as Hpos.
  pose proof (reachable_store_invariant _ Hdb) as (_ & Hb & _).
  pose proof (existing_group_bounded _ _ Hb Hex) as Hle.
  destruct Hfit as ((_ & Hsg & _) & _).
  unfold fits_int64, INT64_MIN. apply bool_decide_eq_true. lia.
Qed.

End KeysFit.

Section ServerTheorems.
Import Server ServerReads.

Ltac db_fields :=
  cbn [fst snd channels video_groups group_videos
       seq_channels seq_video_groups seq_group_videos].

(** *** Reading a group *)

Lemma find_group_spec group_id groups :
  match List.find (λ g, bool_decide (vg_id g = group_id)) groups with
  | Some g => g ∈ groups ∧ vg_id g = group_id
  | None => group_id ∉ vg_id <$> groups
  end.
Proof.
  induction groups as [|g gs IH]; simpl; [apply not_elem_of_nil|].
  case_bool_decide as Hg.
  - split; [apply elem_of_cons; by left|done].
  - destruct (List.find _ gs) as [g'|].
    + destruct IH. split; [apply elem_of_cons; by right|done].
    + intros [?|?]%elem_of_cons; [congruence|done].
Qed.

Lemma find_group_snoc group_id groups row :
  group_id ∉ vg_id <$> groups → vg_id row = group_id →
  List.find (λ g, bool_decide (vg_id g = group_id)) (groups ++ [row]) = Some row.
Proof.
  intros Hout Hrow. induction groups as [|g gs IH]; simpl.
  - by rewrite bool_decide_eq_true_2.
  - rewrite fmap_cons in Hout.
    rewrite bool_decide_eq_false_2.
    + apply IH. intros Hin. apply Hout. apply elem_of_cons. by right.
    + intros Hg. apply Hout. apply elem_of_cons. by left.
Qed.

Lemma sorted_positions_agree rows x y :
  StronglySorted (λ a b, gv_position a < gv_position b) rows →
  x ∈ rows → y ∈ rows → gv_position x = gv_position y → x = y.
Proof.
  induction 1 as [|r rows Hs IH Hr]; [by intros ?%elem_of_nil|].
  rewrite Forall_forall in Hr.
  intros [->|Hx]%elem_of_cons [->|Hy]%elem_of_cons Hp; [done| | |by apply IH].
  - specialize (Hr _ Hy). lia.
  - specialize (Hr _ Hx). lia.
Qed.

Lemma sorted_by_position rows :
  StronglySorted (λ a b, gv_position a < gv_position b) rows →
  StronglySorted by_position rows.
Proof.
  induction 1 as [|r rows Hs IH Hr]; constructor; [done|].
  eapply Forall_impl; [exact Hr|]. simpl. intros x Hx. by left.
Qed.

(** [ORDER BY position] leaves rows of increasing position as stored. *)
Lemma merge_sort_stored rows :
  StronglySorted (λ a b, gv_position a < gv_position b) rows →
  merge_sort by_position rows = rows.
Proof.
  intros Hs. apply (StronglySorted_unique_strong by_position).
  - intros x1 x2 Hx1 Hx2 H12 H21. rewrite merge_sort_Permutation in Hx1.
    apply (sorted_positions_agree rows); [done..|].
    apply by_position_le in H12, H21. lia.
  - apply StronglySorted_merge_sort; apply _.
  - by apply sorted_by_position.
  - apply merge_sort_Permutation.
Qed.

Lemma first_of_sorted r rows :
  StronglySorted (λ a b, gv_position a < gv_position b) (r :: rows) →
  first_by_position (r :: rows) = Some r.
Proof.
  intros Hs. inversion Hs as [|? ? _ Hr]; subst. simpl.
  destruct (first_by_position rows) as [m|] eqn:E; [|done].
  apply first_by_position_least in E as [Hm _].
  rewrite Forall_forall in Hr. specialize (Hr m Hm).
  rewrite decide_True; [done|by left].
Qed.

Lemma set_thumbnail_twice group_id a b groups :
  set_thumbnail group_id a (set_thumbnail group_id b groups)
  = set_thumbnail group_id a groups.
Proof.
  unfold set_thumbnail. rewrite <- list_fmap_compose. apply list_fmap_ext.
  intros i g _. simpl. destruct (decide (vg_id g = group_id)) as [Hg|Hg]; simpl.
  - by destruct (decide (vg_id g = group_id)).
  - by destruct (decide (vg_id g = group_id)).
Qed.

Lemma thumbnails_derived_same db group_id :
  thumbnails_derived db →
  set_thumbnail group_id (derived_thumbnail group_id db) (video_groups db)
  = video_groups db.
Proof.
  intros Hd. apply set_thumbnail_same. intros g Hg <-.
  unfold thumbnails_derived in Hd. rewrite Forall_forall in Hd. by apply Hd.
Qed.

Lemma filter_fresh_row group_id id rows :
  Forall (λ r, gv_id r < id) rows →
  filter (λ r, ¬ (gv_group_id r = group_id ∧ gv_id r = id)) rows = rows.
Proof.
  induction 1 as [|r rows Hr _ IH]; [done|].
  rewrite filter_cons, decide_True; [by rewrite IH|]. intros [_ ?]. lia.
Qed.

Lemma filter_all {A} (P : A → Prop) `{!∀ x, Decision (P x)} (l : list A) :
  Forall P l → filter P l = l.
Proof.
  induction 1 as [|x l Hx _ IH]; [done|].
  by rewrite filter_cons, decide_True, IH.
Qed.

Lemma removed_one {A B} (f : A → B) `{!EqDecision B} (l : list A) x :
  NoDup (f <$> l) → x ∈ l →
  length l = S (length (filter (λ r, f r ≠ f x) l)).
Proof.
  induction l as [|y l IH]; [by intros _ ?%elem_of_nil|].
  rewrite fmap_cons. intros [Hy Hl]%NoDup_cons Hin.
  rewrite filter_cons. destruct (decide (f y ≠ f x)) as [Hne|Heq].
  - apply elem_of_cons in Hin as [->|Hin]; [done|]. simpl. f_equal. by apply IH.
  - apply dec_stable in Heq. simpl. f_equal.
    rewrite filter_all; [done|].
    rewrite Forall_forall. intros z Hz Hzx. apply Hy.
    rewrite Heq, <- Hzx. by apply list_elem_of_fmap_2.
Qed.

Lemma filter_agree {A} (P Q : A → Prop) `{!∀ x, Decision (P x)}
    `{!∀ x, Decision (Q x)} (l : list A) :
  (∀ x, x ∈ l → P x ↔ Q x) → filter P l = filter Q l.
Proof.
  induction l as [|x l IH]; intros Hpq; [done|].
  rewrite !filter_cons.
  assert (x ∈ x :: l) as Hx by (apply elem_of_cons; by left).
  rewrite IH by (intros y Hy; apply Hpq; apply elem_of_cons; by right).
  destruct (decide (P x)) as [Hp|Hp], (decide (Q x)) as [Hq|Hq]; try done.
  - by apply Hpq in Hp.
  - by apply Hpq in Hq.
Qed.

End ServerTheorems.

Section ServerRoundTrips.
Import Server ServerReads.

Ltac db_fields :=
  cbn [fst snd channels video_groups group_videos
       seq_channels seq_video_groups seq_group_videos].

(** X9.  In every state the server.py database can reach from a new file
    (init_db, any sequence of add_channel, delete_channel, create_group,
    add_video_to_group, delete_group, delete_video_from_group requests served
    one after the other, with or without foreign-key enforcement, and restarts
    that run init_db again), no rowid occurs twice in channels, video_groups
    or group_videos, no channel_id occurs twice in channels, no rowid exceeds
    the AUTOINCREMENT counter of its table, and no membership row names a
    group id beyond the counter of video_groups. *)
Theorem reachable_keys_unique db :
  reachable db → keys_unique db ∧ keys_bounded db.
Proof. intros (_ & Hb & Hu & _)%reachable_store_invariant. by split. Qed.

(** [init_db] at a restart: a table that still holds a channel is left
    alone, an empty one gets the two default channels back under rowids
    that were never used. *)
Lemma restart_restores_defaults now db :
  reachable db →
  (channels db ≠ [] → init_db_on now db = db)
  ∧ (channels db = [] → seq_channels db + 2 ≤ INT64_MAX →
     listed_channels (init_db_on now db)
     = ["UC5PYHgAzJ1jQzoyDQjOA1RA"; "UCqwjm_R3H1F6i8KBYmPh82A"]
     ∧ Forall (λ c, seq_channels db < ch_id c) (channels (init_db_on now db)))
  ∧ video_groups (init_db_on now db) = video_groups db
  ∧ group_videos (init_db_on now db) = group_videos db
  ∧ keys_unique (init_db_on now db).
Proof.
  intros Hdb.
  pose proof (reachable_store_invariant _ (reachable_restart now db Hdb))
    as (_ & _ & Hu & _).
  unfold init_db_on in *. destruct (channels db) as [|c cs] eqn:Hch.
  - split; [done|].
    destruct (rowid_full _ _ || rowid_full _ _) eqn:Hfull.
    + split; [|by split]. intros _ Hroom. exfalso.
      apply orb_true_iff in Hfull as [Hfull|Hfull];
        apply bool_decide_eq_true in Hfull; unfold next_rowid in Hfull;
        simpl in Hfull; lia.
    + split; [|by split]. intros _ _. split; [by vm_compute|]. db_fields.
      unfold next_rowid. simpl.
      apply Forall_cons. split; [simpl; lia|].
      apply Forall_cons. split; [simpl; lia|done].
  - split; [done|]. split; [done|]. by split.
Qed.

(** X10.  get_group_videos in every reachable state of the server.py
    database: a group id beyond 64 bits is answered 500 with the message of
    the OverflowError of the binding; an unknown group id is answered 404
    'Group not found'; for a known one the answer carries the group row, its
    member rows in the order they were added, which is the order of strictly
    increasing position, count equal to their number, and the thumbnail stored
    for the group is the thumbnail of the first video listed (the empty string
    when the group has no member). *)
Theorem group_listing_in_order db group_id :
  reachable db →
  match get_group_videos group_id db with
  | ListingFailed status error =>
      if fits_int64 group_id
      then status = 404 ∧ error = "Group not found"
           ∧ group_exists group_id db = false
      else status = 500
           ∧ error = "Python int too large to convert to SQLite INTEGER"
  | Listing group videos count =>
      fits_int64 group_id = true
      ∧ group ∈ video_groups db ∧ vg_id group = group_id
      ∧ videos = members group_id (group_videos db)
      ∧ count = length videos
      ∧ StronglySorted (λ a b, gv_position a < gv_position b) videos
      ∧ vg_thumbnail group =
          match videos with
          | first :: _ => gv_video_thumbnail first
          | [] => Some ""
          end
  end.
Proof.
  intros (_ & _ & _ & Hd & Ho)%reachable_store_invariant.
  unfold get_group_videos.
  destruct (fits_int64 group_id); cbn [negb]; [|done].
  pose proof (find_group_spec group_id (video_groups db)) as Hfind.
  destruct (List.find _ (video_groups db)) as [g|].
  - destruct Hfind as [Hin Hid]. specialize (Ho group_id).
    rewrite (merge_sort_stored _ Ho).
    split; [done|].
    split; [done|]. split; [done|]. split; [done|]. split; [done|]. split; [done|].
    unfold thumbnails_derived in Hd. rewrite Forall_forall in Hd.
    rewrite (Hd g Hin), Hid. unfold derived_thumbnail.
    destruct (members group_id (group_videos db)) as [|r rest]; [done|].
    by rewrite (first_of_sorted r rest Ho).
  - split; [done|]. split; [done|]. unfold group_exists.
    by rewrite bool_decide_eq_false_2.
Qed.

(** A removal that names no stored row writes nothing: a pair the binding
    refuses is answered 500, a pair it accepts 404, and the thumbnail the
    handler still writes in that case is the one the group has. *)
Lemma removal_of_absent_row db group_id video_id :
  thumbnails_derived db →
  ¬ Exists (λ r, gv_group_id r = group_id ∧ gv_id r = video_id) (group_videos db) →
  delete_video_from_group group_id video_id db
  = (if fits_int64 group_id && fits_int64 video_id
     then Failed 404 "Video not found"
     else Failed 500 too_large, db).
Proof.
  intros Hd Habsent.
  destruct (fits_int64 group_id && fits_int64 video_id) eqn:Hfits.
  - apply delete_video_from_group_not_found_unnoticed; [done| |].
    + intros r Hr Hboth. apply Habsent. apply Exists_exists. eauto.
    + intros g Hg <-. unfold thumbnails_derived in Hd. rewrite Forall_forall in Hd.
      exact (Hd g Hg).
  - unfold delete_video_from_group. by rewrite Hfits.
Qed.

(** X11.  delete_video_from_group in every reachable state of the server.py
    database: when a membership row with the given group id and rowid exists,
    the answer is 200, exactly that one row is gone (the table is the old one
    without the rows of that rowid, one row shorter), channels and the set of
    groups are untouched; when no such row exists, the database is exactly as
    before, and the answer is 404 'Video not found' (the UPDATE the handler
    still runs rewrites the thumbnail with the value it already has), or 500
    when one of the two ids is beyond 64 bits and the binding refuses it. *)
Theorem removal_takes_one_row db group_id video_id :
  reachable db →
  let present :=
    Exists (λ r, gv_group_id r = group_id ∧ gv_id r = video_id) (group_videos db) in
  (present →
   ∃ db',
     delete_video_from_group group_id video_id db
     = (Succeeded 200 "Video deleted successfully" None, db')
     ∧ group_videos db' = filter (λ r, gv_id r ≠ video_id) (group_videos db)
     ∧ length (group_videos db) = S (length (group_videos db'))
     ∧ channels db' = channels db
     ∧ vg_id <$> video_groups db' = vg_id <$> video_groups db)
  ∧ (¬ present →
     delete_video_from_group group_id video_id db
     = (if fits_int64 group_id && fits_int64 video_id
        then Failed 404 "Video not found"
        else Failed 500 "Python int too large to convert to SQLite INTEGER", db)).
Proof.
  intros Hdb present.
  pose proof (reachable_store_invariant _ Hdb) as (_ & _ & Hu & Hd & _).
  destruct Hu as (_ & _ & _ & Hu). split.
  - intros (row & Hin & Hg & Hid)%Exists_exists.
    destruct (stored_row_fits _ _ Hdb Hin) as [Hfg Hfv]. rewrite Hg, Hid in *.
    assert (filter (λ r, ¬ (gv_group_id r = group_id ∧ gv_id r = video_id))
                   (group_videos db)
            = filter (λ r, gv_id r ≠ video_id) (group_videos db)) as Hsame.
    { apply filter_agree. intros r Hr. split.
      - intros Hnot Hr'. apply Hnot. split; [|done].
        assert (r = row) as -> by (apply (NoDup_fmap_agree gv_id _ _ _ Hu Hr Hin);
                                    congruence).
        done.
      - intros Hne [_ ?]. done. }
    pose proof (removed_one gv_id (group_videos db) row Hu Hin) as Hlen.
    rewrite Hid in Hlen.
    unfold delete_video_from_group. rewrite Hfg, Hfv. cbn [andb negb].
    rewrite Hsame. rewrite decide_True by lia.
    eexists. split; [reflexivity|]. db_fields.
    split; [done|]. split; [done|]. split; [done|]. apply set_thumbnail_ids.
  - intros Habsent. by apply removal_of_absent_row.
Qed.

(** X12.  A group that create_group has just made has no member, in every
    reachable state of the server.py database: its id is above the
    AUTOINCREMENT counter and was never used, so rows left behind by
    delete_group (which does not cascade) never show up in it;
    get_group_videos for the new id answers with the new row, thumbnail '', no
    videos and count 0. *)
Theorem new_group_starts_empty db t data status message id group_name description
    db' :
  reachable db →
  create_group t data db
  = (Succeeded status message (Some (NewGroup id group_name description)), db') →
  seq_video_groups db < id
  ∧ (id ∉ vg_id <$> video_groups db)
  ∧ members id (group_videos db') = []
  ∧ ∃ row,
      get_group_videos id db' = Listing row [] 0
      ∧ vg_group_name row = py_str group_name
      ∧ vg_thumbnail row = Some "".
Proof.
  intros Hdb.
  pose proof (reachable_store_invariant _ Hdb) as (_ & Hb & _).
  pose proof (reachable_keys_fit _ Hdb) as ((_ & Hsg & _) & _).
  destruct Hb as (_ & Hgb & _ & Hrb).
  unfold create_group. destruct (no_data data); [done|].
  destruct (negb (truthy _)); [done|].
  destruct (negb (_ && _)); [done|].
  destruct (rowid_full _ _) eqn:Hroom; [done|]. apply rowid_room in Hroom.
  intros [= _ _ <- <- _ <-].
  destruct (next_rowid_above (seq_video_groups db) (vg_id <$> video_groups db))
    as [Hseq _].
  pose proof (next_rowid_fresh vg_id (seq_video_groups db) (video_groups db)) as Hfresh.
  split; [done|]. split; [done|]. db_fields.
  rewrite (members_empty_above _ (seq_video_groups db)) by done.
  split; [done|]. eexists. unfold get_group_videos. db_fields.
  assert (fits_int64 (next_rowid (seq_video_groups db) (vg_id <$> video_groups db))
          = true) as ->.
  { unfold fits_int64, INT64_MIN. apply bool_decide_eq_true. lia. }
  cbn [negb].
  rewrite find_group_snoc by done. db_fields.
  rewrite (members_empty_above _ (seq_video_groups db)) by done.
  split; [reflexivity|]. done.
Qed.

(** X13.  Round trip in server.py: if add_channel succeeds, delete_channel for
    the channel_id of that request answers 200 and leaves channels,
    video_groups and group_videos exactly as they were before the add; only
    the AUTOINCREMENT counter of channels has moved on, so the rowid is not
    given out again. *)
Theorem add_then_delete_channel now data db status message created db1 :
  add_channel now data db = (Succeeded status message created, db1) →
  ∃ db2,
    delete_channel (py_str (dict_get (body data) "channel_id")) db1
    = (Succeeded 200 "Channel deleted successfully" None, db2)
    ∧ channels db2 = channels db
    ∧ video_groups db2 = video_groups db
    ∧ group_videos db2 = group_videos db
    ∧ seq_channels db < seq_channels db2.
Proof.
  unfold add_channel. destruct (no_data data); [done|].
  destruct (negb _ || negb _); [done|].
  destruct (negb (_ && _)); [done|].
  destruct (rowid_full _ _); [done|].
  case_bool_decide as Hnew; [done|]. intros [= _ _ _ <-].
  set (row := {| ch_id := _ |}).
  assert (filter (λ c, ch_channel_id c ≠ py_str (dict_get (body data) "channel_id"))
                 (channels db ++ [row]) = channels db) as Hkept.
  { rewrite filter_app, filter_cons, filter_nil.
    rewrite decide_False by (simpl; intros Hne; by apply Hne).
    rewrite app_nil_r. apply filter_all.
    rewrite Forall_forall. intros c Hc Heq. apply Hnew.
    rewrite <- Heq. by apply list_elem_of_fmap_2. }
  unfold delete_channel. db_fields. rewrite Hkept.
  rewrite decide_True by (rewrite length_app; simpl; lia).
  eexists. split; [reflexivity|]. db_fields.
  split; [done|]. split; [done|]. split; [done|]. apply next_rowid_above.
Qed.

(** X14.  Round trip in server.py, in every reachable state: if
    add_video_to_group succeeds and returns the rowid id, then
    delete_video_from_group for the same group and that id answers 200 and
    leaves channels, video_groups (thumbnails included) and group_videos
    exactly as they were before the add; only the AUTOINCREMENT counter of
    group_videos has moved on. *)
Theorem add_then_delete_video db t group_id data status message
    id video_id video_title video_thumbnail position db1 :
  reachable db →
  add_video_to_group t group_id data db
  = (Succeeded status message
       (Some (NewVideo id video_id video_title video_thumbnail position)), db1) →
  ∃ db2,
    delete_video_from_group group_id id db1
    = (Succeeded 200 "Video deleted successfully" None, db2)
    ∧ channels db2 = channels db
    ∧ video_groups db2 = video_groups db
    ∧ group_videos db2 = group_videos db
    ∧ seq_group_videos db < seq_group_videos db2.
Proof.
  intros Hdb.
  pose proof (reachable_store_invariant _ Hdb) as (_ & _ & _ & Hd & _).
  pose proof (reachable_keys_fit _ Hdb) as ((_ & _ & Hsr) & _).
  unfold add_video_to_group. destruct (no_data data); [done|].
  destruct (negb _ || negb _); [done|].
  destruct (fits_int64 group_id) eqn:Hfg; cbn [negb]; [|done].
  destruct (negb (group_exists group_id db)); [done|].
  destruct (negb (_ && _)); [done|].
  destruct (rowid_full _ _) eqn:Hroom; [done|]. apply rowid_room in Hroom.
  case_bool_decide; [done|].
  intros [= _ _ <- _ _ _ _ <-].
  destruct (next_rowid_above (seq_group_videos db) (gv_id <$> group_videos db))
    as [Hseq Hids].
  assert (fits_int64 (next_rowid (seq_group_videos db) (gv_id <$> group_videos db))
          = true) as Hfv.
  { unfold fits_int64, INT64_MIN. apply bool_decide_eq_true. lia. }
  set (row := {| gv_id := _ |}).
  assert (filter (λ r, ¬ (gv_group_id r = group_id
                          ∧ gv_id r = next_rowid (seq_group_videos db)
                                                 (gv_id <$> group_videos db)))
                 (group_videos db ++ [row]) = group_videos db) as Hkept.
  { rewrite filter_app, filter_cons, filter_nil.
    rewrite decide_False by (simpl; intros Hne; by apply Hne).
    rewrite app_nil_r. apply filter_fresh_row.
    rewrite Forall_fmap in Hids. exact Hids. }
  unfold delete_video_from_group. rewrite Hfg, Hfv. cbn [andb negb].
  db_fields. rewrite Hkept.
  rewrite decide_True by (rewrite length_app; simpl; lia).
  eexists. split; [reflexivity|]. db_fields.
  split; [done|]. split; [|by split].
  fold (derived_thumbnail group_id db).
  case_decide.
  - rewrite set_thumbnail_twice. by apply thumbnails_derived_same.
  - by apply thumbnails_derived_same.
Qed.

Lemma max_position_snoc rows row :
  max_position (rows ++ [row])
  = Some (match max_position rows with
          | Some m => Z.max m (gv_position row)
          | None => gv_position row
          end).
Proof.
  induction rows as [|r rows IH]; [done|].
  simpl. rewrite IH. destruct (max_position rows); f_equal; lia.
Qed.

Lemma foldr_max_snoc seq ids id :
  Forall (λ i, i < id) ids → seq < id → foldr Z.max id (ids ++ [id]) = id.
Proof.
  intros Hids Hseq. induction Hids as [|i ids Hi _ IH]; simpl; [lia|].
  rewrite IH. lia.
Qed.

Lemma add_video_success t group_id data db status message created db1 :
  add_video_to_group t group_id data db = (Succeeded status message created, db1) →
  let video_id := dict_get (body data) "video_id" in
  let video_title := dict_get (body data) "video_title" in
  let video_thumbnail :=
    dict_get_or (body data) "video_thumbnail"
                (PStr (default_thumbnail (py_str video_id))) in
  let new_id := next_rowid (seq_group_videos db) (gv_id <$> group_videos db) in
  no_data data = false
  ∧ negb (truthy video_id) || negb (truthy video_title) = false
  ∧ fits_int64 group_id = true
  ∧ group_exists group_id db = true
  ∧ bindable video_id && bindable video_title && bindable video_thumbnail = true
  ∧ fits_int64 (next_position group_id db) = true
  ∧ new_id ≤ INT64_MAX
  ∧ seq_group_videos db1 = new_id
  ∧ vg_id <$> video_groups db1 = vg_id <$> video_groups db
  ∧ ∃ row,
      gv_id row = new_id
      ∧ gv_group_id row = group_id
      ∧ gv_video_id row = py_str video_id
      ∧ gv_position row = next_position group_id db
      ∧ group_videos db1 = group_videos db ++ [row].
Proof.
  unfold add_video_to_group. destruct (no_data data); [done|].
  destruct (negb _ || negb _); [done|].
  destruct (fits_int64 group_id); [|done]. cbn [negb].
  destruct (group_exists group_id db); [|done]. cbn [negb].
  destruct (_ && fits_int64 (next_position group_id db)) eqn:Hbind; [|done].
  cbn [negb]. apply andb_true_iff in Hbind as [Hbind Hpos].
  destruct (rowid_full _ _) eqn:Hroom; [done|]. apply rowid_room in Hroom.
  case_bool_decide as Hnew; [done|].
  intros [= _ _ _ <-]. db_fields. cbv zeta.
  split; [done|]. split; [done|]. split; [done|]. split; [done|]. split; [done|].
  split; [done|]. split; [done|]. split; [done|]. split.
  - destruct (decide (next_position group_id db = 1)); [|done].
    by rewrite set_thumbnail_ids.
  - by eexists (Build_GroupVideo _ _ _ _ _ _ _).
Qed.

(** X15.  After add_video_to_group has succeeded, the same request sent again
    (at any time) stores nothing: it is answered 409 'Video already exists in
    this group' with the database unchanged.  Two cases end in a 500 before
    the duplicate is noticed, the database unchanged as well: the first add
    took position 2^63 - 1, so the next position no longer fits an SQLite
    INTEGER and the binding refuses it; or the first add took the rowid
    2^63 - 1, so the table is out of rowids ('database or disk is full'). *)
Theorem add_video_twice_conflict t t' group_id data db status message created db1 :
  add_video_to_group t group_id data db = (Succeeded status message created, db1) →
  add_video_to_group t' group_id data db1
  = (if decide (next_position group_id db = INT64_MAX)
     then Failed 500 "Python int too large to convert to SQLite INTEGER"
     else if decide (next_rowid (seq_group_videos db) (gv_id <$> group_videos db)
                     = INT64_MAX)
     then Failed 500 "database or disk is full"
     else Failed 409 "Video already exists in this group", db1).
Proof.
  intros (Hdata & Hreq & Hfg & Hex & Hbind & Hpos & Hroom & Hseq & Hids
          & row & Hid & Hg & Hv & Hp & Hrows)%add_video_success.
  assert (next_position group_id db1 = next_position group_id db + 1) as Hnext.
  { unfold next_position at 1. rewrite Hrows, members_snoc.
    rewrite decide_True by done. rewrite max_position_snoc, Hp.
    unfold next_position.
    destruct (max_position (members group_id (group_videos db))); [f_equal; lia|done]. }
  assert (next_rowid (seq_group_videos db1) (gv_id <$> group_videos db1)
          = next_rowid (seq_group_videos db) (gv_id <$> group_videos db) + 1) as Hrowid.
  { rewrite Hseq, Hrows, fmap_app. simpl. rewrite Hid.
    destruct (next_rowid_above (seq_group_videos db) (gv_id <$> group_videos db))
      as [Hs Hall].
    unfold next_rowid at 1. by rewrite (foldr_max_snoc (seq_group_videos db)). }
  unfold add_video_to_group. rewrite Hdata, Hreq, Hfg.
  unfold group_exists at 1. rewrite Hids. fold (group_exists group_id db).
  rewrite Hex. cbn [negb]. cbv zeta. rewrite Hnext, Hbind. cbn [andb].
  apply bool_decide_eq_true in Hpos. unfold fits_int64, rowid_full.
  rewrite Hrowid.
  destruct (decide (next_position group_id db = INT64_MAX)) as [Heq|Hne].
  - by rewrite bool_decide_eq_false_2 by lia.
  - rewrite bool_decide_eq_true_2 by lia. cbn [negb].
    destruct (decide (next_rowid (seq_group_videos db) (gv_id <$> group_videos db)
                      = INT64_MAX)) as [Hfull|Hfree].
    + by rewrite bool_decide_eq_true_2 by lia.
    + rewrite bool_decide_eq_false_2 by lia.
      rewrite bool_decide_eq_true_2; [done|].
      rewrite Hrows, members_snoc, decide_True by done.
      rewrite fmap_app, <- Hv. apply elem_of_app. right.
      by apply list_elem_of_singleton.
Qed.

End ServerRoundTrips.

Section FailedRequests.
Import Server ServerReads.

Lemma delete_video_failure_atomic group_id video_id db status error db' :
  thumbnails_derived db →
  delete_video_from_group group_id video_id db = (Failed status error, db') →
  db' = db.
Proof.
  intros Hd. unfold delete_video_from_group.
  destruct (negb (_ && _)); [by intros [= _ _ <-]|].
  case_decide as Hnone; intros [= _ _ <-].
  apply filter_nothing_removed in Hnone. rewrite Hnone.
  fold (derived_thumbnail group_id db).
  rewrite (thumbnails_derived_same _ _ Hd). by destruct db.
Qed.

Lemma handle_failure_atomic foreign_keys req db status error db' :
  thumbnails_derived db →
  handle foreign_keys req db = (Failed status error, db') → db' = db.
Proof.
  intros Hd. destruct req as [now data|cid|now data|now gid data|gid|gid vid]; simpl.
  - apply add_channel_failure_atomic.
  - apply delete_channel_failure_atomic.
  - apply create_group_failure_atomic.
  - apply add_video_to_group_failure_atomic.
  - apply delete_group_failure_atomic.
  - by apply delete_video_failure_atomic.
Qed.

Lemma backend_handle_failure_atomic foreign_keys req (store : Backend.Db)
    status error store' :
  BackendRuns.handle foreign_keys req store = (Backend.Failed status error, store') →
  store' = store.
Proof.
  destruct req as [ydl uuid now data|ydl gid data|gid|gid vid]; simpl.
  - apply backend_create_group_failure_atomic.
  - apply backend_add_videos_failure_atomic.
  - unfold Backend.delete_group_on.
    destruct (negb _); by intros [= ].
  - unfold Backend.delete_video_from_group.
    destruct (negb _); by intros [= ].
Qed.

(** C6, as the code has it.  In every state the database of [server.py]
    reaches from a new file (requests served one after the other, with
    restarts), a request that is answered with a failure leaves the
    database exactly as it found it.  In particular
    [delete_video_from_group] for a pair of ids that no membership row
    carries changes no table and no thumbnail; its answer is 404 'Video not
    found' when both ids fit 64 bits, and 500 when one does not, because
    the binding of the DELETE then raises before anything is looked up.
    The handlers of [backend/server.py] leave their database unchanged
    whenever they fail, in every state. *)
Theorem failed_requests_change_nothing db :
  reachable db →
  (∀ foreign_keys req status error db',
     handle foreign_keys req db = (Failed status error, db') → db' = db)
  ∧ (∀ group_id video_id,
       ¬ Exists (λ r, gv_group_id r = group_id ∧ gv_id r = video_id)
                (group_videos db) →
       delete_video_from_group group_id video_id db
       = (if fits_int64 group_id && fits_int64 video_id
          then Failed 404 "Video not found"
          else Failed 500 "Python int too large to convert to SQLite INTEGER",
          db))
  ∧ (∀ foreign_keys req (store : Backend.Db) status error store',
       BackendRuns.handle foreign_keys req store
       = (Backend.Failed status error, store') →
       store' = store).
Proof.
  intros (_ & _ & _ & Hd & _)%reachable_store_invariant.
  split; [|split].
  - intros foreign_keys req status error db'. by apply handle_failure_atomic.
  - intros group_id video_id Habsent. by apply removal_of_absent_row.
  - apply backend_handle_failure_atomic.
Qed.

Lemma two_videos_reachable : reachable Scenario.two_videos.
Proof. do 2 apply serve_reachable. constructor. Qed.

Lemma no_such_row (video_id : Z) :
  2 < video_id →
  ¬ Exists (λ r, gv_group_id r = 1 ∧ gv_id r = video_id)
           (group_videos Scenario.two_videos).
Proof.
  intros Hid. rewrite Exists_exists. intros (r & Hin & _ & Hr).
  vm_compute in Hin.
  apply elem_of_cons in Hin as [->|Hin]; [simpl in Hr; lia|].
  apply elem_of_cons in Hin as [->|Hin]; [simpl in Hr; lia|].
  by apply elem_of_nil in Hin.
Qed.

Lemma failed_requests_witness :
  delete_video_from_group 1 99 Scenario.two_videos
  = (Failed 404 "Video not found", Scenario.two_videos)
  ∧ (add_video_to_group 40 1 Scenario.first_video Scenario.two_videos).1
    = Failed 409 "Video already exists in this group"
  ∧ (add_video_to_group 40 1 Scenario.first_video Scenario.two_videos).2
    = Scenario.two_videos.
Proof.
  destruct (failed_requests_change_nothing Scenario.two_videos two_videos_reachable)
    as (Hfailed & Habsent & _).
  split.
  - apply (Habsent 1 99). apply no_such_row. lia.
  - split; [reflexivity|].
    apply (Hfailed false (AddVideoToGroup 40 1 Scenario.first_video)
                   409 "Video already exists in this group").
    reflexivity.
Defined.

(** The route accepts every non-negative integer.  For the rowid 2^63,
    which no row carries, the removal does not answer 404: the binding of
    the DELETE raises OverflowError and the handler answers 500. *)
Lemma failed_requests_counterexample :
  ¬ Exists (λ r, gv_group_id r = 1 ∧ gv_id r = 2 ^ 63)
           (group_videos Scenario.two_videos)
  ∧ delete_video_from_group 1 (2 ^ 63) Scenario.two_videos
    = (Failed 500 "Python int too large to convert to SQLite INTEGER",
       Scenario.two_videos)
  ∧ delete_video_from_group 1 (2 ^ 63) Scenario.two_videos
    ≠ (Failed 404 "Video not found", Scenario.two_videos).
Proof.
  split; [apply no_such_row; lia|]. split; [reflexivity|]. discriminate.
Qed.

End FailedRequests.

(** ** The database of [backend/server.py] *)

Section BackendStore.
Import Backend BackendRuns.

Ltac db_fields := cbn [fst snd groups videos seq_videos].

(** *** One insert *)

Lemma insert_video_row group_id video db db' :
  insert_video group_id video db = Returned db' →
  (py_str (vi_video_id video) ∉ member_ids group_id db)
  ∧ groups db' = groups db
  ∧ seq_videos db' = next_rowid (seq_videos db) (v_id <$> videos db)
  ∧ ∃ row,
      videos db' = videos db ++ [row]
      ∧ v_id row = next_rowid (seq_videos db) (v_id <$> videos db)
      ∧ v_group_id row = group_id
      ∧ v_video_id row = py_str (vi_video_id video)
      ∧ v_title row = py_str (vi_title video).
Proof.
  unfold insert_video.
  destruct (negb (video_bindable video)); [done|].
  destruct (rowid_full _ _); [done|].
  case_bool_decide; [done|]. case_bool_decide; [done|].
  case_bool_decide as Hnew; [done|].
  intros [= <-]. db_fields.
  split; [by rewrite elem_of_member_ids|]. split; [done|]. split; [done|].
  by eexists (Build_Video _ _ _ _ _ _ _).
Qed.

Lemma member_ids_stored group_id db :
  member_ids group_id db
  ≡ₚ v_video_id <$> filter (λ r, v_group_id r = group_id) (videos db).
Proof. unfold member_ids. by rewrite group_rows_stored. Qed.

Lemma member_ids_snoc group_id db db' row :
  videos db' = videos db ++ [row] →
  member_ids group_id db'
  ≡ₚ member_ids group_id db
     ++ (if decide (v_group_id row = group_id) then [v_video_id row] else []).
Proof.
  intros Hrows. rewrite !member_ids_stored, Hrows, filter_app, fmap_app.
  rewrite filter_cons, filter_nil. by case_decide.
Qed.

(** The rows an insert loop that ran to its end has stored, in order. *)
Lemma insert_videos_stored group_id vs db db' :
  insert_videos group_id vs db = Returned db' →
  groups db' = groups db
  ∧ NoDup (py_str ∘ vi_video_id <$> vs)
  ∧ (∀ v, v ∈ vs → py_str (vi_video_id v) ∉ member_ids group_id db)
  ∧ ∃ rows,
      videos db' = videos db ++ rows
      ∧ Forall2 (λ r v, v_group_id r = group_id
                        ∧ v_video_id r = py_str (vi_video_id v)
                        ∧ v_title r = py_str (vi_title v)) rows vs.
Proof.
  revert db. induction vs as [|v vs IH]; intros db; simpl.
  - intros [= <-]. split; [done|]. split; [constructor|].
    split; [by intros v ?%elem_of_nil|]. exists []. by rewrite app_nil_r.
  - destruct (insert_video group_id v db) as [db1|msg] eqn:E; [|done].
    apply insert_video_row in E
      as (Hnew & Hg1 & _ & row & Hrows1 & _ & Hrg & Hrv & Hrt).
    intros (Hg & Hnd & Hout & rows & Hrows & Hall)%IH.
    pose proof (member_ids_snoc group_id db db1 row Hrows1) as Hm.
    rewrite decide_True in Hm by done.
    split; [congruence|]. split; [|split].
    + apply NoDup_cons. split; [|done].
      intros (w & Hw & Hin)%list_elem_of_fmap. apply (Hout w Hin).
      rewrite Hm. apply elem_of_app. right. simpl in Hw.
      rewrite <- Hw, Hrv. by apply list_elem_of_singleton.
    + intros w [->|Hw]%elem_of_cons; [done|].
      intros Hin. apply (Hout w Hw). rewrite Hm. apply elem_of_app. by left.
    + exists (row :: rows). rewrite Hrows, Hrows1, <- app_assoc.
      split; [done|]. by constructor.
Qed.

Lemma find_new_group uuid gs row :
  uuid ∉ g_id <$> gs → g_id row = uuid →
  List.find (λ g, bool_decide (g_id g = uuid)) (gs ++ [row]) = Some row.
Proof.
  intros Hout Hrow. induction gs as [|g gs IH]; simpl.
  - by rewrite bool_decide_eq_true_2.
  - rewrite fmap_cons in Hout. rewrite bool_decide_eq_false_2.
    + apply IH. intros Hin. apply Hout. apply elem_of_cons. by right.
    + intros Hg. apply Hout. apply elem_of_cons. by left.
Qed.

(** *** Keys *)

Lemma insert_video_keys group_id video db db' :
  insert_video group_id video db = Returned db' →
  keys_unique db → keys_unique db'.
Proof.
  intros (Hnew & Hg & Hseq & row & Hrows & Hid & Hrg & Hrv & _)%insert_video_row
         (Hgu & Hvu & Hvb & Hm).
  destruct (next_rowid_above (seq_videos db) (v_id <$> videos db)) as [Hs Hids].
  unfold keys_unique, membership_unique. rewrite Hg, Hrows, Hseq.
  split; [done|]. split; [|split].
  - apply NoDup_snoc_fresh; [done|]. rewrite Hid. apply next_rowid_fresh.
  - apply Forall_app. split.
    + eapply Forall_impl; [exact Hvb|]. simpl. intros. lia.
    + apply Forall_singleton. lia.
  - apply NoDup_snoc_fresh; [done|].
    intros (r & [= Hr1 Hr2] & Hr)%list_elem_of_fmap. apply Hnew.
    apply elem_of_member_ids. rewrite <- Hrv, Hr2. apply list_elem_of_fmap_2.
    apply list_elem_of_filter. split; [congruence|done].
Qed.

Lemma insert_videos_keys group_id vs db db' :
  insert_videos group_id vs db = Returned db' →
  keys_unique db → keys_unique db'.
Proof.
  revert db. induction vs as [|v vs IH]; intros db; simpl.
  - by intros [= <-].
  - destruct (insert_video group_id v db) as [db1|msg] eqn:E; [|done].
    intros Hrest Hk. apply (IH db1 Hrest). by apply (insert_video_keys _ _ _ _ E).
Qed.

Lemma handle_keys foreign_keys req db :
  keys_unique db → keys_unique (handle foreign_keys req db).2.
Proof.
  intros Hk. destruct req as [ydl uuid now data|ydl gid data|gid|gid vid]; simpl.
  - unfold create_group. destruct (negb (truthy _)); [done|].
    destruct (gather_videos ydl data) as [vs|msg]; [|done].
    destruct (negb (_ && _)); [done|].
    destruct (group_exists uuid db) eqn:Hex; [done|].
    destruct (insert_videos uuid vs _) as [db'|msg] eqn:E; [|done].
    apply (insert_videos_keys _ _ _ _ E).
    destruct Hk as (Hgu & Hvu & Hvb & Hm).
    split; [|by split]. db_fields.
    apply NoDup_snoc_fresh; [done|]. simpl.
    unfold group_exists in Hex. by apply bool_decide_eq_false in Hex.
  - unfold add_videos_to_group. destruct (negb _); [done|].
    destruct (gather_new_videos _ _ _) as [resp|batch]; [done|].
    destruct (insert_videos gid _ db) as [db'|msg] eqn:E; [|done].
    by apply (insert_videos_keys _ _ _ _ E).
  - unfold delete_group_on. destruct (negb _); [done|].
    destruct Hk as (Hgu & Hvu & Hvb & Hm). unfold keys_unique, membership_unique.
    db_fields. split; [by apply NoDup_fmap_filter|].
    destruct foreign_keys; [|done].
    split; [by apply NoDup_fmap_filter|].
    split; [by apply Forall_filter_keep|by apply NoDup_fmap_filter].
  - unfold delete_video_from_group. destruct (negb _); [done|].
    destruct Hk as (Hgu & Hvu & Hvb & Hm). unfold keys_unique, membership_unique.
    db_fields. split; [done|].
    split; [by apply NoDup_fmap_filter|].
    split; [by apply Forall_filter_keep|by apply NoDup_fmap_filter].
Qed.

(** X16.  In every state the backend/server.py database reaches from the empty
    tables of init_database by create_group, add_videos_to_group, delete_group
    and delete_video_from_group requests served one after the other (any
    resolver, with or without foreign-key enforcement), no group id occurs
    twice in groups, no rowid occurs twice in videos or exceeds the
    AUTOINCREMENT counter, and no (group_id, video_id) pair occurs twice in
    videos. *)
Theorem backend_keys_unique foreign_keys reqs :
  keys_unique (serve foreign_keys reqs init_database).
Proof.
  assert (keys_unique init_database) as Hinit.
  { split; [constructor|]. split; [constructor|]. split; constructor. }
  revert Hinit. generalize init_database.
  induction reqs as [|req reqs IH]; intros db Hk; [done|].
  apply IH. by apply handle_keys.
Qed.

(** X17.  create_group in backend/server.py does not drop repeated ids from
    the videos it gathered (manual ids after strip, playlist or channel
    entries): when the gathered list names the same video id twice, the insert
    loop fails, the request is answered 500 and neither the group nor any
    video is stored. (add_videos_to_group, by contrast, skips repeats.) *)
Theorem create_group_rejects_repeats ydl uuid now data db vs :
  truthy (name data) = true →
  gather_videos ydl data = Returned vs →
  ¬ NoDup (py_str ∘ vi_video_id <$> vs) →
  ∃ error, create_group ydl uuid now data db = (Failed 500 error, db).
Proof.
  intros Hname Hvs Hrep. unfold create_group. rewrite Hname, Hvs. cbn [negb].
  destruct (negb (_ && _)); [eauto|].
  destruct (group_exists uuid db); [eauto|].
  destruct (insert_videos uuid vs _) as [db'|msg] eqn:E; [|eauto].
  apply insert_videos_stored in E as (_ & Hnd & _). by destruct Hrep.
Qed.

Lemma index_le_text a b : index_le a b → String.le a.1 b.1.
Proof. intros [[_ H]|[-> _]]; [done|]. by destruct (total String.le b.1 b.1). Qed.

(** The rows a query for a group yields come in the byte order of their
    video ids. *)
Lemma group_rows_sorted group_id db :
  StronglySorted (λ a b, String.le (v_video_id a) (v_video_id b))
                 (group_rows group_id db).
Proof.
  unfold group_rows.
  pose proof (StronglySorted_merge_sort by_video_id
                (filter (λ r, v_group_id r = group_id) (videos db))) as Hs.
  induction Hs as [|r rows _ IH Hr]; constructor; [done|].
  eapply Forall_impl; [exact Hr|]. intros x Hx.
  exact (index_le_text (v_video_id r, v_id r) (v_video_id x, v_id x) Hx).
Qed.

(** X18.  What a successful create_group in backend/server.py has stored: the
    uuid was not the id of a group before; groups has one new row at the end
    with that id and the requested name, which load_group finds together with
    the stored rows of the group, listed in the byte order of their video ids
    (the order of the index SQLite reads them through), not in the order they
    were gathered in; videos has, after the rows already there, one row of the
    new group per gathered video, in the order gathered, with the id and title
    of that video; the video ids of the new group are those of rows already
    carrying its id together with the gathered ones, and every other group
    lists exactly the videos it listed. *)
Theorem create_group_read_back ydl uuid now data db group_id vs created_at db' :
  create_group ydl uuid now data db = (GroupCreated group_id vs created_at, db') →
  group_id = uuid ∧ created_at = now
  ∧ gather_videos ydl data = Returned vs
  ∧ (uuid ∉ g_id <$> groups db)
  ∧ (∃ g listed,
       groups db' = groups db ++ [g]
       ∧ g_id g = uuid ∧ g_name g = py_str (name data)
       ∧ load_group uuid db' = Some (g, listed)
       ∧ listed ≡ₚ filter (λ r, v_group_id r = uuid) (videos db')
       ∧ StronglySorted (λ a b, String.le (v_video_id a) (v_video_id b)) listed)
  ∧ (∃ rows, videos db' = videos db ++ rows
             ∧ Forall2 (λ r v, v_group_id r = uuid
                               ∧ v_video_id r = py_str (vi_video_id v)
                               ∧ v_title r = py_str (vi_title v)) rows vs)
  ∧ member_ids uuid db' ≡ₚ member_ids uuid db ++ (py_str ∘ vi_video_id <$> vs)
  ∧ (∀ other, other ≠ uuid → member_ids other db' = member_ids other db).
Proof.
  unfold create_group. destruct (negb (truthy _)); [done|].
  destruct (gather_videos ydl data) as [gathered|msg]; [|done].
  destruct (negb (_ && _)); [done|].
  destruct (group_exists uuid db) eqn:Hex; [done|].
  destruct (insert_videos uuid gathered _) as [db1|msg] eqn:E; [|done].
  intros [= <- <- <- <-].
  apply insert_videos_stored in E as (Hg & _ & _ & rows & Hrows & Hall).
  cbn [groups videos seq_videos] in Hg, Hrows.
  unfold group_exists in Hex. apply bool_decide_eq_false in Hex.
  split; [done|]. split; [done|]. split; [done|]. split; [done|].
  assert (∀ g, filter (λ r, v_group_id r = g) (videos db1)
               = filter (λ r, v_group_id r = g) (videos db)
                 ++ if decide (g = uuid) then rows else []) as Hfilter.
  { intros g. rewrite Hrows, filter_app. f_equal.
    clear Hrows. destruct (decide (g = uuid)) as [->|Hne].
    - induction Hall as [|r v rows vs (Hr & _) _ IH]; [done|].
      rewrite filter_cons, decide_True by done. by f_equal.
    - induction Hall as [|r v rows vs (Hr & _) _ IH]; [done|].
      by rewrite filter_cons, decide_False by congruence. }
  assert (v_video_id <$> rows = py_str ∘ vi_video_id <$> gathered) as Hids.
  { clear Hrows Hfilter. induction Hall as [|r v rows vs (_ & Hv & _) _ IH]; [done|].
    rewrite !fmap_cons. simpl. by rewrite Hv, IH. }
  split; [|split; [by exists rows|split]].
  - eexists _, _. split; [exact Hg|]. split; [done|]. split; [done|].
    split; [|split].
    + unfold load_group. rewrite Hg. by rewrite find_new_group.
    + apply group_rows_stored.
    + apply group_rows_sorted.
  - rewrite !member_ids_stored, Hfilter, decide_True by done.
    by rewrite fmap_app, Hids.
  - intros other Hne. unfold member_ids, group_rows.
    by rewrite Hfilter, decide_False, app_nil_r.
Qed.

Lemma add_entry_loop es start :
  (added_count (foldl add_entry start es) + length (new_videos start)
   = added_count start + length (new_videos (foldl add_entry start es)))%nat.
Proof.
  revert start. induction es as [|e es IH]; intros start; simpl; [lia|].
  specialize (IH (add_entry start e)).
  assert ((added_count (add_entry start e) + length (new_videos start)
           = added_count start + length (new_videos (add_entry start e)))%nat) as Hstep.
  { unfold add_entry. destruct (_ && _); simpl; [|lia]. rewrite length_app. simpl. lia. }
  lia.
Qed.

Lemma gathered_count ydl data start batch :
  gather_new_videos ydl data start = inr batch →
  (added_count batch + length (new_videos start)
   = added_count start + length (new_videos batch))%nat.
Proof.
  unfold gather_new_videos. destruct (truthy (playlist_id data)).
  { destruct (bulk_entries _ _ _) as [es|msg]; [|done].
    intros [= <-]. apply add_entry_loop. }
  destruct (truthy (channel_id data)).
  { destruct (import_channel_url _) as [url|msg]; [|done].
    destruct (bulk_entries _ _ _) as [es|msg]; [|done].
    intros [= <-]. apply add_entry_loop. }
  destruct (video_ids data) as [|s ids]; [done|]. intros [= <-].
  apply (add_manual_loop ydl (s :: ids) start).
Qed.

Lemma gather_refused ydl data start resp :
  gather_new_videos ydl data start = inl resp → ∃ status error, resp = Failed status error.
Proof.
  unfold gather_new_videos. repeat case_match; intros [= <-]; eauto.
Qed.

(** X19.  In backend/server.py, whenever add_videos_to_group answers with
    added_count = n, whichever way the videos were gathered (manual ids,
    playlist, channel): groups is unchanged, exactly n rows were appended to
    videos, all of them rows of the requested group, the group carried in the
    answer is the group as read after the inserts, and no other group gained
    or lost a video. *)
Theorem added_count_counts_rows ydl group_id data db n g db' :
  add_videos_to_group ydl group_id data db = (VideosAdded n g, db') →
  groups db' = groups db
  ∧ g = load_group group_id db'
  ∧ (∃ rows, videos db' = videos db ++ rows
             ∧ length rows = n
             ∧ Forall (λ r, v_group_id r = group_id) rows)
  ∧ (∀ other, other ≠ group_id → member_ids other db' = member_ids other db).
Proof.
  unfold add_videos_to_group. destruct (negb _); [done|].
  destruct (gather_new_videos _ _ _) as [resp|batch] eqn:Hbatch.
  { by apply gather_refused in Hbatch as (status & error & ->). }
  destruct (insert_videos group_id _ db) as [db1|msg] eqn:E; [|done].
  intros [= <- <- <-].
  apply gathered_count in Hbatch. simpl in Hbatch.
  apply insert_videos_stored in E as (Hg & _ & _ & rows & Hrows & Hall).
  split; [done|]. split; [done|].
  assert (Forall (λ r, v_group_id r = group_id) rows) as Hgroup.
  { eapply Forall2_Forall_l; [exact Hall|]. apply Forall_true. by intros v r (Hr & _). }
  split.
  - exists rows. split; [done|]. split; [|done].
    apply Forall2_length in Hall. lia.
  - intros other Hne. unfold member_ids, group_rows. rewrite Hrows, filter_app.
    assert (filter (λ r, v_group_id r = other) rows = []) as ->;
      [|by rewrite app_nil_r].
    clear Hrows Hall. induction Hgroup as [|r rows Hr _ IH]; [done|].
    rewrite filter_cons, decide_False by congruence. exact IH.
Qed.

(** X20.  delete_video_from_group in backend/server.py answers by whether the
    video is in the group: if it is, the answer is success, the groups table
    is untouched, the video is no longer in the group, the rows of every other
    (group, video) pair are exactly as before, and repeating the request is
    answered 404; if it is not, the answer is 404 'Video not found in group'
    and the database is unchanged. *)
Theorem backend_removal group_id video_id db :
  (video_id ∈ member_ids group_id db →
   ∃ db',
     delete_video_from_group group_id video_id db = (Done, db')
     ∧ groups db' = groups db
     ∧ (video_id ∉ member_ids group_id db')
     ∧ (∀ g v, (g, v) ≠ (group_id, video_id) →
               membership_rows g v db' = membership_rows g v db)
     ∧ delete_video_from_group group_id video_id db'
       = (Failed 404 "Video not found in group", db'))
  ∧ (video_id ∉ member_ids group_id db →
     delete_video_from_group group_id video_id db
     = (Failed 404 "Video not found in group", db)).
Proof.
  split.
  - intros (r & Hv & [Hg Hr]%list_elem_of_filter)%elem_of_member_ids%list_elem_of_fmap.
    unfold delete_video_from_group. rewrite bool_decide_eq_true_2.
    2:{ apply Exists_exists. exists r. by split. }
    cbn [negb]. eexists. split; [reflexivity|]. db_fields.
    assert (video_id ∉ member_ids group_id
              {| groups := groups db;
                 videos := filter (λ r, ¬ (v_group_id r = group_id
                                           ∧ v_video_id r = video_id)) (videos db);
                 seq_videos := seq_videos db |}) as Hout.
    { rewrite elem_of_member_ids. db_fields.
      intros (r' & Hv' & [Hg' [Hkeep _]%list_elem_of_filter]%list_elem_of_filter)
               %list_elem_of_fmap.
      by apply Hkeep. }
    split; [done|]. split; [done|]. split.
    + intros g v Hne. unfold membership_rows. db_fields.
      rewrite list_filter_filter. apply filter_agree.
      intros x _. split; [tauto|]. intros [Hxg Hxv]. split; [done|].
      intros [Hg' Hv']. apply Hne. congruence.
    + rewrite bool_decide_eq_false_2; [done|]. db_fields.
      intros (x & [Hkeep _]%list_elem_of_filter & Hx)%Exists_exists. by apply Hkeep.
  - intros Hout. apply backend_delete_video_not_found.
    intros r Hr [Hg Hv]. apply Hout. rewrite <- Hv.
    apply elem_of_member_ids. apply list_elem_of_fmap_2. by apply list_elem_of_filter.
Qed.

(** X21.  After a successful delete_group in backend/server.py, on the
    connection the handler opens: every row of videos is still stored (no
    cascade), yet what load_groups / get_groups lists is the earlier listing
    without the deleted group and with every other group and its videos as
    before; load_group finds nothing under the id, and deleting the group
    again is answered 404 with the database unchanged. *)
Theorem deleted_group_not_listed group_id db db' :
  delete_group group_id db = (Done, db') →
  videos db' = videos db
  ∧ load_groups db' = filter (λ p, g_id p.1 ≠ group_id) (load_groups db)
  ∧ load_group group_id db' = None
  ∧ delete_group group_id db' = (Failed 404 "Group not found", db').
Proof.
  unfold delete_group, delete_group_on. destruct (negb _); [done|].
  intros [= <-]. cbn [connection_foreign_keys]. db_fields.
  split; [done|]. split; [|split].
  - unfold load_groups. db_fields.
    induction (groups db) as [|g gs IH]; [done|].
    rewrite fmap_cons, !filter_cons. simpl.
    destruct (decide (g_id g ≠ group_id)); [|exact IH].
    rewrite fmap_cons. f_equal. exact IH.
  - unfold load_group. db_fields.
    assert (List.find (λ g, bool_decide (g_id g = group_id))
              (filter (λ g, g_id g ≠ group_id) (groups db)) = None) as ->; [|done].
    induction (groups db) as [|g gs IH]; [done|].
    rewrite filter_cons. destruct (decide (g_id g ≠ group_id)); [|exact IH].
    simpl. by rewrite bool_decide_eq_false_2.
  - unfold group_exists. db_fields. rewrite bool_decide_eq_false_2; [done|].
    intros (g & Hg & [Hne _]%list_elem_of_filter)%list_elem_of_fmap. by apply Hne.
Qed.

End BackendStore.

(** ** Block lists and [simple-server.py] *)

Section BlockLists.
Import Blocklist.

Lemma block_done key missing already failed now data table table' :
  block key missing already failed now data table = (Done, table') →
  ∃ d row,
    data = Some d
    ∧ b_id row = py_str (dict_get d key)
    ∧ truthy (dict_get d key) = true
    ∧ bindable (dict_get d key) = true
    ∧ (b_id row ∉ b_id <$> table)
    ∧ table' = table ++ [row].
Proof.
  unfold block. destruct data as [d|]; [|done].
  destruct (truthy (dict_get d key)) eqn:Hid; [|done]. cbn [negb].
  destruct (bindable (dict_get d key)) eqn:Hbind; [|done]. cbn [negb].
  case_bool_decide as Hnew; [done|].
  destruct (bindable (dict_get_or _ _ _)); [|done]. cbn [negb]. intros [= <-].
  by eexists d, (Build_Blocked _ _ _).
Qed.

Lemma block_failed key missing already failed now data table status error table' :
  block key missing already failed now data table = (Failed status error, table') →
  table' = table.
Proof. unfold block. repeat case_match; by intros [= ]. Qed.

Lemma block_again key missing already failed now t data table table' :
  block key missing already failed now data table = (Done, table') →
  block key missing already failed t data table' = (Failed 400 already, table').
Proof.
  intros (d & row & -> & Hid & Htruthy & Hbind & Hnew & ->)%block_done.
  unfold block. rewrite Htruthy, Hbind. cbn [negb].
  rewrite bool_decide_eq_true_2; [done|].
  rewrite fmap_app, <- Hid. apply elem_of_app. right. by apply list_elem_of_singleton.
Qed.

Lemma unblock_last absent table row :
  b_id row ∉ b_id <$> table →
  unblock absent (b_id row) (table ++ [row]) = (Done, table).
Proof.
  intros Hnew. unfold unblock. rewrite bool_decide_eq_true_2.
  2:{ rewrite fmap_app. apply elem_of_app. right. by apply list_elem_of_singleton. }
  cbn [negb]. f_equal.
  rewrite filter_app, filter_cons, filter_nil, decide_False by (intros Hne; by apply Hne).
  rewrite app_nil_r. apply filter_all.
  rewrite Forall_forall. intros b Hb Heq. apply Hnew. rewrite <- Heq.
  by apply list_elem_of_fmap_2.
Qed.

Lemma unblock_absent absent id table :
  id ∉ b_id <$> table → unblock absent id table = (Failed 404 absent, table).
Proof. intros Hout. unfold unblock. by rewrite bool_decide_eq_false_2. Qed.

Lemma block_ids key missing already failed now data table :
  NoDup (b_id <$> table) →
  NoDup (b_id <$> (block key missing already failed now data table).2).
Proof.
  intros Hnd. destruct (block key missing already failed now data table)
    as [[|status error] table'] eqn:E.
  - apply block_done in E as (d & row & _ & _ & _ & _ & Hnew & ->).
    by apply NoDup_snoc_fresh.
  - by apply block_failed in E as ->.
Qed.

Lemma unblock_ids absent id table :
  NoDup (b_id <$> table) → NoDup (b_id <$> (unblock absent id table).2).
Proof.
  intros Hnd. unfold unblock. destruct (negb _); [done|]. by apply NoDup_fmap_filter.
Qed.

(** X22.  In every state the two block lists of backend/server.py reach from
    the empty tables by block_video, unblock_video, block_channel and
    unblock_channel requests served one after the other, load_blocked lists no
    video id twice and no channel id twice. *)
Theorem blocklist_ids_unique reqs :
  NoDup (load_blocked (serve reqs init_database)).1
  ∧ NoDup (load_blocked (serve reqs init_database)).2.
Proof.
  assert (NoDup (b_id <$> blocked_videos init_database)
          ∧ NoDup (b_id <$> blocked_channels init_database)) as Hinit
    by (split; constructor).
  revert Hinit. generalize init_database.
  induction reqs as [|req reqs IH]; intros db [Hv Hc]; [done|].
  apply IH. destruct req as [now data|video_id|now data|channel_id]; simpl.
  - unfold block_video.
    pose proof (block_ids "video_id" "video_id is required" "Video already blocked"
                  "Failed to block video: " now data _ Hv) as Hv'.
    by destruct (block _ _ _ _ _ _ _).
  - unfold unblock_video.
    pose proof (unblock_ids "Video not found in blocked list" video_id _ Hv) as Hv'.
    by destruct (unblock _ _ _).
  - unfold block_channel.
    pose proof (block_ids "channel_id" "channel_id is required" "Channel already blocked"
                  "Failed to block channel: " now data _ Hc) as Hc'.
    by destruct (block _ _ _ _ _ _ _).
  - unfold unblock_channel.
    pose proof (unblock_ids "Channel not found in blocked list" channel_id _ Hc) as Hc'.
    by destruct (unblock _ _ _).
Qed.

(** X23.  Round trip of the video block list in backend/server.py: after
    block_video has succeeded, the video id is on the list load_blocked
    returns and the channel list is as it was; the same request sent again at
    any time is answered 400 'Video already blocked' and changes nothing;
    unblock_video for that id answers success and gives back both lists
    exactly as they were before the block, and there unblock_video for that id
    is answered 404 'Video not found in blocked list'. *)
Theorem block_then_unblock_video now data db db1 :
  block_video now data db = (Done, db1) →
  let video_id := py_str (dict_get (default ∅ data) "video_id") in
  video_id ∈ (load_blocked db1).1
  ∧ (load_blocked db1).2 = (load_blocked db).2
  ∧ (∀ t, block_video t data db1 = (Failed 400 "Video already blocked", db1))
  ∧ unblock_video video_id db1 = (Done, db)
  ∧ unblock_video video_id db = (Failed 404 "Video not found in blocked list", db).
Proof.
  unfold block_video.
  destruct (block _ _ _ _ now data _) as [resp table] eqn:E. intros [= -> <-].
  pose proof (λ t, block_again _ _ _ _ _ t _ _ _ E) as Hagain.
  apply block_done in E as (d & row & -> & Hid & _ & _ & Hnew & ->).
  cbn [blocked_videos blocked_channels load_blocked fst snd from_option id].
  rewrite <- Hid.
  split; [|split; [done|split; [|split]]].
  - rewrite fmap_app. apply elem_of_app. right. by apply list_elem_of_singleton.
  - intros t. by rewrite (Hagain t).
  - unfold unblock_video. simpl. rewrite unblock_last by done. by destruct db.
  - unfold unblock_video. rewrite unblock_absent by done. by destruct db.
Qed.

(** X24.  Round trip of the channel block list in backend/server.py: after
    block_channel has succeeded, the channel id is on the list load_blocked
    returns and the video list is as it was; the same request sent again at
    any time is answered 400 'Channel already blocked' and changes nothing;
    unblock_channel for that id answers success and gives back both lists
    exactly as they were before the block, and there unblock_channel for that
    id is answered 404 'Channel not found in blocked list'. *)
Theorem block_then_unblock_channel now data db db1 :
  block_channel now data db = (Done, db1) →
  let channel_id := py_str (dict_get (default ∅ data) "channel_id") in
  channel_id ∈ (load_blocked db1).2
  ∧ (load_blocked db1).1 = (load_blocked db).1
  ∧ (∀ t, block_channel t data db1 = (Failed 400 "Channel already blocked", db1))
  ∧ unblock_channel channel_id db1 = (Done, db)
  ∧ unblock_channel channel_id db
    = (Failed 404 "Channel not found in blocked list", db).
Proof.
  unfold block_channel.
  destruct (block _ _ _ _ now data _) as [resp table] eqn:E. intros [= -> <-].
  pose proof (λ t, block_again _ _ _ _ _ t _ _ _ E) as Hagain.
  apply block_done in E as (d & row & -> & Hid & _ & _ & Hnew & ->).
  cbn [blocked_videos blocked_channels load_blocked fst snd from_option id].
  rewrite <- Hid.
  split; [|split; [done|split; [|split]]].
  - rewrite fmap_app. apply elem_of_app. right. by apply list_elem_of_singleton.
  - intros t. by rewrite (Hagain t).
  - unfold unblock_channel. simpl. rewrite unblock_last by done. by destruct db.
  - unfold unblock_channel. rewrite unblock_absent by done. by destruct db.
Qed.

End BlockLists.

Section SimpleServerFacts.
Import Backend SimpleServer.

Lemma lstrip_head s c rest : lstrip s = String c rest → is_space c = false.
Proof.
  induction s as [|a s IH]; [done|]. simpl.
  destruct (is_space a) eqn:Ha; [exact IH|]. by intros [= <- _].
Qed.

Lemma rstrip_head c rest :
  is_space c = false → ∃ kept, rstrip (String c rest) = String c kept.
Proof. intros Hc. simpl. rewrite Hc. destruct (rstrip rest); eauto. Qed.

Lemma py_strip_head s :
  py_strip s = "" ∨ ∃ c kept, py_strip s = String c kept ∧ is_space c = false.
Proof.
  unfold py_strip. destruct (lstrip s) as [|c rest] eqn:E; [by left|].
  right. apply lstrip_head in E. destruct (rstrip_head c rest E) as [kept ->]. eauto.
Qed.

Lemma first_line_one_line s : "010"%char ∉ String.list_ascii_of_string (first_line s).
Proof.
  induction s as [|c s IH]; simpl; [apply not_elem_of_nil|].
  case_bool_decide as Hc; simpl; [apply not_elem_of_nil|].
  intros [?|?]%elem_of_cons; [congruence|done].
Qed.

Lemma first_line_prefix s : startswith (first_line s) s = true.
Proof.
  induction s as [|c s IH]; [done|]. simpl.
  case_bool_decide; [done|]. simpl. by rewrite bool_decide_eq_true_2.
Qed.

(** X25.  Whenever extract_video of simple-server.py answers with a URL (on
    ASCII output of yt-dlp): video_id was not empty, yt-dlp returned with code
    0, and the URL is not empty, contains no newline, and is a prefix of the
    stripped output, namely its first line. *)
Theorem extracted_url_one_line run video_id url :
  extract_video run video_id = Extracted url →
  video_id ≠ "" ∧ url ≠ ""
  ∧ ("010"%char ∉ String.list_ascii_of_string url)
  ∧ ∃ result,
      run (command video_id) = Returned result
      ∧ returncode result = 0
      ∧ startswith url (py_strip (stdout result)) = true.
Proof.
  unfold extract_video. case_decide as Hid; [done|].
  destruct (run _) as [result|msg]; [|done].
  case_bool_decide as Hcode; [|done]. case_bool_decide as Hout; [done|].
  simpl. intros [= <-]. split; [done|]. split; [|split].
  - destruct (py_strip_head (stdout result)) as [?|(c & kept & -> & Hc)]; [done|].
    simpl. case_bool_decide as Hnl; [by subst c|done].
  - apply first_line_one_line.
  - exists result. split; [done|]. split; [done|]. apply first_line_prefix.
Qed.

End SimpleServerFacts.

(** ** Instances *)

Lemma listing_served_from_cache_witness :
  get_blippi_videos Sample.int_of_query Sample.offline Scenario.later (Some "50") None []
    (cache_after
       (get_blippi_videos Sample.int_of_query Sample.channel_resolver Sample.clock
          (Some "50") None Sample.three_channels ∅))
  = {| response :=
         response
           (get_blippi_videos Sample.int_of_query Sample.channel_resolver Sample.clock
              (Some "50") None Sample.three_channels ∅);
       cache_after :=
         cache_after
           (get_blippi_videos Sample.int_of_query Sample.channel_resolver Sample.clock
              (Some "50") None Sample.three_channels ∅);
       resolver_calls := [] |}.
Proof.
  apply (listing_served_from_cache Sample.int_of_query Sample.channel_resolver
           Sample.offline Sample.clock Scenario.later (Some "50") None
           Sample.three_channels [] ∅ 50 Sample.three_channels);
    [reflexivity|reflexivity|reflexivity|by vm_compute].
Defined.

Lemma listing_bounds_witness :
  ∃ data,
    response (get_blippi_videos Sample.int_of_query Sample.channel_resolver
                Sample.clock (Some "1") None Sample.three_channels ∅)
    = Json200 (ChannelPayload data)
    ∧ cd_count data = length (cd_videos data)
    ∧ (cd_count data ≤ 1)%nat.
Proof.
  destruct (listing_bounds Sample.int_of_query Sample.channel_resolver Sample.clock
              (Some "1") None Sample.three_channels ∅ 1 Sample.three_channels)
    as (data & Hresp & Hcount & Hle & _);
    [reflexivity|reflexivity|reflexivity|lia|].
  exists data. split; [done|]. split; [done|]. exact Hle.
Defined.

Lemma channel_none_alias_witness :
  get_blippi_videos Sample.int_of_query Sample.offline Sample.clock None (Some "None")
    Sample.three_channels Scenario.all_channels_cache
  = {| response :=
         Json200 (ChannelPayload {| cd_videos := []; cd_count := 0; cd_fetched_at := 0 |});
       cache_after := Scenario.all_channels_cache;
       resolver_calls := [] |}.
Proof.
  apply (proj2 (channel_none_alias Sample.int_of_query Sample.offline Sample.clock None
                  Sample.three_channels Scenario.all_channels_cache 50
                  "invalid literal for int() with base 10" eq_refl eq_refl)).
  by vm_compute.
Defined.

Lemma extract_playlist_witness :
  ∃ data,
    extract_playlist Sample.int_of_query Scenario.one_video 7
      (Returned (PStr "PLkids")) (Some "1")
    = (PlaylistJson data, ["https://www.youtube.com/playlist?list=PLkids"])
    ∧ pd_count data = length (pd_videos data)
    ∧ (pd_count data ≤ 1)%nat.
Proof.
  destruct (proj2 (proj2 (proj2
              (extract_playlist_answers Sample.int_of_query Scenario.one_video 7
                 (PStr "PLkids") (Some "1"))))
              1 (Sample.listing "toy0000001" "Blippi Toys"))
    as (data & Hanswer & _ & Hcount & Hle & _); [reflexivity|reflexivity|reflexivity|].
  exists data. split; [exact Hanswer|]. split; [done|]. apply Hle. lia.
Defined.

Lemma deleted_channel_witness :
  Forall (λ url, ∃ c, c ∈ ServerReads.listed_channels (Server.init_db 0)
                      ∧ c ≠ "UC5PYHgAzJ1jQzoyDQjOA1RA" ∧ url = channel_url c)
         (resolver_calls
            (get_blippi_videos Sample.int_of_query Sample.channel_resolver Sample.clock
               None None ["UCqwjm_R3H1F6i8KBYmPh82A"] ∅)).
Proof.
  apply (deleted_channel_not_fetched Sample.int_of_query Sample.channel_resolver
           Sample.clock None None "UC5PYHgAzJ1jQzoyDQjOA1RA" (Server.init_db 0)
           ["UCqwjm_R3H1F6i8KBYmPh82A"] ∅).
  by vm_compute.
Defined.

Lemma restarted_reachable : ServerReads.reachable Scenario.restarted.
Proof.
  apply ServerReads.reachable_restart.
  do 3 apply (ServerReads.reachable_request false).
  apply ServerReads.reachable_new.
Qed.

Lemma one_group_reachable : ServerReads.reachable Scenario.one_group.
Proof.
  do 2 apply (ServerReads.reachable_request false).
  apply ServerReads.reachable_new.
Qed.

Lemma reachable_keys_unique_witness :
  ServerReads.keys_unique Scenario.restarted
  ∧ ServerReads.keys_bounded Scenario.restarted.
Proof. exact (reachable_keys_unique Scenario.restarted restarted_reachable). Defined.

Lemma group_listing_witness :
  (∃ group first second,
     ServerReads.get_group_videos 1 Scenario.two_videos
     = ServerReads.Listing group [first; second] 2
     ∧ Server.gv_video_id first = "abc123"
     ∧ Server.gv_video_id second = "ghi789"
     ∧ Server.vg_thumbnail group = Server.gv_video_thumbnail first)
  ∧ ServerReads.get_group_videos (2 ^ 63) Scenario.two_videos
    = ServerReads.ListingFailed 500 "Python int too large to convert to SQLite INTEGER".
Proof.
  split.
  - pose proof (group_listing_in_order Scenario.two_videos 1 two_videos_reachable) as H.
    destruct (ServerReads.get_group_videos 1 Scenario.two_videos)
      as [group videos count|status error] eqn:E; [|by vm_compute in E].
    destruct H as (_ & _ & _ & Hvideos & Hcount & _ & Hthumb).
    vm_compute in Hvideos. subst videos. simpl in Hcount. subst count.
    eexists group, _, _. split; [reflexivity|]. split; [reflexivity|].
    split; [reflexivity|exact Hthumb].
  - pose proof (group_listing_in_order Scenario.two_videos (2 ^ 63)
                  two_videos_reachable) as H.
    destruct (ServerReads.get_group_videos (2 ^ 63) Scenario.two_videos)
      as [group videos count|status error] eqn:E; [by vm_compute in E|].
    change (fits_int64 (2 ^ 63)) with false in H. by destruct H as [-> ->].
Defined.

Lemma removal_takes_one_row_witness :
  (∃ db',
     Server.delete_video_from_group 1 1 Scenario.two_videos
     = (Server.Succeeded 200 "Video deleted successfully" None, db')
     ∧ Server.gv_video_id <$> Server.group_videos db' = ["ghi789"])
  ∧ Server.delete_video_from_group 1 (2 ^ 63) Scenario.two_videos
    = (Server.Failed 500 "Python int too large to convert to SQLite INTEGER",
       Scenario.two_videos).
Proof.
  split.
  - destruct (proj1 (removal_takes_one_row Scenario.two_videos 1 1
                       two_videos_reachable))
      as (db' & Hdel & Hrows & _).
    + apply Exists_cons_hd. by vm_compute.
    + exists db'. split; [exact Hdel|]. by rewrite Hrows.
  - apply (proj2 (removal_takes_one_row Scenario.two_videos 1 (2 ^ 63)
                    two_videos_reachable)).
    apply no_such_row. lia.
Defined.

Lemma new_group_starts_empty_witness :
  Server.group_videos Scenario.restarted ≠ []
  ∧ Server.members 2
      (Server.group_videos
         (Server.create_group 50 Scenario.kids_request Scenario.restarted).2) = [].
Proof.
  split; [by vm_compute|].
  destruct (new_group_starts_empty Scenario.restarted 50 Scenario.kids_request
              201 "Group created successfully" 2 (PStr "Kids") (PStr "")
              (Server.create_group 50 Scenario.kids_request Scenario.restarted).2
              restarted_reachable)
    as (_ & _ & Hempty & _); [by vm_compute|]. exact Hempty.
Defined.

Lemma add_then_delete_channel_witness :
  ∃ db2,
    Server.delete_channel "UCsongs"
      (Server.add_channel 5 Scenario.songs_channel (Server.init_db 0)).2
    = (Server.Succeeded 200 "Channel deleted successfully" None, db2)
    ∧ Server.channels db2 = Server.channels (Server.init_db 0).
Proof.
  destruct (add_then_delete_channel 5 Scenario.songs_channel (Server.init_db 0)
              201 "Channel added successfully"
              (Some (Server.NewChannel 3 (PStr "UCsongs") (PStr "Songs") (PStr "") (PStr "")))
              (Server.add_channel 5 Scenario.songs_channel (Server.init_db 0)).2)
    as (db2 & Hdel & Hch & _); [by vm_compute|].
  exists db2. split; [exact Hdel|exact Hch].
Defined.

Lemma add_then_delete_video_witness :
  ∃ db2,
    Server.delete_video_from_group 1 2
      (Server.add_video_to_group 30 1 Sample.third_video Scenario.one_group).2
    = (Server.Succeeded 200 "Video deleted successfully" None, db2)
    ∧ Server.group_videos db2 = Server.group_videos Scenario.one_group
    ∧ Server.video_groups db2 = Server.video_groups Scenario.one_group.
Proof.
  destruct (add_then_delete_video Scenario.one_group 30 1 Sample.third_video
              201 "Video added to group successfully" 2
              (PStr "ghi789") (PStr "Learn numbers")
              (PStr "https://i.ytimg.com/vi/ghi789/hqdefault.jpg") 2
              (Server.add_video_to_group 30 1 Sample.third_video Scenario.one_group).2
              one_group_reachable)
    as (db2 & Hdel & _ & Hgroups & Hrows & _); [by vm_compute|].
  exists db2. split; [exact Hdel|]. by split.
Defined.

Lemma add_video_twice_witness :
  Server.add_video_to_group 40 1 Sample.third_video
    (Server.add_video_to_group 30 1 Sample.third_video Scenario.one_group).2
  = (Server.Failed 409 "Video already exists in this group",
     (Server.add_video_to_group 30 1 Sample.third_video Scenario.one_group).2).
Proof.
  rewrite (add_video_twice_conflict 30 40 1 Sample.third_video Scenario.one_group
             201 "Video added to group successfully"
             (Some (Server.NewVideo 2 (PStr "ghi789") (PStr "Learn numbers")
                      (PStr "https://i.ytimg.com/vi/ghi789/hqdefault.jpg") 2))
             (Server.add_video_to_group 30 1 Sample.third_video Scenario.one_group).2);
    [|by vm_compute].
  rewrite decide_False by (by vm_compute).
  by rewrite decide_False by (by vm_compute).
Defined.

Lemma create_group_rejects_repeats_witness :
  ∃ error,
    Backend.create_group Sample.offline "5f0e7a10" 9 Scenario.repeated_ids
      Sample.empty_group_db
    = (Backend.Failed 500 error, Sample.empty_group_db).
Proof.
  apply (create_group_rejects_repeats Sample.offline "5f0e7a10" 9 Scenario.repeated_ids
           Sample.empty_group_db
           [Backend.placeholder "abc123"; Backend.placeholder "abc123"]);
    [reflexivity|reflexivity|].
  intros [Hrep _]%NoDup_cons. apply Hrep. apply elem_of_cons. by left.
Defined.

Lemma create_group_read_back_witness :
  ∃ g listed,
    Backend.load_group "5f0e7a10"
      (Backend.create_group Sample.offline "5f0e7a10" 9 Scenario.two_ids
         Sample.empty_group_db).2
    = Some (g, listed)
    ∧ Backend.v_video_id <$> listed = ["alfa1234"; "zulu5678"]
    ∧ Backend.v_video_id
        <$> Backend.videos
              (Backend.create_group Sample.offline "5f0e7a10" 9 Scenario.two_ids
                 Sample.empty_group_db).2
      = ["zulu5678"; "alfa1234"]
    ∧ Backend.member_ids "7b0c4a52"
        (Backend.create_group Sample.offline "5f0e7a10" 9 Scenario.two_ids
           Sample.empty_group_db).2
      = [].
Proof.
  destruct (create_group_read_back Sample.offline "5f0e7a10" 9 Scenario.two_ids
              Sample.empty_group_db "5f0e7a10"
              [Backend.placeholder "zulu5678"; Backend.placeholder "alfa1234"] 9
              (Backend.create_group Sample.offline "5f0e7a10" 9 Scenario.two_ids
                 Sample.empty_group_db).2)
    as (_ & _ & _ & _ & (g & listed & _ & _ & _ & Hload & _) & _ & _ & Hothers);
    [by vm_compute|].
  exists g, listed. split; [exact Hload|].
  split; [|split; [by vm_compute|by rewrite Hothers]].
  vm_compute in Hload. by injection Hload as _ <-.
Defined.

Lemma added_count_witness :
  ∃ rows,
    Backend.videos
      (Backend.add_videos_to_group Sample.offline "7b0c4a52"
         (Backend.manual_body [" abc123 "]) Sample.empty_group_db).2
    = rows
    ∧ length rows = 1%nat.
Proof.
  destruct (added_count_counts_rows Sample.offline "7b0c4a52"
              (Backend.manual_body [" abc123 "]) Sample.empty_group_db 1%nat
              (Backend.load_group "7b0c4a52"
                 (Backend.add_videos_to_group Sample.offline "7b0c4a52"
                    (Backend.manual_body [" abc123 "]) Sample.empty_group_db).2)
              (Backend.add_videos_to_group Sample.offline "7b0c4a52"
                 (Backend.manual_body [" abc123 "]) Sample.empty_group_db).2)
    as (_ & _ & (rows & Hrows & Hlen & _) & _); [by vm_compute|].
  exists rows. split; [|exact Hlen]. by rewrite Hrows.
Defined.

Lemma deleted_group_witness :
  length (Backend.videos (Backend.delete_group "7b0c4a52" Scenario.two_groups).2)
  = 3%nat
  ∧ (λ p : Backend.Group * list Backend.Video,
       (Backend.g_id p.1, Backend.v_video_id <$> p.2))
      <$> BackendRuns.load_groups Scenario.two_groups
    = [("7b0c4a52", ["alfa1234"; "zulu5678"]); ("5f0e7a10", ["abc123"])]
  ∧ (λ p : Backend.Group * list Backend.Video,
       (Backend.g_id p.1, Backend.v_video_id <$> p.2))
      <$> BackendRuns.load_groups
            (Backend.delete_group "7b0c4a52" Scenario.two_groups).2
    = [("5f0e7a10", ["abc123"])]
  ∧ Backend.delete_group "7b0c4a52"
      (Backend.delete_group "7b0c4a52" Scenario.two_groups).2
    = (Backend.Failed 404 "Group not found",
       (Backend.delete_group "7b0c4a52" Scenario.two_groups).2).
Proof.
  destruct (deleted_group_not_listed "7b0c4a52" Scenario.two_groups
              (Backend.delete_group "7b0c4a52" Scenario.two_groups).2)
    as (Hvideos & Hlisted & _ & Hagain); [by vm_compute|].
  split; [by rewrite Hvideos|]. split; [by vm_compute|].
  split; [by rewrite Hlisted|exact Hagain].
Defined.

Lemma block_then_unblock_video_witness :
  Blocklist.unblock_video "abc123"
    (Blocklist.block_video 3 Scenario.unwanted Blocklist.init_database).2
  = (Blocklist.Done, Blocklist.init_database).
Proof.
  apply (block_then_unblock_video 3 Scenario.unwanted Blocklist.init_database
           (Blocklist.block_video 3 Scenario.unwanted Blocklist.init_database).2).
  by vm_compute.
Defined.

Lemma block_then_unblock_channel_witness :
  Blocklist.unblock_channel "UCsongs"
    (Blocklist.block_channel 3 Scenario.songs_channel Blocklist.init_database).2
  = (Blocklist.Done, Blocklist.init_database).
Proof.
  apply (block_then_unblock_channel 3 Scenario.songs_channel Blocklist.init_database
           (Blocklist.block_channel 3 Scenario.songs_channel Blocklist.init_database).2).
  by vm_compute.
Defined.

Lemma extracted_url_witness :
  SimpleServer.extract_video Scenario.finished "abc123"
  = SimpleServer.Extracted "https://cdn.example/video.mp4"
  ∧ "010"%char ∉ String.list_ascii_of_string "https://cdn.example/video.mp4".
Proof.
  split; [by vm_compute|].
  apply (extracted_url_one_line Scenario.finished "abc123"
           "https://cdn.example/video.mp4").
  by vm_compute.
Defined.
